(** * Dialogue orchestrator of the accent coach (src/App.js): a shallow embedding

    The React component [App] keeps its state in [useState] cells and reacts
    to UI triggers and to the callbacks of three collaborators (speech
    recognition, speech synthesis, the language-model endpoint).  Each handler
    of the component is embedded as a state transformer that also records the
    commands it issues to the collaborators.

    The sources hold three revisions of the component.  The embedding follows
    the latest one (sentence-based chunking, [useCallback] handlers); module
    [Earlier] has what the revision before it does differently
    (word-based chunking, [sendMessage], the utterance callbacks), and module
    [First] has the request filter and the tips lookup of the first revision.

    A handler reads the state cells of the render at which React created
    it: every handler takes that render as an argument, and the component
    with its collaborators ([World]) keeps the render of the memoised
    [sendMessage] and the render of the recognition object in use.  The log
    may hold a Turn without a text, which a response body can leave there.

    Strings are JavaScript strings: sequences of UTF-16 code units, so that
    [length], [trim], [split] and [startsWith] count and compare what the
    engine counts and compares.

    Left out, as they change neither the state nor the commands: logging,
    the choice of the voice, the scrolling effect, and the duration of the
    delays ([setTimeout]): a delayed call is recorded as a command. *)

From Stdlib Require Import String Ascii List NArith Arith Bool Lia.
Import ListNotations.

(* ================================================================== *)
(** ** JavaScript strings *)
(* ================================================================== *)

Module JsString.

Definition codeunit := N.
Definition jsstring := list codeunit.

(** An ASCII literal of the source, as code units. *)
Definition js (s : string) : jsstring :=
  map N_of_ascii (list_ascii_of_string s).
Arguments js s%_string.

Definition dquote : codeunit := 34%N.      (* the double quote character *)
Definition space : codeunit := 32%N.
Definition sparkles : codeunit := 10024%N. (* U+2728, the marker prefix *)

Fixpoint eqb (a b : jsstring) : bool :=
  match a, b with
  | [], [] => true
  | x :: a', y :: b' => N.eqb x y && eqb a' b'
  | _, _ => false
  end.

Fixpoint startsWith (s prefix : jsstring) {struct prefix} : bool :=
  match prefix, s with
  | [], _ => true
  | p :: prefix', c :: s' => N.eqb c p && startsWith s' prefix'
  | _ :: _, [] => false
  end.

(** Truthiness of a string value: the empty string is the only falsy one. *)
Definition truthy (s : jsstring) : bool :=
  match s with [] => false | _ :: _ => true end.

(** WhiteSpace and LineTerminator of ECMAScript: the set stripped by
    [String.prototype.trim] and matched by the regular-expression class \s. *)
Definition isWhiteSpace (c : codeunit) : bool :=
  ((9 <=? c) && (c <=? 13) ||            (* TAB LF VT FF CR *)
   (c =? 32) || (c =? 160) || (c =? 5760) ||
   (8192 <=? c) && (c <=? 8202) ||       (* U+2000 .. U+200A *)
   (c =? 8232) || (c =? 8233) ||         (* LS PS *)
   (c =? 8239) || (c =? 8287) || (c =? 12288) || (c =? 65279))%N.

Fixpoint trimStart (s : jsstring) : jsstring :=
  match s with
  | [] => []
  | c :: s' => if isWhiteSpace c then trimStart s' else s
  end.

Definition trimEnd (s : jsstring) : jsstring := rev (trimStart (rev s)).

Definition trim (s : jsstring) : jsstring := trimEnd (trimStart s).

(** Shapes of strings used to state what [trim] does: the first (last)
    code unit exists and is not white space; all code units are white space. *)
Definition headNonWs (s : jsstring) : bool :=
  match s with c :: _ => negb (isWhiteSpace c) | [] => false end.

Definition lastNonWs (s : jsstring) : bool := headNonWs (rev s).

Definition blank (s : jsstring) : bool := forallb isWhiteSpace s.

(** No code unit of the string is white space. *)
Definition noWhiteSpace (s : jsstring) : bool :=
  forallb (fun c => negb (isWhiteSpace c)) s.

(** [Array.prototype.join] with a separator. *)
Fixpoint join (sep : jsstring) (l : list jsstring) : jsstring :=
  match l with
  | [] => []
  | [x] => x
  | x :: rest => x ++ sep ++ join sep rest
  end.

(** *** [String.prototype.split] with a regular expression

    The engine scans the string from left to right; at each position it
    tries the expression; on a match the text since the previous separator is
    pushed and scanning resumes after the match; the tail is pushed at the
    end.  A [matcher] gives the length of the match of one expression at a
    position, from the code unit before the position (for a lookbehind) and
    the text from the position on.  The expressions of the source never match
    the empty string. *)
Definition matcher := option codeunit -> jsstring -> option nat.

Fixpoint splitFrom (m : matcher) (skip : nat) (prev : option codeunit)
         (piece rest : jsstring) : list jsstring :=
  match rest with
  | [] => [piece]
  | c :: rest' =>
      match skip with
      | S k => splitFrom m k (Some c) piece rest'
      | O =>
          match m prev rest with
          | Some (S k) => piece :: splitFrom m k (Some c) [] rest'
          | _ => splitFrom m 0 (Some c) (piece ++ [c]) rest'
          end
      end
  end.

Definition split (m : matcher) (s : jsstring) : list jsstring :=
  splitFrom m 0 None [] s.

(** Length of the longest prefix whose code units satisfy [p]: a greedy
    one-or-more repetition of a character class. *)
Fixpoint runLength (p : codeunit -> bool) (s : jsstring) : nat :=
  match s with
  | c :: s' => if p c then S (runLength p s') else 0
  | [] => 0
  end.

Definition isLineFeed (c : codeunit) : bool := (c =? 10)%N.

(** The class [.!?] *)
Definition isSentenceEnd (c : codeunit) : bool :=
  ((c =? 46) || (c =? 33) || (c =? 63))%N.

(** The expression /\s+/ *)
Definition reWhitespace : matcher := fun _ rest =>
  match runLength isWhiteSpace rest with
  | O => None
  | n => Some n
  end.

(** The expression /(?<=[.!?])\s+|\n+/ : the first alternative is tried
    first, the second only where the first fails. *)
Definition reSentenceBreak : matcher := fun prev rest =>
  let lookbehind := match prev with Some c => isSentenceEnd c | None => false end in
  match (if lookbehind then runLength isWhiteSpace rest else 0) with
  | S k => Some (S k)
  | O => match runLength isLineFeed rest with
         | O => None
         | n => Some n
         end
  end.

(** What a match of either expression covers is white space. *)
Definition separatesAtWhiteSpace (m : matcher) : Prop :=
  forall prev rest n, m prev rest = Some n -> blank (firstn n rest) = true.

End JsString.

Import JsString.

(* ================================================================== *)
(** ** Text chunking inside [speakMessage] *)
(* ================================================================== *)

Module Chunker.

(** [chunks.push(currentChunk.trim())] under [if (currentChunk.trim())]. *)
Definition pushChunk (chunks : list jsstring) (currentChunk : jsstring)
  : list jsstring :=
  if truthy (trim currentChunk) then chunks ++ [trim currentChunk] else chunks.

(** *** Sentence-based chunking (src/App.js, current revision) *)

(** [text.split(/(?<=[.!?])\s+|\n+/).filter(s => s.trim().length > 0)] *)
Definition sentenceSegments (text : jsstring) : list jsstring :=
  filter (fun s => 0 <? length (trim s)) (split reSentenceBreak text).

(** The [for] loop over the segments, with the two variables it updates. *)
Fixpoint packSegments (maxUtteranceLength : nat) (segments chunks : list jsstring)
         (currentChunk : jsstring) : list jsstring * jsstring :=
  match segments with
  | [] => (chunks, currentChunk)
  | s :: rest =>
      let segment := trim s in
      if length segment =? 0 then
        packSegments maxUtteranceLength rest chunks currentChunk
      else if length (trim (currentChunk ++ [space] ++ segment)) <=? maxUtteranceLength then
        packSegments maxUtteranceLength rest chunks
          (currentChunk ++ (if truthy currentChunk then [space] else []) ++ segment)
      else
        packSegments maxUtteranceLength rest (pushChunk chunks currentChunk) segment
  end.

Definition chunk (text : jsstring) (maxUtteranceLength : nat) : list jsstring :=
  let (chunks, currentChunk) :=
    packSegments maxUtteranceLength (sentenceSegments text) [] [] in
  pushChunk chunks currentChunk.

(** *** Word-based chunking (the earlier revision of [speakMessage]) *)

Fixpoint packWords (maxUtteranceLength : nat) (words chunks : list jsstring)
         (currentChunk : jsstring) : list jsstring * jsstring :=
  match words with
  | [] => (chunks, currentChunk)
  | word :: rest =>
      if length (trim (currentChunk ++ [space] ++ word)) <=? maxUtteranceLength then
        packWords maxUtteranceLength rest chunks (currentChunk ++ [space] ++ word)
      else
        packWords maxUtteranceLength rest (pushChunk chunks currentChunk) word
  end.

Definition chunkWords (text : jsstring) (maxUtteranceLength : nat) : list jsstring :=
  let (chunks, currentChunk) :=
    packWords maxUtteranceLength (split reWhitespace text) [] [] in
  pushChunk chunks currentChunk.

(** *** The word sequence of a text

    The maximal runs of code units that are not white space, in order: what
    the round-trip property of the chunker is stated against. *)
Definition closeWord (word : jsstring) (l : list jsstring) : list jsstring :=
  match word with [] => l | _ :: _ => word :: l end.

Fixpoint wordsFrom (word s : jsstring) : list jsstring :=
  match s with
  | [] => closeWord word []
  | c :: s' =>
      if isWhiteSpace c then closeWord word (wordsFrom [] s')
      else wordsFrom (word ++ [c]) s'
  end.

Definition wordSequence (s : jsstring) : list jsstring := wordsFrom [] s.

(** What is asked of one chunk, against the atomic segments of the text:
    it is not empty, it is trimmed, and it fits the maximal length unless it
    is one whole atomic segment that is longer. *)
Definition chunkOk (maxLen : nat) (atoms : list jsstring) (c : jsstring) : Prop :=
  c <> [] /\ trim c = c
  /\ (length c <= maxLen \/ (maxLen < length c /\ In c atoms)).

(** Invariants of the packing loops.  The running chunk, once trimmed,
    fits the maximum or is one atomic segment; a pushed chunk is moreover
    non-empty and trimmed. *)
Definition runningChunkOk (maxLen : nat) (atoms : list jsstring)
           (cur : jsstring) : Prop :=
  length (trim cur) <= maxLen \/ In (trim cur) atoms.

Definition pushedChunkOk (maxLen : nat) (atoms : list jsstring)
           (c : jsstring) : Prop :=
  c <> [] /\ trim c = c /\ (length c <= maxLen \/ In c atoms).

(** The sentences, trimmed as the loop trims them. *)
Definition sentenceAtoms (text : jsstring) : list jsstring :=
  map trim (sentenceSegments text).

(** The words of all strings of a list, in order. *)
Definition wordsOfAll (l : list jsstring) : list jsstring :=
  concat (map wordSequence l).

End Chunker.

Import Chunker.

(* ================================================================== *)
(** ** State of the component and commands to the collaborators *)
(* ================================================================== *)

Inductive Role := User | Model.

Record Turn := { role : Role; text : jsstring }.

(** An element of the log.  The handlers store Turns whose text is a string
    (a literal, a template, the result of [trim]).  The settlement of a
    request stores as text what the first part of the response body holds,
    whatever it is: when that is no string, the log holds a model Turn
    without a text. *)
Inductive Entry :=
| Said (t : Turn)
| Textless.

Coercion Said : Turn >-> Entry.

(** A Turn in a list literal of entries is read as an entry. *)
Arguments cons {A} & a l.

(** ['vocab'] and ['rephrase']; [null] is [None]. *)
Inductive Feature := Vocab | Rephrase.

(** What [JSON.stringify] writes for a [text] property: a string, or
    nothing when the property holds none. *)
Inductive JsonText :=
| NoText
| Str (s : jsstring).

Coercion Str : jsstring >-> JsonText.

(** One entry of the request body: [{ role, parts: [{ text }] }]. *)
Record Content := { contentRole : Role; contentText : JsonText }.

Inductive Command :=
| Fetch (contents : list Content)          (* POST of [{ contents }] to the endpoint *)
| SynthCancel                              (* [synth.cancel()] *)
| SchedulePlayback (chunks : list jsstring) (* [setTimeout(speakNext, 200)] *)
| SynthSpeak (chunk : jsstring)            (* [synth.speak(utterance)], 50 ms later *)
| RecognitionStart
| RecognitionStop.

(** The [useState] cells, and what the handlers read of the refs and of the
    synthesis engine. *)
Record State := {
  conversation : list Entry;
  message : jsstring;
  isListening : bool;
  isSpeaking : bool;
  isLoading : bool;
  error : jsstring;
  awaitingFeatureInput : option Feature;
  recognitionRef : bool;   (* [recognitionRef.current] is set *)
  synthRef : bool;         (* [synthRef.current] is set *)
  synthSpeaking : bool     (* [synthRef.current.speaking] *)
}.

Definition roleEqb (a b : Role) : bool :=
  match a, b with User, User | Model, Model => true | _, _ => false end.

(** A handler body: it transforms the state and issues commands. *)
Definition Action := State -> State * list Command.

Definition skip : Action := fun s => (s, []).

Definition andThen (a b : Action) : Action := fun s =>
  let (s1, c1) := a s in
  let (s2, c2) := b s1 in
  (s2, c1 ++ c2).

Declare Scope action_scope.
Delimit Scope action_scope with action.
Bind Scope action_scope with Action.
Notation "a ;; b" := (andThen a b) (at level 61, right associativity) : action_scope.
Open Scope action_scope.

Definition emit (c : Command) : Action := fun s => (s, [c]).

(** A read of a ref or of the engine, at the moment the statement runs. *)
Definition reading (k : State -> Action) : Action := fun s => k s s.

(** The setters; [setConversation] takes the updater function the source
    passes ([prev => ...]). *)
Definition setConversation (f : list Entry -> list Entry) : Action := fun s =>
  ({| conversation := f (conversation s); message := message s;
      isListening := isListening s; isSpeaking := isSpeaking s;
      isLoading := isLoading s; error := error s;
      awaitingFeatureInput := awaitingFeatureInput s;
      recognitionRef := recognitionRef s; synthRef := synthRef s;
      synthSpeaking := synthSpeaking s |}, []).

Definition setMessage (m : jsstring) : Action := fun s =>
  ({| conversation := conversation s; message := m;
      isListening := isListening s; isSpeaking := isSpeaking s;
      isLoading := isLoading s; error := error s;
      awaitingFeatureInput := awaitingFeatureInput s;
      recognitionRef := recognitionRef s; synthRef := synthRef s;
      synthSpeaking := synthSpeaking s |}, []).

Definition setIsListening (b : bool) : Action := fun s =>
  ({| conversation := conversation s; message := message s;
      isListening := b; isSpeaking := isSpeaking s;
      isLoading := isLoading s; error := error s;
      awaitingFeatureInput := awaitingFeatureInput s;
      recognitionRef := recognitionRef s; synthRef := synthRef s;
      synthSpeaking := synthSpeaking s |}, []).

Definition setIsSpeaking (b : bool) : Action := fun s =>
  ({| conversation := conversation s; message := message s;
      isListening := isListening s; isSpeaking := b;
      isLoading := isLoading s; error := error s;
      awaitingFeatureInput := awaitingFeatureInput s;
      recognitionRef := recognitionRef s; synthRef := synthRef s;
      synthSpeaking := synthSpeaking s |}, []).

Definition setIsLoading (b : bool) : Action := fun s =>
  ({| conversation := conversation s; message := message s;
      isListening := isListening s; isSpeaking := isSpeaking s;
      isLoading := b; error := error s;
      awaitingFeatureInput := awaitingFeatureInput s;
      recognitionRef := recognitionRef s; synthRef := synthRef s;
      synthSpeaking := synthSpeaking s |}, []).

Definition setError (e : jsstring) : Action := fun s =>
  ({| conversation := conversation s; message := message s;
      isListening := isListening s; isSpeaking := isSpeaking s;
      isLoading := isLoading s; error := e;
      awaitingFeatureInput := awaitingFeatureInput s;
      recognitionRef := recognitionRef s; synthRef := synthRef s;
      synthSpeaking := synthSpeaking s |}, []).

Definition setAwaitingFeatureInput (f : option Feature) : Action := fun s =>
  ({| conversation := conversation s; message := message s;
      isListening := isListening s; isSpeaking := isSpeaking s;
      isLoading := isLoading s; error := error s;
      awaitingFeatureInput := f;
      recognitionRef := recognitionRef s; synthRef := synthRef s;
      synthSpeaking := synthSpeaking s |}, []).

(** The engine stops speaking: the effect of [synth.cancel()] on
    [synth.speaking], and of the end of an utterance. *)
Definition engineSpeaking (b : bool) : Action := fun s =>
  ({| conversation := conversation s; message := message s;
      isListening := isListening s; isSpeaking := isSpeaking s;
      isLoading := isLoading s; error := error s;
      awaitingFeatureInput := awaitingFeatureInput s;
      recognitionRef := recognitionRef s; synthRef := synthRef s;
      synthSpeaking := b |}, []).

(** [[...prev, turn]] *)
Definition append (t : Entry) (prev : list Entry) : list Entry := prev ++ [t].

(* ================================================================== *)
(** ** String constants of the component *)
(* ================================================================== *)

Module Text.

Definition greeting : jsstring :=
  js "Hello! I am your AI British accent teacher. How may I assist you today in mastering the nuances of British English?".

Definition listening : jsstring := js "Listening...".

Definition initialPrompt : jsstring :=
  js "You are an AI virtual teacher focused on helping users learn and practice a British BBC accent. Your responses should be clear, concise, and use formal British English vocabulary and phrasing. When appropriate, offer specific advice on pronunciation, intonation, or common British English nuances based on the user's input. Encourage polite, clear conversation. Start by introducing yourself and asking how you can assist the user in their journey to master the British accent.".

Definition ackVocab : jsstring :=
  js "Thank you. Please wait a moment while I compile some suggestions for you.".

Definition ackRephrase : jsstring :=
  js "Understood. Let me consider how to best rephrase that for a British context.".

Definition vocabPrompt (userMessageContent : jsstring) : jsstring :=
  js "The user is asking for British English vocabulary and idioms related to the topic: "
  ++ [dquote] ++ userMessageContent ++ [dquote]
  ++ js ". As a British BBC accent teacher, please provide a list of 5-7 relevant words or idioms with brief explanations/contexts.".

Definition rephrasePrompt (userMessageContent : jsstring) : jsstring :=
  js "The user wants to rephrase the sentence: "
  ++ [dquote] ++ userMessageContent ++ [dquote]
  ++ js ". As a British BBC accent teacher, please rephrase this sentence to sound more natural and idiomatic in British English. Offer one or two alternative phrasings.".

Definition tipsPrompt (lastText : jsstring) : jsstring :=
  js "The user just said: "
  ++ [dquote] ++ lastText ++ [dquote]
  ++ js ". As a British BBC accent teacher, please provide specific, helpful pronunciation tips for improving the British English sound of that sentence. Focus on key words or common phonetic differences. Keep it concise and practical.".

Definition tipsMarker (lastText : jsstring) : jsstring :=
  [sparkles] ++ js " Requested pronunciation tips for: "
  ++ [dquote] ++ lastText ++ [dquote].

Definition vocabMarker : jsstring :=
  [sparkles] ++ js " I'd like some British vocabulary/idioms.".

Definition vocabQuestion : jsstring :=
  js "Excellent! Please tell me, what topic would you like vocabulary or idioms for? For example, you could say "
  ++ [dquote] ++ js "food," ++ [dquote] ++ js " "
  ++ [dquote] ++ js "travel," ++ [dquote] ++ js " or "
  ++ [dquote] ++ js "everyday life." ++ [dquote].

Definition rephraseMarker : jsstring :=
  [sparkles] ++ js " I'd like a sentence rephrased in British English.".

Definition rephraseQuestion : jsstring :=
  js "Certainly. Please provide the sentence you wish to rephrase. I will endeavour to make it sound more quintessentially British.".

Definition rolePlayMarker : jsstring :=
  [sparkles] ++ js " Starting a new role-play scenario...".

Definition rolePlayPrompt : jsstring :=
  js "As a British BBC accent teacher, please initiate a short, engaging role-play scenario for the user to practice their British English. Suggest a setting (e.g., a caf"
  ++ [233%N]
  ++ js ", a train station, a British garden party) and start the conversation. Keep your initial prompt for the role-play short and set the scene clearly.".

Definition fallbackApology : jsstring :=
  js "I apologize, I couldn't generate a response at this moment. Please try again.".

Definition unknownApiError : jsstring := js "An unknown API error occurred.".

Definition apiErrorText (msg : jsstring) : jsstring := js "Error: " ++ msg.

Definition connectionApology : jsstring :=
  js "I'm having trouble connecting right now. Please try again later.".

Definition errNetwork : jsstring :=
  js "Failed to get response from AI. Please check your network connection.".

Definition errEmptyMessage : jsstring :=
  js "Please enter or speak a message to send.".

Definition errNoSynthesis : jsstring :=
  js "Speech synthesis not available. Please try refreshing or using a supported browser.".

Definition errSynthesis (e : jsstring) : jsstring :=
  js "Speech synthesis error: " ++ e ++ js ". Please try again.".

Definition errRecognition (e : jsstring) : jsstring :=
  js "Speech recognition error: " ++ e
  ++ js ". Please ensure microphone access is granted.".

Definition errRecognitionUnavailable : jsstring :=
  js "Speech recognition is not available or already active.".

Definition errUnsupported : jsstring :=
  js "Web Speech API is not supported in this browser. Please use Chrome or Edge for voice input.".

Definition errRecognitionStart : jsstring :=
  js "Failed to start speech recognition. Please check microphone permissions and try again.".

Definition errNoSpeech : jsstring :=
  js "No speech was recognized. Please try speaking clearly.".

Definition errNoUserMessage : jsstring :=
  js "Please speak or type a message first to get pronunciation tips.".

End Text.

(* ================================================================== *)
(** ** The handlers of the component (src/App.js, current revision) *)
(* ================================================================== *)

(** A handler is created at a render and closes over the values the state
    cells had at that render: its first argument, [r].  Updates go through
    the setters and act on the state current when they run.  Which render
    [r] is depends on the handler.  A plain function of the component body
    is created anew at every render.  A function memoised with
    [useCallback], and a callback created inside an effect, is that of the
    last render at which its dependency list changed; [message] is in no
    dependency list. *)
Definition Handler := State -> Action.

(** The handler that the latest render created runs. *)
Definition invoke (h : Handler) : Action := fun s => h s s.

Definition greetingTurn : Turn := {| role := Model; text := Text.greeting |}.

(** The texts of the Turns that carry no content of the conversation: the
    listening placeholder, the four feature initiation markers, and the two
    feature acknowledgements. *)
Definition markerText (t : jsstring) : Prop :=
  t = Text.listening
  \/ (exists quoted, t = Text.tipsMarker quoted)
  \/ t = Text.vocabMarker
  \/ t = Text.rephraseMarker
  \/ t = Text.rolePlayMarker
  \/ t = Text.ackVocab
  \/ t = Text.ackRephrase.

(** [msg.text === t] on an entry of the log; [undefined] is no string. *)
Definition textIs (t : jsstring) (msg : Entry) : bool :=
  match msg with
  | Said turn => JsString.eqb (text turn) t
  | Textless => false
  end.

(** [msg => msg.text !== 'Listening...'] *)
Definition notListening (msg : Entry) : bool :=
  negb (textIs Text.listening msg).

(** The four-way test of [filteredConversation], on a Turn with a text. *)
Definition keptForSubmission (msg : Turn) : bool :=
  negb (JsString.eqb (text msg) Text.listening)
  && negb (startsWith (text msg) [sparkles])
  && negb (JsString.eqb (text msg) Text.ackVocab)
  && negb (JsString.eqb (text msg) Text.ackRephrase).

Definition filteredConversation (conv : list Turn) : list Turn :=
  filter keptForSubmission conv.

Definition toContent (msg : Turn) : Content :=
  {| contentRole := match role msg with User => User | Model => Model end;
     contentText := text msg |}.

Definition chatHistory (conv : list Turn) (promptContent : jsstring)
  : list Content :=
  [{| contentRole := User; contentText := Text.initialPrompt |}]
  ++ map toContent (filteredConversation conv)
  ++ [{| contentRole := User; contentText := promptContent |}].

(** The Turns of a log whose entries all have a text.  On an entry without
    text the test of the filter throws: its first comparison is true, and
    the next conjunct calls [startsWith] on [undefined].  Then there is no
    history, whatever the other entries are. *)
Fixpoint turnsOf (conv : list Entry) : option (list Turn) :=
  match conv with
  | [] => Some []
  | Said t :: rest =>
      match turnsOf rest with
      | Some turns => Some (t :: turns)
      | None => None
      end
  | Textless :: _ => None
  end.

Definition stopSpeaking : Action :=
  reading (fun now =>
    if synthRef now && synthSpeaking now then
      emit SynthCancel ;; engineSpeaking false ;; setIsSpeaking false
    else skip).

Definition maxUtteranceLength : nat := 160.

Definition speakMessage (txt : jsstring) : Action :=
  reading (fun now =>
    if negb (synthRef now) then setError Text.errNoSynthesis
    else
      stopSpeaking ;;
      match chunk txt maxUtteranceLength with
      | [] => setIsSpeaking false
      | chunks => emit (SchedulePlayback chunks)
      end).

(** [sendPromptToGemini] up to the [await fetch]: the request is built from
    the conversation of the closure.  The filter stands before the [try]
    block and after [setIsLoading(true)]: when it throws, the handler ends
    there, with the flag set and without a request. *)
Definition sendPromptToGemini (r : State) (promptContent : jsstring) : Action :=
  setIsLoading true ;;
  match turnsOf (conversation r) with
  | Some turns => emit (Fetch (chatHistory turns promptContent))
  | None => skip
  end.

(** The parsed response body, as far as the handler inspects it.  An absent
    or falsy property is [None].  The [text] of the first part is read
    without a test: [partText] is [None] when it holds no string. *)
Record Part := { partText : option jsstring }.
Record CandidateContent := { parts : option (list Part) }.
Record Candidate := { content : option CandidateContent }.
Record ApiError := { errorMessage : option jsstring }.
Record ApiResult := {
  candidates : option (list Candidate);
  apiError : option ApiError
}.

(** How the [await]s of the [try] block and the reading of the body end.
    [Threw]: [fetch] or [response.json()] rejected, or the guard itself threw
    (a body that is no object, a first candidate that is [null]). *)
Inductive FetchOutcome :=
| Threw
| Returned (result : ApiResult).

(** [result.candidates[0].content.parts[0]] under the five-fold guard. *)
Definition firstPart (result : ApiResult) : option Part :=
  match candidates result with
  | Some (c :: _) =>
      match content c with
      | Some cc =>
          match parts cc with
          | Some (p :: _) => Some p
          | _ => None
          end
      | None => None
      end
  | _ => None
  end.

(** A usable candidate: the guard passes and the text is a string. *)
Definition firstCandidateText (result : ApiResult) : option jsstring :=
  match firstPart result with
  | Some p => partText p
  | None => None
  end.

(** [result.error.message || "An unknown API error occurred."] *)
Definition apiErrorMessage (e : ApiError) : jsstring :=
  match errorMessage e with
  | Some m => if truthy m then m else Text.unknownApiError
  | None => Text.unknownApiError
  end.

(** The value of [aiResponseText] after the selection; [None] when it is
    the text of the first part and that is no string. *)
Definition aiResponseText (result : ApiResult) : option jsstring :=
  match firstPart result with
  | Some p => partText p
  | None =>
      Some match apiError result with
           | Some e => Text.apiErrorText (apiErrorMessage e)
           | None => Text.fallbackApology
           end
  end.

(** [sendPromptToGemini] from the settlement of the request on: the rest of
    the [try] block, or the [catch] block, and the [finally] block.  With a
    text that is no string, [speakMessage] returns at its first test when
    there is no synthesis object, and otherwise throws at [text.split],
    after [stopSpeaking]: then the [catch] block runs as well. *)
Definition fetchSettled (outcome : FetchOutcome) : Action :=
  match outcome with
  | Returned result =>
      match aiResponseText result with
      | Some t =>
          setConversation (append {| role := Model; text := t |}) ;;
          speakMessage t ;;
          setIsLoading false
      | None =>
          setConversation (append Textless) ;;
          reading (fun now =>
            if negb (synthRef now) then setError Text.errNoSynthesis
            else
              stopSpeaking ;;
              setError Text.errNetwork ;;
              setConversation
                (append {| role := Model; text := Text.connectionApology |})) ;;
          setIsLoading false
      end
  | Threw =>
      setError Text.errNetwork ;;
      setConversation (append {| role := Model; text := Text.connectionApology |}) ;;
      setIsLoading false
  end.

Definition sendMessage (textToSend : jsstring) : Handler := fun r =>
  setConversation (filter notListening) ;;
  let userMessageContent := trim textToSend in
  if negb (truthy userMessageContent) || isLoading r then
    (if JsString.eqb textToSend (message r) && negb (truthy userMessageContent)
     then setError Text.errEmptyMessage
     else skip)
  else
    setError [] ;;
    setConversation (append {| role := User; text := userMessageContent |}) ;;
    setMessage [] ;;
    stopSpeaking ;;
    match awaitingFeatureInput r with
    | Some Vocab =>
        setAwaitingFeatureInput None ;;
        setConversation (append {| role := Model; text := Text.ackVocab |}) ;;
        sendPromptToGemini r (Text.vocabPrompt userMessageContent)
    | Some Rephrase =>
        setAwaitingFeatureInput None ;;
        setConversation (append {| role := Model; text := Text.ackRephrase |}) ;;
        sendPromptToGemini r (Text.rephrasePrompt userMessageContent)
    | None =>
        sendPromptToGemini r userMessageContent
    end.

(** [startOk] tells whether [recognitionRef.current.start()] returns or
    throws. *)
Definition startListening (startOk : bool) : Handler := fun r =>
  stopSpeaking ;;
  reading (fun now =>
    if recognitionRef now && negb (isListening r) then
      setError [] ;;
      setMessage [] ;;
      setConversation (append {| role := User; text := Text.listening |}) ;;
      (if startOk then
         emit RecognitionStart ;; setIsListening true
       else
         setError Text.errRecognitionStart ;;
         setIsListening false ;;
         setConversation (filter notListening))
    else setError Text.errRecognitionUnavailable).

Definition stopListening : Handler := fun r =>
  reading (fun now =>
    if recognitionRef now && isListening r then
      emit RecognitionStop ;; setIsListening false
    else skip).

(** Callbacks of the recognition object; [r] is the render at which the
    effect created them, whose [sendMessage] the result callback calls. *)
Definition recognitionOnResult (transcript : jsstring) : Handler := fun r =>
  setMessage transcript ;;
  sendMessage transcript r.

Definition recognitionOnEnd : Handler := fun r =>
  setIsListening false ;;
  if negb (truthy (trim (message r)))
     && existsb (textIs Text.listening) (conversation r)
  then setError Text.errNoSpeech ;; setConversation (filter notListening)
  else skip.

Definition recognitionOnError (e : jsstring) : Handler := fun _ =>
  setError (Text.errRecognition e) ;;
  setIsListening false ;;
  setConversation (filter notListening).

(** [isLoading || isListening || isSpeaking || awaitingFeatureInput] *)
Definition busy (r : State) : bool :=
  isLoading r || isListening r || isSpeaking r
  || match awaitingFeatureInput r with Some _ => true | None => false end.

(** [msg.role === 'user' && msg.text !== 'Listening...' &&
     !msg.text.startsWith(sparkles)]; on an entry without text the test ends
    at the role, which is that of the model. *)
Definition actualUserMessage (msg : Entry) : bool :=
  match msg with
  | Said turn =>
      roleEqb (role turn) User
      && negb (JsString.eqb (text turn) Text.listening)
      && negb (startsWith (text turn) [sparkles])
  | Textless => false
  end.

(** [conversation.slice().reverse().find(...)] *)
Definition lastUserMessage (conv : list Entry) : option Turn :=
  match find actualUserMessage (rev conv) with
  | Some (Said turn) => Some turn
  | _ => None
  end.

Definition getPronunciationTips : Handler := fun r =>
  setError [] ;;
  if busy r then skip
  else
    match lastUserMessage (conversation r) with
    | None => setError Text.errNoUserMessage
    | Some last =>
        setConversation
          (append {| role := User; text := Text.tipsMarker (text last) |}) ;;
        sendPromptToGemini r (Text.tipsPrompt (text last))
    end.

Definition getBritishVocabulary : Handler := fun r =>
  setError [] ;;
  if busy r then skip
  else
    setConversation (append {| role := User; text := Text.vocabMarker |}) ;;
    setConversation (append {| role := Model; text := Text.vocabQuestion |}) ;;
    speakMessage Text.vocabQuestion ;;
    setAwaitingFeatureInput (Some Vocab).

Definition rephraseSentence : Handler := fun r =>
  setError [] ;;
  if busy r then skip
  else
    setConversation (append {| role := User; text := Text.rephraseMarker |}) ;;
    setConversation (append {| role := Model; text := Text.rephraseQuestion |}) ;;
    speakMessage Text.rephraseQuestion ;;
    setAwaitingFeatureInput (Some Rephrase).

Definition startRolePlay : Handler := fun r =>
  setError [] ;;
  if busy r then skip
  else
    setConversation (append {| role := User; text := Text.rolePlayMarker |}) ;;
    sendPromptToGemini r Text.rolePlayPrompt.

Definition clearConversation : Handler := fun r =>
  setConversation (fun _ => [Said greetingTurn]) ;;
  setError [] ;;
  setAwaitingFeatureInput None ;;
  stopSpeaking ;;
  stopListening r ;;
  setMessage [].

(** The state after the mount effect, with both engines present. *)
Definition initialState : State :=
  {| conversation := [Said greetingTurn]; message := [];
     isListening := false; isSpeaking := false; isLoading := false;
     error := []; awaitingFeatureInput := None;
     recognitionRef := true; synthRef := true; synthSpeaking := false |}.

(* ================================================================== *)
(** ** Playback of the chunks of one [speakMessage] call *)
(* ================================================================== *)

(** The variables [chunks] and [currentChunkIndex] of the call. *)
Record Playback := { chunks : list jsstring; currentChunkIndex : nat }.

Definition advance (p : Playback) : Playback :=
  {| chunks := chunks p; currentChunkIndex := S (currentChunkIndex p) |}.

(** [speakNext]: the chunk under the cursor, if any, goes to the engine. *)
Definition speakNext (p : Playback) : Action :=
  match nth_error (chunks p) (currentChunkIndex p) with
  | Some c => emit (SynthSpeak c)
  | None => skip
  end.

Definition utteranceOnStart : Action :=
  engineSpeaking true ;; setIsSpeaking true ;; setError [].

(** [onend]; [next] is the call of [speakNext] on the advanced cursor. *)
Definition utteranceOnEnd (next : Playback -> Action) (p : Playback) : Action :=
  engineSpeaking false ;;
  if currentChunkIndex (advance p) <? length (chunks p)
  then next (advance p)
  else setIsSpeaking false.

(** [onerror]; [e] is [event.error.message || event.error]. *)
Definition utteranceOnError (e : jsstring) : Action :=
  engineSpeaking false ;;
  setError (Text.errSynthesis e) ;;
  setIsSpeaking false.

(** What the engine does with one submitted utterance: it fires [start] and
    [end], or it fires [error] (after [start] or without it); [end] and
    [error] exclude each other. *)
Inductive UtteranceOutcome :=
| Spoken
| Failed (started : bool) (e : jsstring).

(** A whole playback against the outcomes of the successive utterances; when
    the outcomes run out the last utterance is still with the engine. *)
Fixpoint play (outcomes : list UtteranceOutcome) (p : Playback) : Action :=
  match nth_error (chunks p) (currentChunkIndex p) with
  | None => skip
  | Some c =>
      emit (SynthSpeak c) ;;
      match outcomes with
      | [] => skip
      | Spoken :: rest => utteranceOnStart ;; utteranceOnEnd (play rest) p
      | Failed started e :: _ =>
          (if started then utteranceOnStart else skip) ;; utteranceOnError e
      end
  end.

Definition isSynthSpeak (c : Command) : bool :=
  match c with SynthSpeak _ => true | _ => false end.

Definition isCancel (c : Command) : bool :=
  match c with SynthCancel => true | _ => false end.

Definition isStart (c : Command) : bool :=
  match c with RecognitionStart => true | _ => false end.

Definition isFetch (c : Command) : bool :=
  match c with Fetch _ => true | _ => false end.

Definition isPlayback (c : Command) : bool :=
  match c with SchedulePlayback _ | SynthSpeak _ => true | _ => false end.

(* ================================================================== *)
(** ** The component with its collaborators: events and reachable states *)
(* ================================================================== *)

(** A recognition session delivers at most one result or error and then its
    end, to the callbacks of the object that was started: those of the
    render [r] at which the effect created that object. *)
Inductive Session :=
| NoSession
| Capturing (r : State)
| Closing (r : State).

(** [memo] is the render at which the memoised [sendMessage] and the
    recognition object in [recognitionRef.current] were last created.  The
    dependency lists of [sendMessage] (line 625) and of the effect
    (line 725) name [isLoading], [awaitingFeatureInput] and [conversation],
    not [message]. *)
Record World := {
  app : State;
  memo : State;
  session : Session;
  pendingFetches : nat
}.

Inductive Event :=
| Typing (t : jsstring)           (* [onChange] of the input *)
| PressEnter
| ClickSend
| ClickStartSpeaking
| ClickStopTeacher
| ClickPronunciationTips
| ClickVocabulary
| ClickRephrase
| ClickRolePlay
| ClickClear
| RecognitionResult (transcript : jsstring)
| RecognitionError (e : jsstring)
| RecognitionEnd
| FetchSettles (outcome : FetchOutcome).

Definition activity (s : State) : bool :=
  isLoading s || isListening s || isSpeaking s.

(** [msg => msg.role === 'user' && msg.text !== 'Listening...'], the test
    of the tips button. *)
Definition countsForTips (msg : Entry) : bool :=
  match msg with
  | Said turn => roleEqb (role turn) User
  | Textless => false
  end
  && notListening msg.

(** The [disabled] attribute of each control, negated; collaborator events
    need a session or a pending request. *)
Definition enabled (e : Event) (w : World) : bool :=
  let s := app w in
  match e with
  | Typing _ | PressEnter | ClickClear => negb (activity s)
  | ClickSend => negb (negb (truthy (trim (message s))) || activity s)
  | ClickStartSpeaking | ClickVocabulary | ClickRephrase | ClickRolePlay =>
      negb (busy s)
  | ClickStopTeacher => negb (negb (isSpeaking s) || isLoading s)
  | ClickPronunciationTips =>
      negb (busy s
            || (length (filter countsForTips (conversation s)) =? 0))
  | RecognitionResult _ | RecognitionError _ =>
      match session w with Capturing _ => true | _ => false end
  | RecognitionEnd =>
      match session w with NoSession => false | _ => true end
  | FetchSettles _ => 0 <? pendingFetches w
  end.

(** The render whose callbacks the session in progress runs. *)
Definition sessionRender (w : World) : State :=
  match session w with
  | Capturing r | Closing r => r
  | NoSession => memo w
  end.

(** The handler of an event with the render it reads.  The input and the
    button hand the text on screen to the memoised [sendMessage];
    [startListening] and [stopListening] are memoised on [isListening], the
    only cell they read, so they are those of the latest render, as the
    plain functions are; the recognition callbacks are those of the started
    object.  [start()] is taken to throw while the engine has not delivered
    the end of an earlier session. *)
Definition handlerOf (e : Event) (w : World) : Action :=
  match e with
  | Typing t => setMessage t
  | PressEnter | ClickSend =>
      reading (fun now => sendMessage (message now) (memo w))
  | ClickStartSpeaking =>
      invoke (startListening match session w with NoSession => true | _ => false end)
  | ClickStopTeacher => stopSpeaking
  | ClickPronunciationTips => invoke getPronunciationTips
  | ClickVocabulary => invoke getBritishVocabulary
  | ClickRephrase => invoke rephraseSentence
  | ClickRolePlay => invoke startRolePlay
  | ClickClear => invoke clearConversation
  | RecognitionResult transcript =>
      recognitionOnResult transcript (sessionRender w)
  | RecognitionError e => recognitionOnError e (sessionRender w)
  | RecognitionEnd => recognitionOnEnd (sessionRender w)
  | FetchSettles outcome => fetchSettled outcome
  end.

(** Whether the handler passes an array to [setConversation].  Every such
    array is a new object, also when it holds what the old one held; so the
    next render creates [sendMessage] anew and runs the effect again.  The
    handlers change [isLoading] and [awaitingFeatureInput] only together
    with the log. *)
Definition writesLog (e : Event) (w : World) : bool :=
  let s := app w in
  match e with
  | Typing _ | ClickStopTeacher => false
  | PressEnter | ClickSend | ClickClear => true
  | RecognitionResult _ | RecognitionError _ | FetchSettles _ => true
  | ClickStartSpeaking => recognitionRef s && negb (isListening s)
  | ClickPronunciationTips =>
      negb (busy s)
      && match lastUserMessage (conversation s) with
         | Some _ => true
         | None => false
         end
  | ClickVocabulary | ClickRephrase | ClickRolePlay => negb (busy s)
  | RecognitionEnd =>
      negb (truthy (trim (message (sessionRender w))))
      && existsb (textIs Text.listening) (conversation (sessionRender w))
  end.

(** The session after an event.  [start()] acts on the object in
    [recognitionRef.current], which the effect created at the render [memo].
    The clean-up of the effect, which runs when the log was written, calls
    [stop()] on that object: the capture ends early, and the object still
    delivers its result or error and its end. *)
Definition sessionAfter (e : Event) (cmds : list Command) (w : World) : Session :=
  match e with
  | RecognitionResult _ | RecognitionError _ => Closing (sessionRender w)
  | RecognitionEnd => NoSession
  | _ =>
      if existsb isStart cmds then Capturing (memo w) else session w
  end.

(** One run of the effect after the mount: first the clean-up of its last
    run, which stops the recognition object and cancels the speech if the
    engine speaks (no state cell is set), then its body, which creates the
    recognition object anew, or sets the advisory when the browser has none,
    and seeds an empty log with the greeting. *)
Definition effectRun : Action :=
  reading (fun now =>
    (if recognitionRef now then emit RecognitionStop else skip) ;;
    (if synthRef now && synthSpeaking now
     then emit SynthCancel ;; engineSpeaking false
     else skip) ;;
    (if recognitionRef now then skip else setError Text.errUnsupported) ;;
    match conversation now with
    | [] => setConversation (fun _ => [Said greetingTurn])
    | _ :: _ => skip
    end).

(** The effect runs again after a render that wrote the log, and once more
    when it seeded the log itself. *)
Definition effectRerun : Action :=
  reading (fun now =>
    effectRun ;;
    match conversation now with
    | [] => effectRun
    | _ :: _ => skip
    end).

(** One event: the handler runs, its updates are applied together, the
    component renders, and the effect runs again if the log was written. *)
Definition fire (e : Event) (w : World) : option World :=
  if enabled e w then
    let (s', cmds) :=
      (handlerOf e w ;; if writesLog e w then effectRerun else skip) (app w) in
    Some {| app := s';
            memo := if writesLog e w then s' else memo w;
            session := sessionAfter e cmds w;
            pendingFetches :=
              length (filter isFetch cmds)
              + match e with FetchSettles _ => pred (pendingFetches w) | _ => pendingFetches w end |}
  else None.

Fixpoint run (events : list Event) (w : World) : option World :=
  match events with
  | [] => Some w
  | e :: rest => match fire e w with Some w' => run rest w' | None => None end
  end.

Definition initialWorld : World :=
  {| app := initialState; memo := initialState;
     session := NoSession; pendingFetches := 0 |}.

(** States reached from the mounted component by enabled UI events and by
    the callbacks of recognition sessions and pending requests.  The
    callbacks of utterances are not among the events, so these are some of
    the states the component can reach, not all of them. *)
Definition reachable (w : World) : Prop :=
  exists events, run events initialWorld = Some w.

(** At most one of the three activity flags is set. *)
Definition atMostOneActive (s : State) : bool :=
  negb (isListening s && isSpeaking s)
  && negb (isListening s && isLoading s)
  && negb (isSpeaking s && isLoading s).

(* ================================================================== *)
(** ** The earlier revision of the component (word-based chunking) *)
(* ================================================================== *)

Module Earlier.

Definition maxUtteranceLength : nat := 180.

(** [sendMessage]: the advisory is set on every rejection, and speech is not
    stopped. *)
Definition sendMessage (textToSend : jsstring) : Handler := fun r =>
  setConversation (filter notListening) ;;
  let userMessageContent := trim textToSend in
  if negb (truthy userMessageContent) || isLoading r then
    setError Text.errEmptyMessage
  else
    setError [] ;;
    setConversation (append {| role := User; text := userMessageContent |}) ;;
    setMessage [] ;;
    match awaitingFeatureInput r with
    | Some Vocab =>
        setAwaitingFeatureInput None ;;
        setConversation (append {| role := Model; text := Text.ackVocab |}) ;;
        sendPromptToGemini r (Text.vocabPrompt userMessageContent)
    | Some Rephrase =>
        setAwaitingFeatureInput None ;;
        setConversation (append {| role := Model; text := Text.ackRephrase |}) ;;
        sendPromptToGemini r (Text.rephrasePrompt userMessageContent)
    | None =>
        sendPromptToGemini r userMessageContent
    end.

Definition errSynthesis (e : jsstring) : jsstring :=
  js "Speech synthesis error: " ++ e.

Definition utteranceOnStart : Action :=
  engineSpeaking true ;; setIsSpeaking true.

Definition utteranceOnError (e : jsstring) : Action :=
  engineSpeaking false ;;
  setError (errSynthesis e) ;;
  setIsSpeaking false.

(** [speakNextChunk] with the callbacks of its utterance. *)
Fixpoint play (outcomes : list UtteranceOutcome) (p : Playback) : Action :=
  match nth_error (chunks p) (currentChunkIndex p) with
  | None => skip
  | Some c =>
      emit (SynthSpeak c) ;;
      match outcomes with
      | [] => skip
      | Spoken :: rest => utteranceOnStart ;; utteranceOnEnd (play rest) p
      | Failed started e :: _ =>
          (if started then utteranceOnStart else skip) ;; utteranceOnError e
      end
  end.

End Earlier.

(* ================================================================== *)
(** ** The first revision: markers compared by equality only *)
(* ================================================================== *)

Module First.

(** The marker prefix as that revision spells it (three code units). *)
Definition markerPrefix : jsstring := [226%N; 339%N; 168%N].

Definition vocabMarker : jsstring :=
  markerPrefix ++ js " I'd like some British vocabulary/idioms.".
Definition rephraseMarker : jsstring :=
  markerPrefix ++ js " I'd like a sentence rephrased in British English.".
Definition rolePlayMarker : jsstring :=
  markerPrefix ++ js " Starting a new role-play scenario...".
Definition tipsMarkerStem : jsstring :=
  markerPrefix ++ js " Requested pronunciation tips for:".
Definition tipsMarker (lastText : jsstring) : jsstring :=
  tipsMarkerStem ++ js " " ++ [dquote] ++ lastText ++ [dquote].

(** The filter inside [chatHistory]: five inequalities. *)
Definition keptForSubmission (msg : Turn) : bool :=
  negb (JsString.eqb (text msg) Text.listening)
  && negb (JsString.eqb (text msg) vocabMarker)
  && negb (JsString.eqb (text msg) rephraseMarker)
  && negb (JsString.eqb (text msg) tipsMarkerStem)
  && negb (JsString.eqb (text msg) rolePlayMarker).

(** [find(msg => msg.role === 'user' && msg.text !== 'Listening...')] on the
    reversed copy. *)
Definition lastUserMessage (conv : list Entry) : option Turn :=
  match find countsForTips (rev conv) with
  | Some (Said turn) => Some turn
  | _ => None
  end.

End First.

(* ================================================================== *)
(** ** Sample inputs *)
(* ================================================================== *)

Module Sample.

Definition hello : jsstring := js "hello".
Definition food : jsstring := js "food".
Definition paddedFood : jsstring := js "  food ".
Definition spaces : jsstring := js "   ".
Definition sparkledHi : jsstring := sparkles :: js " hi".
Definition iIsGoing : jsstring := js "I is going".
Definition goodMorning : jsstring := js "Good morning".
Definition threeSentences : jsstring := js "Hello there. How are you?  Fine!".

Definition userTurn (t : jsstring) : Turn := {| role := User; text := t |}.
Definition modelTurn (t : jsstring) : Turn := {| role := Model; text := t |}.

(** The component right after [getBritishVocabulary] resp. [rephraseSentence]
    ran on the mounted state. *)
Definition afterVocabulary : State := fst (invoke getBritishVocabulary initialState).
Definition afterRephrase : State := fst (invoke rephraseSentence initialState).

(** A log that still holds the placeholder of a listening session. *)
Definition withPlaceholder : State :=
  fst (setConversation (append (userTurn Text.listening)) initialState).

(** A log with one genuine user Turn and the reply to it. *)
Definition afterOneExchange : State :=
  fst (setConversation
         (fun prev => prev ++ [userTurn goodMorning; modelTurn hello])
         initialState).

(** The log of one exchange, followed by the marker of a role-play, the
    reply to it and the placeholder of a listening session. *)
Definition afterMarkers : State :=
  fst (setConversation
         (fun prev => prev ++ [userTurn goodMorning; modelTurn hello;
                               userTurn Text.rolePlayMarker; modelTurn hello;
                               userTurn Text.listening])
         initialState).

Definition loadingState : State := fst (setIsLoading true initialState).

(** The mounted component in a browser without speech synthesis. *)
Definition noSynthesis : State :=
  {| conversation := [Said greetingTurn]; message := [];
     isListening := false; isSpeaking := false; isLoading := false;
     error := []; awaitingFeatureInput := None;
     recognitionRef := true; synthRef := false; synthSpeaking := false |}.

(** The mounted component while the engine speaks. *)
Definition engineSpeaks : State :=
  fst (setIsSpeaking true (fst (engineSpeaking true initialState))).

(** A response body without candidates and without an error payload. *)
Definition emptyBody : ApiResult := {| candidates := None; apiError := None |}.

(** A response body whose first part holds no text. *)
Definition textlessBody : ApiResult :=
  {| candidates :=
       Some [{| content := Some {| parts := Some [{| partText := None |}] |} |}];
     apiError := None |}.

Definition threeChunks : Playback :=
  {| chunks := [js "one"; js "two"; js "three"]; currentChunkIndex := 0 |}.

End Sample.

(* ================================================================== *)
(** ** The choice of the voice inside [speakMessage] *)
(* ================================================================== *)

Module Voices.

(** What the handlers read of a [SpeechSynthesisVoice]. *)
Record Voice := { voiceName : jsstring; voiceLang : jsstring }.

(** [String.prototype.includes]: the argument occurs at some position. *)
Fixpoint includes (s sub : jsstring) : bool :=
  startsWith s sub
  || match s with [] => false | _ :: s' => includes s' sub end.

Definition enGB : jsstring := js "en-GB".
Definition googleUKEnglish : jsstring := js "Google UK English".

(** [voice.lang === 'en-GB'] and [voice.name.includes('Google UK English')] *)
Definition isBritish (v : Voice) : bool := JsString.eqb (voiceLang v) enGB.
Definition isGoogleUK (v : Voice) : bool := includes (voiceName v) googleUKEnglish.

(** The [for] loop of the current revision, with the variable [britishVoice]
    it updates; [break] ends it at a British voice of the preferred name. *)
Fixpoint selectVoiceFrom (britishVoice : option Voice) (voices : list Voice)
  : option Voice :=
  match voices with
  | [] => britishVoice
  | voice :: rest =>
      if isBritish voice then
        if isGoogleUK voice then Some voice
        else selectVoiceFrom (Some voice) rest
      else selectVoiceFrom britishVoice rest
  end.

Definition selectVoice (voices : list Voice) : option Voice :=
  selectVoiceFrom None voices.

(** The earlier revisions:
    [voices.find(voice => voice.name.includes('Google UK English')
                          || voice.lang === 'en-GB')] *)
Definition findVoice (voices : list Voice) : option Voice :=
  find (fun v => isGoogleUK v || isBritish v) voices.

End Voices.

(* ================================================================== *)
(** ** [speakMessage] of the earlier revision *)
(* ================================================================== *)

Module EarlierSpeech.

(** [if (synth.speaking) synth.cancel()], the chunks by words, and the first
    call of [speakNextChunk], which is not delayed. *)
Definition speakMessage (txt : jsstring) : Action :=
  reading (fun now =>
    (if synthSpeaking now then emit SynthCancel ;; engineSpeaking false
     else skip) ;;
    speakNext {| chunks := chunkWords txt Earlier.maxUtteranceLength;
                 currentChunkIndex := 0 |}).

End EarlierSpeech.

(* ================================================================== *)
(** ** [sendMessage] of the first revision *)
(* ================================================================== *)

Module FirstSend.

(** The filter of this revision compares texts only, so it does not throw:
    an entry without text passes it and is sent as a part without text. *)
Definition kept (msg : Entry) : bool :=
  match msg with
  | Said turn => First.keptForSubmission turn
  | Textless => true
  end.

Definition contentOf (msg : Entry) : Content :=
  match msg with
  | Said turn => toContent turn
  | Textless => {| contentRole := Model; contentText := NoText |}
  end.

Definition chatHistory (conv : list Entry) (promptContent : jsstring)
  : list Content :=
  [{| contentRole := User; contentText := Text.initialPrompt |}]
  ++ map contentOf (filter kept conv)
  ++ [{| contentRole := User; contentText := promptContent |}].

Definition sendPromptToGemini (r : State) (promptContent : jsstring) : Action :=
  setIsLoading true ;;
  emit (Fetch (chatHistory (conversation r) promptContent)).

(** The text is tested trimmed and used as it is; the placeholder is removed
    in the update that appends the user Turn. *)
Definition sendMessage (textToSend : jsstring) : Handler := fun r =>
  if negb (truthy (trim textToSend)) || isLoading r then skip
  else
    setError [] ;;
    setConversation
      (fun prev => filter notListening prev
                   ++ [{| role := User; text := textToSend |}]) ;;
    setMessage [] ;;
    match awaitingFeatureInput r with
    | Some Vocab =>
        setAwaitingFeatureInput None ;;
        setConversation (append {| role := Model; text := Text.ackVocab |}) ;;
        sendPromptToGemini r (Text.vocabPrompt textToSend)
    | Some Rephrase =>
        setAwaitingFeatureInput None ;;
        setConversation (append {| role := Model; text := Text.ackRephrase |}) ;;
        sendPromptToGemini r (Text.rephrasePrompt textToSend)
    | None =>
        sendPromptToGemini r textToSend
    end.

Definition errRecognitionStart : jsstring :=
  js "Failed to start speech recognition. Please check microphone permissions.".

(** No speech is stopped and the input field is kept; the placeholder is
    appended once [start()] has returned. *)
Definition startListening (startOk : bool) : Handler := fun r =>
  reading (fun now =>
    if recognitionRef now && negb (isListening r) then
      setError [] ;;
      (if startOk then
         emit RecognitionStart ;;
         setIsListening true ;;
         setConversation (append {| role := User; text := Text.listening |})
       else
         setError errRecognitionStart ;;
         setIsListening false)
    else setError Text.errRecognitionUnavailable).

(** The callbacks of the recognition object.  The effect that creates them
    has an empty dependency list: [stopListening] and [sendMessage] are
    those of the render [r] at which it ran. *)
Definition recognitionOnResult (transcript : jsstring) : Handler := fun r =>
  setMessage transcript ;;
  stopListening r ;;
  sendMessage transcript r.

Definition recognitionOnEnd : Action := setIsListening false.

Definition recognitionOnError (e : jsstring) : Action :=
  setError (Text.errRecognition e) ;;
  setIsListening false.

(** The cells as [useState] initialises them: the render at which the
    effect of the mount runs. *)
Definition firstRender : State :=
  {| conversation := []; message := [];
     isListening := false; isSpeaking := false; isLoading := false;
     error := []; awaitingFeatureInput := None;
     recognitionRef := false; synthRef := false; synthSpeaking := false |}.

End FirstSend.

(* ================================================================== *)
(** ** Notions used to state properties of the handlers *)
(* ================================================================== *)

(** The marker Turns, as the component inserts them: the listening
    placeholder and the four feature initiation markers are Turns of the
    user, the two feature acknowledgements are Turns of the model. *)
Definition markerTurn (t : Turn) : Prop :=
  (role t = User
   /\ (text t = Text.listening
       \/ (exists quoted, text t = Text.tipsMarker quoted)
       \/ text t = Text.vocabMarker
       \/ text t = Text.rephraseMarker
       \/ text t = Text.rolePlayMarker))
  \/ (role t = Model
      /\ (text t = Text.ackVocab \/ text t = Text.ackRephrase)).

Definition nonMarkerUserTurn (t : Turn) : Prop :=
  role t = User /\ ~ markerTurn t.

(** The log begins with the greeting of the mount effect. *)
Definition headedByGreeting (conv : list Entry) : Prop :=
  exists rest, conv = greetingTurn :: rest.


(** The running chunk as a list: nothing while it is empty. *)
Definition runningChunk (cur : jsstring) : list jsstring :=
  if truthy cur then [cur] else [].

(** An action that keeps a property of the log. *)
Definition keepsLog (P : list Entry -> Prop) (a : Action) : Prop :=
  forall s, P (conversation s) -> P (conversation (fst (a s))).

(** An action that keeps the greeting at the head of the log. *)
Definition keepsGreeting (a : Action) : Prop := keepsLog headedByGreeting a.


(** What the settlement of a request appends to the log: the connection
    apology, the reply, or, for a text that is no string, a Turn without text
    and then, if there is a synthesis object, the connection apology. *)
Definition replyEntries (outcome : FetchOutcome) (synth : bool) : list Entry :=
  match outcome with
  | Threw => [Said {| role := Model; text := Text.connectionApology |}]
  | Returned result =>
      match aiResponseText result with
      | Some t => [Said {| role := Model; text := t |}]
      | None =>
          Textless
          :: (if synth
              then [Said {| role := Model; text := Text.connectionApology |}]
              else [])
      end
  end.

(** The response body carries a text that is a string, or none at all. *)
Definition stringReply (outcome : FetchOutcome) : bool :=
  match outcome with
  | Threw => true
  | Returned result =>
      match aiResponseText result with Some _ => true | None => false end
  end.



(** The component is loading and no request is pending; [sendMessage] was
    created at a loading render, and no session captures. *)
Definition blocked (w : World) : Prop :=
  isLoading (app w) = true
  /\ pendingFetches w = 0
  /\ isLoading (memo w) = true
  /\ match session w with Capturing _ => False | _ => True end.

(** The events whose settlement, if they are one, brings a text. *)
Definition settlesWithText (e : Event) : bool :=
  match e with FetchSettles outcome => stringReply outcome | _ => true end.


(** Two British voices, the second of the preferred name; and a component
    whose only user Turn is the role-play marker. *)
Module Fixture.

Definition plainVoice : Voices.Voice :=
  {| Voices.voiceName := js "Daniel"; Voices.voiceLang := js "en-GB" |}.

Definition googleVoice : Voices.Voice :=
  {| Voices.voiceName := js "Google UK English Female";
     Voices.voiceLang := js "en-GB" |}.

Definition afterRolePlayMarker : World :=
  {| app := fst (setConversation
                   (append {| role := User; text := Text.rolePlayMarker |})
                   initialState);
     memo := fst (setConversation
                    (append {| role := User; text := Text.rolePlayMarker |})
                    initialState);
     session := NoSession; pendingFetches := 0 |}.

(** A response body with one candidate whose text has three sentences. *)
Definition threeSentenceReply : ApiResult :=
  {| candidates :=
       Some [{| content :=
                  Some {| parts := Some [{| partText := Some Sample.threeSentences |}] |} |}];
     apiError := None |}.

End Fixture.

(** The request that [sendPromptToGemini] sends for the log of its closure:
    none when the filter throws. *)
Definition requestOf (conv : list Entry) (promptContent : jsstring)
  : list Command :=
  match turnsOf conv with
  | Some turns => [Fetch (chatHistory turns promptContent)]
  | None => []
  end.

(** The placeholder Turn of a listening session. *)
Definition placeholderTurn : Turn := {| role := User; text := Text.listening |}.

(** The acknowledgement Turn that [sendMessage] appends in a feature mode. *)
Definition acknowledgement (mode : option Feature) : list Entry :=
  match mode with
  | Some Vocab => [{| role := Model; text := Text.ackVocab |}]
  | Some Rephrase => [{| role := Model; text := Text.ackRephrase |}]
  | None => []
  end.

(** The prompt that [sendMessage] builds from the trimmed text. *)
Definition promptFor (mode : option Feature) (userMessageContent : jsstring)
  : jsstring :=
  match mode with
  | Some Vocab => Text.vocabPrompt userMessageContent
  | Some Rephrase => Text.rephrasePrompt userMessageContent
  | None => userMessageContent
  end.

(* ================================================================== *)
(** ** Handlers with the render they were created at *)
(* ================================================================== *)

(** [sendMessage], [startListening] and [stopListening] are memoised with
    dependency lists, and the callbacks of the recognition object are created
    by an effect with one; [message] is in none of the lists.  So the render
    whose state cells such a function reads need not be the one on screen.
    [handlerIn e startOk r] is the handler of [e] as created at a render with
    state [r]; the input field hands the text on screen to [sendMessage].
    [startOk] tells whether [start()] returns. *)
Definition handlerIn (e : Event) (startOk : bool) (r : State) : Action :=
  match e with
  | Typing t => setMessage t
  | PressEnter | ClickSend => reading (fun now => sendMessage (message now) r)
  | ClickStartSpeaking => startListening startOk r
  | ClickStopTeacher => stopSpeaking
  | ClickPronunciationTips => getPronunciationTips r
  | ClickVocabulary => getBritishVocabulary r
  | ClickRephrase => rephraseSentence r
  | ClickRolePlay => startRolePlay r
  | ClickClear => clearConversation r
  | RecognitionResult transcript => recognitionOnResult transcript r
  | RecognitionError e => recognitionOnError e r
  | RecognitionEnd => recognitionOnEnd r
  | FetchSettles outcome => fetchSettled outcome
  end.


(** What can happen to the component: a handler runs, or a callback of an
    utterance does. *)
Inductive Occurrence :=
| Handles (e : Event) (startOk : bool) (r : State)
| UtteranceStarts
| UtteranceEnds (p : Playback)
| UtteranceFails (e : jsstring).

Definition occur (o : Occurrence) : Action :=
  match o with
  | Handles e startOk r => handlerIn e startOk r
  | UtteranceStarts => utteranceOnStart
  | UtteranceEnds p => utteranceOnEnd speakNext p
  | UtteranceFails e => utteranceOnError e
  end.

(** Occurrences one after the other, in any order and with any closures. *)
Fixpoint occurAll (os : list Occurrence) : Action :=
  match os with
  | [] => skip
  | o :: rest => occur o ;; occurAll rest
  end.





(** The test of the end callback of the recognition object on its closure:
    the input field is blank and the log holds a placeholder. *)
Definition sawNoSpeech (r : State) : bool :=
  negb (truthy (trim (message r)))
  && existsb (textIs Text.listening) (conversation r).

(** Some occurrences for the examples: a text is typed and sent, the handler
    of the button being that of the mount; and the state after the typing. *)
Module Occurrences.


Definition sessionThenSpeech : list Occurrence :=
  [Handles ClickStartSpeaking true initialState;
   Handles (RecognitionResult Sample.hello) true initialState;
   Handles RecognitionEnd true initialState;
   Handles (FetchSettles (Returned Fixture.threeSentenceReply)) true initialState;
   UtteranceStarts;
   UtteranceEnds {| chunks := chunk Sample.threeSentences maxUtteranceLength;
                    currentChunkIndex := 0 |}].

(** "hello" is typed and sent, the response body holds a first part
    without a text, and "hello" is typed and sent again. *)
Definition afterTextlessReply : list Event :=
  [Typing Sample.hello; ClickSend;
   FetchSettles (Returned Sample.textlessBody);
   Typing Sample.hello; ClickSend].

Definition blankTyped : World :=
  {| app := fst (setMessage (js "   ") initialState);
     memo := initialState;
     session := NoSession; pendingFetches := 0 |}.

End Occurrences.

(* ================================================================== *)
(** * The definitions on small inputs *)
(* ================================================================== *)

Example split_sentence_break :
  split reSentenceBreak (js "a?  b. c") = [js "a?"; js "b."; js "c"].
Proof. reflexivity. Qed.

Example split_trailing_separator :
  split reSentenceBreak (js "a?  ") = [js "a?"; []].
Proof. reflexivity. Qed.

Example split_empty : split reWhitespace [] = [[]].
Proof. reflexivity. Qed.

Example split_leading_space :
  split reWhitespace (js " a  b") = [[]; js "a"; js "b"].
Proof. reflexivity. Qed.

Example trim_both_ends : trim (js "  food ") = js "food".
Proof. reflexivity. Qed.

Example chunk_three_sentences :
  chunk Sample.threeSentences 14
  = [js "Hello there."; js "How are you?"; js "Fine!"].
Proof. vm_compute. reflexivity. Qed.

Example chunk_packs_sentences :
  chunk Sample.threeSentences 25 = [js "Hello there. How are you?"; js "Fine!"].
Proof. vm_compute. reflexivity. Qed.

Example chunk_long_sentence_whole :
  chunk Sample.threeSentences 5
  = [js "Hello there."; js "How are you?"; js "Fine!"].
Proof. vm_compute. reflexivity. Qed.

Example chunkWords_three_sentences :
  chunkWords Sample.threeSentences 14
  = [js "Hello there."; js "How are you?"; js "Fine!"].
Proof. vm_compute. reflexivity. Qed.

Example chunkWords_small_maximum :
  chunkWords Sample.threeSentences 5
  = [js "Hello"; js "there."; js "How"; js "are"; js "you?"; js "Fine!"].
Proof. vm_compute. reflexivity. Qed.

Example wordSequence_three_sentences :
  wordSequence Sample.threeSentences
  = [js "Hello"; js "there."; js "How"; js "are"; js "you?"; js "Fine!"].
Proof. vm_compute. reflexivity. Qed.

Example good_morning_enters_loading :
  let r := invoke (sendMessage Sample.goodMorning) initialState in
  conversation (fst r) = [greetingTurn; Sample.userTurn Sample.goodMorning]
  /\ isLoading (fst r) = true
  /\ snd r = [Fetch (chatHistory [greetingTurn] Sample.goodMorning)].
Proof. vm_compute. repeat split. Qed.

Example clear_twice :
  conversation (fst (invoke clearConversation
                       (fst (invoke clearConversation Sample.afterOneExchange))))
  = [greetingTurn].
Proof. reflexivity. Qed.

(* ================================================================== *)
(** * Facts about strings *)
(* ================================================================== *)

Module JsStringFacts.

Lemma eqb_eq (a b : jsstring) : JsString.eqb a b = true <-> a = b.
Proof.
  revert b; induction a as [|x a IH]; intros [|y b]; simpl; split;
    try congruence; try reflexivity.
  - rewrite andb_true_iff, N.eqb_eq, IH. intros [-> ->]; reflexivity.
  - intros [= -> ->]. rewrite N.eqb_refl. simpl. apply IH. reflexivity.
Qed.

Lemma eqb_refl (a : jsstring) : JsString.eqb a a = true.
Proof. apply eqb_eq; reflexivity. Qed.

Lemma eqb_neq (a b : jsstring) : JsString.eqb a b = false <-> a <> b.
Proof.
  rewrite <- eqb_eq. destruct (JsString.eqb a b); split; congruence.
Qed.

Lemma startsWith_app (p s : jsstring) : startsWith (p ++ s) p = true.
Proof.
  induction p as [|c p IH]; simpl; [reflexivity|].
  rewrite N.eqb_refl. exact IH.
Qed.

Lemma trimStart_blank (s : jsstring) : blank s = true -> trimStart s = [].
Proof.
  induction s as [|c s IH]; simpl; [reflexivity|].
  destruct (isWhiteSpace c); simpl; [exact IH | discriminate].
Qed.

Lemma trimStart_head (s : jsstring) :
  trimStart s = [] \/ headNonWs (trimStart s) = true.
Proof.
  induction s as [|c s IH]; simpl; [left; reflexivity|].
  destruct (isWhiteSpace c) eqn:E; [exact IH|].
  right. simpl. rewrite E. reflexivity.
Qed.

Lemma trimStart_nil_blank (s : jsstring) : trimStart s = [] -> blank s = true.
Proof.
  induction s as [|c s IH]; simpl; [reflexivity|].
  destruct (isWhiteSpace c); simpl; [exact IH | discriminate].
Qed.

(** [trimStart] removes a blank prefix and nothing else. *)
Lemma trimStart_split (s : jsstring) :
  exists w, blank w = true /\ s = w ++ trimStart s.
Proof.
  induction s as [|c s [w [Hw Hs]]]; simpl.
  - exists []. split; reflexivity.
  - destruct (isWhiteSpace c) eqn:E.
    + exists (c :: w). simpl. rewrite E, Hw. split; [reflexivity|].
      f_equal. exact Hs.
    + exists []. split; reflexivity.
Qed.

Lemma trimStart_fixed (s : jsstring) : headNonWs s = true -> trimStart s = s.
Proof.
  destruct s as [|c s]; simpl; [discriminate|].
  destruct (isWhiteSpace c); simpl; [discriminate | reflexivity].
Qed.

Lemma trimStart_app (a b : jsstring) :
  headNonWs b = true -> trimStart (a ++ b) = trimStart a ++ b.
Proof.
  intros Hb. induction a as [|c a IH]; simpl.
  - apply trimStart_fixed; exact Hb.
  - destruct (isWhiteSpace c); [exact IH | reflexivity].
Qed.

Lemma blank_app (a b : jsstring) : blank (a ++ b) = blank a && blank b.
Proof. apply forallb_app. Qed.

Lemma blank_rev (a : jsstring) : blank (rev a) = blank a.
Proof.
  induction a as [|c a IH]; simpl; [reflexivity|].
  rewrite blank_app, IH. simpl. rewrite andb_true_r. apply andb_comm.
Qed.

Lemma trimEnd_split (s : jsstring) :
  exists w, blank w = true /\ s = trimEnd s ++ w.
Proof.
  destruct (trimStart_split (rev s)) as [w [Hw Hs]].
  exists (rev w). split.
  - rewrite blank_rev; exact Hw.
  - unfold trimEnd. rewrite <- rev_app_distr, <- Hs, rev_involutive. reflexivity.
Qed.

Lemma trimEnd_fixed (s : jsstring) : lastNonWs s = true -> trimEnd s = s.
Proof.
  intros H. unfold trimEnd. rewrite trimStart_fixed by exact H.
  apply rev_involutive.
Qed.

Lemma lastNonWs_app (a b : jsstring) :
  lastNonWs b = true -> lastNonWs (a ++ b) = true.
Proof.
  unfold lastNonWs. rewrite rev_app_distr.
  destruct (rev b) as [|c t]; simpl; [discriminate | intros H; exact H].
Qed.

Lemma headNonWs_app (a b : jsstring) :
  headNonWs a = true -> headNonWs (a ++ b) = true.
Proof. destruct a; simpl; [discriminate | intros H; exact H]. Qed.

Lemma trim_blank (s : jsstring) : blank s = true -> trim s = [].
Proof. intros H. unfold trim. rewrite trimStart_blank by exact H. reflexivity. Qed.

Lemma trim_nil_blank (s : jsstring) : trim s = [] -> blank s = true.
Proof.
  unfold trim, trimEnd. intros H.
  apply (f_equal (@rev codeunit)) in H. rewrite rev_involutive in H. simpl in H.
  apply trimStart_nil_blank in H. rewrite blank_rev in H.
  destruct (trimStart_head s) as [E|E].
  - apply trimStart_nil_blank; exact E.
  - destruct (trimStart s) as [|c t]; [discriminate|].
    simpl in E, H. destruct (isWhiteSpace c); discriminate.
Qed.

Lemma trim_fixed (s : jsstring) :
  headNonWs s = true -> lastNonWs s = true -> trim s = s.
Proof.
  intros Hh Hl. unfold trim. rewrite trimStart_fixed by exact Hh.
  apply trimEnd_fixed; exact Hl.
Qed.

(** A trimmed, non-empty string starts and ends with code units that are
    not white space. *)
Lemma trim_ends (s : jsstring) :
  trim s <> [] -> headNonWs (trim s) = true /\ lastNonWs (trim s) = true.
Proof.
  intros Hne. unfold trim in *.
  destruct (trimStart_head s) as [E|Hh].
  - rewrite E in Hne. exfalso. apply Hne. reflexivity.
  - set (t := trimStart s) in *.
    destruct (trimStart_head (rev t)) as [E|Hu].
    + exfalso. apply Hne. unfold trimEnd. rewrite E. reflexivity.
    + split.
      * destruct (trimEnd_split t) as [w [_ Ht]].
        destruct (trimEnd t) as [|c u] eqn:Eu.
        { exfalso. apply Hne. reflexivity. }
        rewrite Ht in Hh. simpl in Hh. simpl. exact Hh.
      * unfold lastNonWs, trimEnd. rewrite rev_involutive. exact Hu.
Qed.

Lemma trim_idempotent (s : jsstring) : trim (trim s) = trim s.
Proof.
  destruct (trim s) as [|c t] eqn:E; [reflexivity|].
  rewrite <- E.
  destruct (trim_ends s) as [Hh Hl]; [rewrite E; discriminate|].
  apply trim_fixed; assumption.
Qed.

Lemma truthy_iff (s : jsstring) : truthy s = true <-> s <> [].
Proof. destruct s; simpl; split; congruence. Qed.

Lemma trim_ws_cons (c : codeunit) (s : jsstring) :
  isWhiteSpace c = true -> trim (c :: s) = trim s.
Proof. intros H. unfold trim. simpl. rewrite H. reflexivity. Qed.

(** Joining a string to a trimmed non-empty one: only the left part loses
    leading white space. *)
Lemma trim_app_right (a b : jsstring) :
  headNonWs b = true -> lastNonWs b = true ->
  trim (a ++ b) = trimStart a ++ b.
Proof.
  intros Hh Hl. unfold trim. rewrite trimStart_app by exact Hh.
  apply trimEnd_fixed. apply lastNonWs_app; exact Hl.
Qed.

Lemma isWhiteSpace_space : isWhiteSpace space = true.
Proof. reflexivity. Qed.

End JsStringFacts.

Import JsStringFacts.

(* ================================================================== *)
(** * Facts about [split] *)
(* ================================================================== *)

Section SplitFacts.

Variable m : matcher.

(** Every piece is cut out of the input: a blank input gives blank pieces. *)
Lemma splitFrom_blank (rest : jsstring) :
  forall skip prev piece,
    blank piece = true -> blank rest = true ->
    Forall (fun p => blank p = true) (splitFrom m skip prev piece rest).
Proof.
  induction rest as [|c rest IH]; intros skip prev piece Hp Hr; simpl.
  - constructor; [exact Hp | constructor].
  - simpl in Hr. apply andb_true_iff in Hr as [Hc Hr].
    destruct skip as [|k]; [|apply IH; assumption].
    destruct (m prev (c :: rest)) as [[|k]|].
    + apply IH; [|exact Hr]. rewrite blank_app, Hp. simpl. rewrite Hc. reflexivity.
    + constructor; [exact Hp|]. apply IH; [reflexivity | exact Hr].
    + apply IH; [|exact Hr]. rewrite blank_app, Hp. simpl. rewrite Hc. reflexivity.
Qed.

End SplitFacts.

Lemma runLength_firstn (p : codeunit -> bool) (s : jsstring) :
  forallb p (firstn (runLength p s) s) = true.
Proof.
  induction s as [|c s IH]; simpl; [reflexivity|].
  destruct (p c) eqn:E; simpl; [rewrite E; exact IH | reflexivity].
Qed.

Lemma isLineFeed_isWhiteSpace (c : codeunit) :
  isLineFeed c = true -> isWhiteSpace c = true.
Proof.
  unfold isLineFeed. intros H. apply N.eqb_eq in H. subst c. reflexivity.
Qed.

Lemma reWhitespace_separates : separatesAtWhiteSpace reWhitespace.
Proof.
  intros prev rest n. unfold reWhitespace.
  destruct (runLength isWhiteSpace rest) eqn:E; [discriminate|].
  intros [= <-]. rewrite <- E. apply runLength_firstn.
Qed.

Lemma reSentenceBreak_separates : separatesAtWhiteSpace reSentenceBreak.
Proof.
  intros prev rest n. unfold reSentenceBreak.
  destruct (match prev with Some c => isSentenceEnd c | None => false end).
  - destruct (runLength isWhiteSpace rest) eqn:E.
    + destruct (runLength isLineFeed rest) eqn:E'; [discriminate|].
      intros [= <-]. rewrite <- E'.
      unfold blank. rewrite forallb_forall. intros x Hx.
      apply isLineFeed_isWhiteSpace.
      pose proof (runLength_firstn isLineFeed rest) as H.
      rewrite forallb_forall in H. apply H; exact Hx.
    + intros [= <-]. rewrite <- E. apply runLength_firstn.
  - destruct (runLength isLineFeed rest) eqn:E'; [discriminate|].
    intros [= <-]. rewrite <- E'.
    unfold blank. rewrite forallb_forall. intros x Hx.
    apply isLineFeed_isWhiteSpace.
    pose proof (runLength_firstn isLineFeed rest) as H.
    rewrite forallb_forall in H. apply H; exact Hx.
Qed.

(* ================================================================== *)
(** * Facts about the word sequence *)
(* ================================================================== *)

Lemma closeWord_app (word : jsstring) (l : list jsstring) :
  closeWord word l = closeWord word [] ++ l.
Proof. destruct word; reflexivity. Qed.

Lemma wordsFrom_blank (w : jsstring) :
  blank w = true -> forall word, wordsFrom word w = closeWord word [].
Proof.
  induction w as [|c w IH]; intros H word; simpl; [reflexivity|].
  simpl in H. apply andb_true_iff in H as [Hc Hw]. rewrite Hc.
  rewrite (IH Hw []). reflexivity.
Qed.

(** White space between two parts separates their words. *)
Lemma wordsFrom_app_ws (a b : jsstring) (c : codeunit) :
  isWhiteSpace c = true ->
  forall word, wordsFrom word (a ++ c :: b) = wordsFrom word a ++ wordSequence b.
Proof.
  intros Hc. induction a as [|x a IH]; intros word; simpl.
  - rewrite Hc. apply closeWord_app.
  - destruct (isWhiteSpace x).
    + rewrite IH. rewrite (closeWord_app word (wordsFrom [] a)).
      rewrite closeWord_app. rewrite app_assoc. reflexivity.
    + apply IH.
Qed.

Lemma wordSequence_app_ws (a b : jsstring) (c : codeunit) :
  isWhiteSpace c = true ->
  wordSequence (a ++ c :: b) = wordSequence a ++ wordSequence b.
Proof. intros H. apply wordsFrom_app_ws; exact H. Qed.

Lemma wordSequence_ws_cons (c : codeunit) (s : jsstring) :
  isWhiteSpace c = true -> wordSequence (c :: s) = wordSequence s.
Proof. intros H. unfold wordSequence. simpl. rewrite H. reflexivity. Qed.

Lemma wordSequence_blank (w : jsstring) : blank w = true -> wordSequence w = [].
Proof. intros H. apply (wordsFrom_blank w H []). Qed.

Lemma wordSequence_blank_app (w s : jsstring) :
  blank w = true -> wordSequence (w ++ s) = wordSequence s.
Proof.
  induction w as [|c w IH]; intros H; simpl; [reflexivity|].
  simpl in H. apply andb_true_iff in H as [Hc Hw].
  rewrite wordSequence_ws_cons by exact Hc. apply IH; exact Hw.
Qed.

Lemma wordsFrom_app_blank (s w : jsstring) :
  blank w = true -> forall word, wordsFrom word (s ++ w) = wordsFrom word s.
Proof.
  intros Hw. induction s as [|c s IH]; intros word; simpl.
  - apply wordsFrom_blank; exact Hw.
  - destruct (isWhiteSpace c); [rewrite IH; reflexivity | apply IH].
Qed.

Lemma wordSequence_trimStart (s : jsstring) :
  wordSequence (trimStart s) = wordSequence s.
Proof.
  destruct (trimStart_split s) as [w [Hw Hs]].
  rewrite <- (wordSequence_blank_app w (trimStart s) Hw), <- Hs. reflexivity.
Qed.

Lemma wordSequence_trimEnd (s : jsstring) :
  wordSequence (trimEnd s) = wordSequence s.
Proof.
  destruct (trimEnd_split s) as [w [Hw Hs]].
  unfold wordSequence.
  rewrite <- (wordsFrom_app_blank (trimEnd s) w Hw []), <- Hs. reflexivity.
Qed.

Lemma wordSequence_trim (s : jsstring) : wordSequence (trim s) = wordSequence s.
Proof.
  unfold trim. rewrite wordSequence_trimEnd. apply wordSequence_trimStart.
Qed.


(** Splitting at white space keeps the word sequence: the words of the
    pieces, in order, are the words of the input. *)
Section SplitWords.

Variable m : matcher.
Hypothesis m_ws : separatesAtWhiteSpace m.

Lemma splitFrom_words (rest : jsstring) :
  (forall skip prev, blank (firstn skip rest) = true ->
     wordsOfAll (splitFrom m skip prev [] rest) = wordSequence rest)
  /\ (forall prev piece,
        wordsOfAll (splitFrom m 0 prev piece rest) = wordSequence (piece ++ rest)).
Proof.
  induction rest as [|c rest [IHskip IHscan]].
  - split; intros; unfold wordsOfAll; simpl; rewrite ?app_nil_r; reflexivity.
  - assert (Hscan : forall prev piece,
               wordsOfAll (splitFrom m 0 prev piece (c :: rest))
               = wordSequence (piece ++ c :: rest)).
    { intros prev piece. simpl.
      destruct (m prev (c :: rest)) as [[|k]|] eqn:E.
      - rewrite IHscan, <- app_assoc. reflexivity.
      - apply m_ws in E. simpl in E. apply andb_true_iff in E as [Hc Hk].
        unfold wordsOfAll. simpl. fold (wordsOfAll (splitFrom m k (Some c) [] rest)).
        rewrite (IHskip k (Some c) Hk).
        symmetry. apply wordSequence_app_ws; exact Hc.
      - rewrite IHscan, <- app_assoc. reflexivity. }
    split; [|exact Hscan].
    intros [|k] prev H.
    + apply (Hscan prev []).
    + simpl in H. apply andb_true_iff in H as [Hc Hk]. simpl.
      rewrite (IHskip k (Some c) Hk).
      symmetry. apply wordSequence_ws_cons; exact Hc.
Qed.

Lemma split_words (s : jsstring) : wordsOfAll (split m s) = wordSequence s.
Proof. apply (proj2 (splitFrom_words s) None []). Qed.

End SplitWords.

(** The pieces cut by /\s+/ hold no white space. *)
Lemma splitFrom_reWhitespace_noWs (rest : jsstring) :
  forall skip prev piece,
    noWhiteSpace piece = true ->
    Forall (fun p => noWhiteSpace p = true)
           (splitFrom reWhitespace skip prev piece rest).
Proof.
  induction rest as [|c rest IH]; intros skip prev piece Hp; simpl.
  - constructor; [exact Hp | constructor].
  - destruct skip as [|k]; [|apply IH; exact Hp].
    unfold reWhitespace at 1. simpl.
    destruct (isWhiteSpace c) eqn:E.
    + constructor; [exact Hp|]. apply IH. reflexivity.
    + apply IH. unfold noWhiteSpace in *. rewrite forallb_app, Hp. simpl.
      rewrite E. reflexivity.
Qed.

Lemma noWhiteSpace_trim (s : jsstring) : noWhiteSpace s = true -> trim s = s.
Proof.
  intros H. destruct s as [|c s]; [reflexivity|].
  apply trim_fixed.
  - simpl in *. apply andb_true_iff in H as [H _]. exact H.
  - unfold lastNonWs. unfold noWhiteSpace in H.
    assert (Hr : forallb (fun c => negb (isWhiteSpace c)) (rev (c :: s)) = true).
    { rewrite forallb_forall in *. intros x Hx. apply H. apply in_rev. exact Hx. }
    destruct (rev (c :: s)) as [|d t] eqn:E.
    + apply (f_equal (@length codeunit)) in E. rewrite length_rev in E. discriminate.
    + simpl in *. apply andb_true_iff in Hr as [Hr _]. exact Hr.
Qed.

Lemma wordsOfAll_app (a b : list jsstring) :
  wordsOfAll (a ++ b) = wordsOfAll a ++ wordsOfAll b.
Proof. unfold wordsOfAll. rewrite map_app, concat_app. reflexivity. Qed.

Lemma wordsOfAll_filter_nonblank (l : list jsstring) :
  wordsOfAll (filter (fun s => 0 <? length (trim s)) l) = wordsOfAll l.
Proof.
  induction l as [|x l IH]; [reflexivity|]. simpl.
  destruct (trim x) as [|c t] eqn:E; simpl.
  - change (wordsOfAll (x :: l)) with (wordSequence x ++ wordsOfAll l).
    rewrite <- (wordSequence_trim x), E, IH. reflexivity.
  - change (wordsOfAll (x :: l)) with (wordSequence x ++ wordsOfAll l).
    change (wordsOfAll (x :: ?f)) with (wordSequence x ++ wordsOfAll f).
    unfold wordsOfAll in *. simpl. rewrite IH. reflexivity.
Qed.

Lemma wordSequence_join (l : list jsstring) :
  wordSequence (join [space] l) = wordsOfAll l.
Proof.
  induction l as [|x [|y l] IH].
  - reflexivity.
  - unfold wordsOfAll. simpl. rewrite app_nil_r. reflexivity.
  - change (join [space] (x :: y :: l)) with (x ++ space :: join [space] (y :: l)).
    rewrite wordSequence_app_ws by reflexivity. rewrite IH. reflexivity.
Qed.

Lemma wordsOfAll_pushChunk (chunks : list jsstring) (cur : jsstring) :
  wordsOfAll (pushChunk chunks cur) = wordsOfAll chunks ++ wordSequence cur.
Proof.
  unfold pushChunk. rewrite <- (wordSequence_trim cur).
  destruct (trim cur) as [|c t]; simpl.
  - rewrite app_nil_r. reflexivity.
  - rewrite wordsOfAll_app. unfold wordsOfAll at 2. simpl. rewrite app_nil_r.
    reflexivity.
Qed.

(* ================================================================== *)
(** * The chunker keeps the words of the text *)
(* ================================================================== *)

Lemma chunk_unfold (txt : jsstring) (maxLen : nat) :
  chunk txt maxLen
  = pushChunk (fst (packSegments maxLen (sentenceSegments txt) [] []))
              (snd (packSegments maxLen (sentenceSegments txt) [] [])).
Proof.
  unfold chunk. destruct (packSegments maxLen (sentenceSegments txt) [] []).
  reflexivity.
Qed.

Lemma chunkWords_unfold (txt : jsstring) (maxLen : nat) :
  chunkWords txt maxLen
  = pushChunk (fst (packWords maxLen (split reWhitespace txt) [] []))
              (snd (packWords maxLen (split reWhitespace txt) [] [])).
Proof.
  unfold chunkWords. destruct (packWords maxLen (split reWhitespace txt) [] []).
  reflexivity.
Qed.

Lemma wordsOfAll_cons (x : jsstring) (l : list jsstring) :
  wordsOfAll (x :: l) = wordSequence x ++ wordsOfAll l.
Proof. reflexivity. Qed.

Lemma packSegments_words (maxLen : nat) (segs : list jsstring) :
  forall chunks cur,
    wordsOfAll (pushChunk (fst (packSegments maxLen segs chunks cur))
                          (snd (packSegments maxLen segs chunks cur)))
    = wordsOfAll chunks ++ wordSequence cur ++ wordsOfAll segs.
Proof.
  induction segs as [|s segs IH]; intros chunks cur.
  - simpl. rewrite wordsOfAll_pushChunk. unfold wordsOfAll at 3. simpl.
    rewrite app_nil_r. reflexivity.
  - rewrite wordsOfAll_cons. simpl.
    destruct (length (trim s) =? 0) eqn:E0.
    + rewrite IH. apply Nat.eqb_eq in E0. apply length_zero_iff_nil in E0.
      rewrite <- (wordSequence_trim s), E0. reflexivity.
    + destruct (length (trim (cur ++ space :: trim s)) <=? maxLen).
      * rewrite IH.
        assert (K : wordSequence
                      (cur ++ (if truthy cur then [space] else []) ++ trim s)
                    = wordSequence cur ++ wordSequence s).
        { destruct cur as [|c cur].
          - simpl. change (wordSequence []) with (@nil jsstring).
            simpl. apply wordSequence_trim.
          - change (wordSequence (((c :: cur) ++ space :: trim s))
                    = wordSequence (c :: cur) ++ wordSequence s).
            rewrite wordSequence_app_ws by reflexivity.
            rewrite wordSequence_trim. reflexivity. }
        rewrite K, <- app_assoc. reflexivity.
      * rewrite IH, wordsOfAll_pushChunk, wordSequence_trim, <- app_assoc.
        reflexivity.
Qed.

Lemma packWords_words (maxLen : nat) (words : list jsstring) :
  forall chunks cur,
    wordsOfAll (pushChunk (fst (packWords maxLen words chunks cur))
                          (snd (packWords maxLen words chunks cur)))
    = wordsOfAll chunks ++ wordSequence cur ++ wordsOfAll words.
Proof.
  induction words as [|w words IH]; intros chunks cur.
  - simpl. rewrite wordsOfAll_pushChunk. unfold wordsOfAll at 3. simpl.
    rewrite app_nil_r. reflexivity.
  - rewrite wordsOfAll_cons. simpl.
    destruct (length (trim (cur ++ space :: w)) <=? maxLen).
    + rewrite IH.
      rewrite (wordSequence_app_ws cur w space) by reflexivity.
      rewrite <- app_assoc. reflexivity.
    + rewrite IH, wordsOfAll_pushChunk, <- app_assoc. reflexivity.
Qed.

(** C3.  For every text and every maximal length, the chunks joined by
    single spaces have the word sequence of the text; this holds for the
    sentence-based chunker of the current revision and for the word-based
    chunker of the earlier one. *)
Theorem chunk_round_trip (txt : jsstring) (maxLen : nat) :
  wordSequence (join [space] (chunk txt maxLen)) = wordSequence txt
  /\ wordSequence (join [space] (chunkWords txt maxLen)) = wordSequence txt.
Proof.
  split.
  - rewrite wordSequence_join, chunk_unfold, packSegments_words.
    simpl. unfold sentenceSegments.
    rewrite wordsOfAll_filter_nonblank.
    apply split_words. exact reSentenceBreak_separates.
  - rewrite wordSequence_join, chunkWords_unfold, packWords_words.
    simpl. apply split_words. exact reWhitespace_separates.
Qed.

(* ================================================================== *)
(** * Postconditions of the chunker *)
(* ================================================================== *)

Section Packing.

Variable maxLen : nat.
Variable atoms : list jsstring.

Lemma good_chunkOk (c : jsstring) :
  pushedChunkOk maxLen atoms c -> chunkOk maxLen atoms c.
Proof.
  intros (Hne & Ht & Hl). repeat split; try assumption.
  destruct (le_lt_dec (length c) maxLen) as [L|L]; [left; exact L|].
  destruct Hl as [Hl|Hl]; [left; exact Hl | right; split; assumption].
Qed.

Lemma pushChunk_good (chunks : list jsstring) (cur : jsstring) :
  Forall (pushedChunkOk maxLen atoms) chunks ->
  runningChunkOk maxLen atoms cur ->
  Forall (pushedChunkOk maxLen atoms) (pushChunk chunks cur).
Proof.
  intros Hc Hcur. unfold pushChunk.
  destruct (truthy (trim cur)) eqn:E; [|exact Hc].
  apply Forall_app. split; [exact Hc|].
  constructor; [|constructor].
  split; [apply truthy_iff; exact E|].
  split; [apply trim_idempotent | exact Hcur].
Qed.

Lemma packSegments_good (segs : list jsstring) :
  forall chunks cur,
    incl (map trim segs) atoms ->
    Forall (pushedChunkOk maxLen atoms) chunks ->
    runningChunkOk maxLen atoms cur ->
    Forall (pushedChunkOk maxLen atoms) (fst (packSegments maxLen segs chunks cur))
    /\ runningChunkOk maxLen atoms (snd (packSegments maxLen segs chunks cur)).
Proof.
  induction segs as [|s segs IH]; intros chunks cur Hin Hc Hcur.
  - split; assumption.
  - assert (Hin' : incl (map trim segs) atoms).
    { intros x Hx. apply Hin. right. exact Hx. }
    simpl.
    destruct (length (trim s) =? 0); [apply IH; assumption|].
    destruct (length (trim (cur ++ space :: trim s)) <=? maxLen) eqn:E.
    + apply IH; try assumption.
      apply Nat.leb_le in E. left.
      destruct cur as [|c cur]; [|exact E].
      simpl in E |- *. rewrite trim_ws_cons in E by reflexivity. exact E.
    + apply IH; try assumption.
      * apply pushChunk_good; assumption.
      * right. rewrite trim_idempotent. apply Hin. left. reflexivity.
Qed.

Lemma packWords_good (words : list jsstring) :
  forall chunks cur,
    incl (map trim words) atoms ->
    Forall (pushedChunkOk maxLen atoms) chunks ->
    runningChunkOk maxLen atoms cur ->
    Forall (pushedChunkOk maxLen atoms) (fst (packWords maxLen words chunks cur))
    /\ runningChunkOk maxLen atoms (snd (packWords maxLen words chunks cur)).
Proof.
  induction words as [|w words IH]; intros chunks cur Hin Hc Hcur.
  - split; assumption.
  - assert (Hin' : incl (map trim words) atoms).
    { intros x Hx. apply Hin. right. exact Hx. }
    simpl.
    destruct (length (trim (cur ++ space :: w)) <=? maxLen) eqn:E.
    + apply IH; try assumption. apply Nat.leb_le in E. left. exact E.
    + apply IH; try assumption.
      * apply pushChunk_good; assumption.
      * right. apply Hin. left. reflexivity.
Qed.

End Packing.

Lemma pushChunk_keeps (chunks : list jsstring) (cur c : jsstring) :
  In c chunks -> In c (pushChunk chunks cur).
Proof.
  intros H. unfold pushChunk. destruct (truthy (trim cur)); [|exact H].
  apply in_or_app. left. exact H.
Qed.

Lemma pushChunk_pushes (chunks : list jsstring) (cur : jsstring) :
  headNonWs cur = true -> lastNonWs cur = true -> In cur (pushChunk chunks cur).
Proof.
  intros Hh Hl. unfold pushChunk. rewrite (trim_fixed cur Hh Hl).
  destruct cur as [|c cur]; [discriminate|]. simpl.
  apply in_or_app. right. left. reflexivity.
Qed.

(** A chunk that has been pushed stays in the result. *)
Lemma packSegments_keeps (maxLen : nat) (segs : list jsstring) (c : jsstring) :
  forall chunks cur,
    In c chunks ->
    In c (pushChunk (fst (packSegments maxLen segs chunks cur))
                    (snd (packSegments maxLen segs chunks cur))).
Proof.
  induction segs as [|s segs IH]; intros chunks cur H; simpl.
  - apply pushChunk_keeps; exact H.
  - destruct (length (trim s) =? 0); [apply IH; exact H|].
    destruct (length (trim (cur ++ space :: trim s)) <=? maxLen);
      apply IH; [exact H | apply pushChunk_keeps; exact H].
Qed.

Lemma packWords_keeps (maxLen : nat) (words : list jsstring) (c : jsstring) :
  forall chunks cur,
    In c chunks ->
    In c (pushChunk (fst (packWords maxLen words chunks cur))
                    (snd (packWords maxLen words chunks cur))).
Proof.
  induction words as [|w words IH]; intros chunks cur H; simpl.
  - apply pushChunk_keeps; exact H.
  - destruct (length (trim (cur ++ space :: w)) <=? maxLen);
      apply IH; [exact H | apply pushChunk_keeps; exact H].
Qed.

(** Appending to a string that starts and ends off white space cannot
    make the trimmed result shorter than the string. *)
Lemma trim_app_left_length (L x : jsstring) :
  headNonWs L = true -> lastNonWs L = true ->
  length L <= length (trim (L ++ x)).
Proof.
  intros Hh Hl. unfold trim.
  rewrite trimStart_fixed by (apply headNonWs_app; exact Hh).
  unfold trimEnd. rewrite length_rev, rev_app_distr.
  rewrite trimStart_app by exact Hl.
  rewrite length_app, length_rev. lia.
Qed.

Lemma trim_app_right_length (a b : jsstring) :
  headNonWs b = true -> lastNonWs b = true ->
  length b <= length (trim (a ++ b)).
Proof.
  intros Hh Hl. rewrite trim_app_right by assumption.
  rewrite length_app. lia.
Qed.

Lemma noWhiteSpace_ends (s : jsstring) :
  noWhiteSpace s = true -> s <> [] ->
  headNonWs s = true /\ lastNonWs s = true.
Proof.
  intros H Hne. destruct s as [|c s]; [contradiction|]. split.
  - simpl in *. apply andb_true_iff in H as [H _]. exact H.
  - unfold lastNonWs. unfold noWhiteSpace in H.
    assert (Hr : forallb (fun c => negb (isWhiteSpace c)) (rev (c :: s)) = true).
    { rewrite forallb_forall in *. intros x Hx. apply H. apply in_rev. exact Hx. }
    destruct (rev (c :: s)) as [|d t] eqn:E.
    + apply (f_equal (@length codeunit)) in E. rewrite length_rev in E. discriminate.
    + simpl in *. apply andb_true_iff in Hr as [Hr _]. exact Hr.
Qed.

(** Once the running chunk is a segment longer than the maximum, it is
    pushed as it is. *)
Lemma packSegments_long_current (maxLen : nat) (L : jsstring) :
  headNonWs L = true -> lastNonWs L = true -> maxLen < length L ->
  forall segs chunks,
    In L (pushChunk (fst (packSegments maxLen segs chunks L))
                    (snd (packSegments maxLen segs chunks L))).
Proof.
  intros Hh Hl Hlong. induction segs as [|s segs IH]; intros chunks; simpl.
  - apply pushChunk_pushes; assumption.
  - destruct (length (trim s) =? 0); [apply IH|].
    pose proof (trim_app_left_length L (space :: trim s) Hh Hl) as Hlen.
    destruct (length (trim (L ++ space :: trim s)) <=? maxLen) eqn:E.
    + apply Nat.leb_le in E. lia.
    + apply packSegments_keeps. apply pushChunk_pushes; assumption.
Qed.

Lemma packSegments_long_segment (maxLen : nat) (seg : jsstring) :
  maxLen < length (trim seg) ->
  forall segs chunks cur,
    In seg segs ->
    In (trim seg) (pushChunk (fst (packSegments maxLen segs chunks cur))
                             (snd (packSegments maxLen segs chunks cur))).
Proof.
  intros Hlong.
  assert (Hne : trim seg <> []).
  { intros E. rewrite E in Hlong. simpl in Hlong. lia. }
  destruct (trim_ends seg Hne) as [Hh Hl].
  induction segs as [|s segs IH]; intros chunks cur Hin; [contradiction|].
  destruct Hin as [->|Hin]; simpl.
  - destruct (length (trim seg) =? 0) eqn:E0.
    + apply Nat.eqb_eq in E0. lia.
    + pose proof (trim_app_right_length (cur ++ [space]) (trim seg) Hh Hl) as Hlen.
      rewrite <- app_assoc in Hlen. simpl in Hlen.
      destruct (length (trim (cur ++ space :: trim seg)) <=? maxLen) eqn:E.
      * apply Nat.leb_le in E. lia.
      * apply packSegments_long_current; assumption.
  - destruct (length (trim s) =? 0); [apply IH; exact Hin|].
    destruct (length (trim (cur ++ space :: trim s)) <=? maxLen);
      apply IH; exact Hin.
Qed.

Lemma packWords_long_current (maxLen : nat) (L : jsstring) :
  headNonWs L = true -> lastNonWs L = true -> maxLen < length L ->
  forall words chunks,
    In L (pushChunk (fst (packWords maxLen words chunks L))
                    (snd (packWords maxLen words chunks L))).
Proof.
  intros Hh Hl Hlong. induction words as [|w words IH]; intros chunks; simpl.
  - apply pushChunk_pushes; assumption.
  - pose proof (trim_app_left_length L (space :: w) Hh Hl) as Hlen.
    destruct (length (trim (L ++ space :: w)) <=? maxLen) eqn:E.
    + apply Nat.leb_le in E. lia.
    + apply packWords_keeps. apply pushChunk_pushes; assumption.
Qed.

Lemma packWords_long_word (maxLen : nat) (word : jsstring) :
  noWhiteSpace word = true -> maxLen < length word ->
  forall words chunks cur,
    In word words ->
    In word (pushChunk (fst (packWords maxLen words chunks cur))
                       (snd (packWords maxLen words chunks cur))).
Proof.
  intros Hnw Hlong.
  assert (Hne : word <> []).
  { intros E. rewrite E in Hlong. simpl in Hlong. lia. }
  destruct (noWhiteSpace_ends word Hnw Hne) as [Hh Hl].
  induction words as [|w words IH]; intros chunks cur Hin; [contradiction|].
  destruct Hin as [->|Hin]; simpl.
  - pose proof (trim_app_right_length (cur ++ [space]) word Hh Hl) as Hlen.
    rewrite <- app_assoc in Hlen. simpl in Hlen.
    destruct (length (trim (cur ++ space :: word)) <=? maxLen) eqn:E.
    + apply Nat.leb_le in E. lia.
    + apply packWords_long_current; assumption.
  - destruct (length (trim (cur ++ space :: w)) <=? maxLen);
      apply IH; exact Hin.
Qed.

Lemma sentenceSegments_blank (txt : jsstring) :
  blank txt = true -> sentenceSegments txt = [].
Proof.
  intros H. unfold sentenceSegments, split.
  pose proof (splitFrom_blank reSentenceBreak txt 0 None [] eq_refl H) as Hall.
  induction Hall as [|p l Hp _ IH]; [reflexivity|].
  simpl. rewrite (trim_blank p Hp). simpl. exact IH.
Qed.

Lemma packWords_blank (maxLen : nat) (words : list jsstring) :
  Forall (fun p => blank p = true) words ->
  forall chunks cur,
    blank cur = true ->
    fst (packWords maxLen words chunks cur) = chunks
    /\ blank (snd (packWords maxLen words chunks cur)) = true.
Proof.
  induction 1 as [|w words Hw _ IH]; intros chunks cur Hcur; simpl.
  - split; [reflexivity | exact Hcur].
  - assert (Hb : blank (cur ++ space :: w) = true).
    { rewrite blank_app, Hcur. simpl. exact Hw. }
    rewrite (trim_blank _ Hb). simpl. apply IH. exact Hb.
Qed.

(** C2.  For every text and every maximal length, each chunk is non-empty,
    trimmed, and no longer than the maximum unless it is exactly one atomic
    segment that is longer; every atomic segment longer than the maximum is
    emitted whole as a chunk of its own; a text of white space only (the
    empty text included) gives no chunk.  The atomic segments are the trimmed
    sentences for the current revision and the words for the earlier one. *)
Theorem chunk_postconditions (txt : jsstring) (maxLen : nat) :
  (Forall (chunkOk maxLen (sentenceAtoms txt)) (chunk txt maxLen)
   /\ (forall seg, In seg (sentenceAtoms txt) -> maxLen < length seg ->
                   In seg (chunk txt maxLen))
   /\ (blank txt = true -> chunk txt maxLen = []))
  /\
  (Forall (chunkOk maxLen (split reWhitespace txt)) (chunkWords txt maxLen)
   /\ (forall word, In word (split reWhitespace txt) -> maxLen < length word ->
                    In word (chunkWords txt maxLen))
   /\ (blank txt = true -> chunkWords txt maxLen = [])).
Proof.
  split; split.
  - rewrite chunk_unfold.
    destruct (packSegments_good maxLen (sentenceAtoms txt) (sentenceSegments txt)
                [] []) as [Hc Hcur].
    + intros x Hx. exact Hx.
    + constructor.
    + left. simpl. lia.
    + eapply Forall_impl; [apply good_chunkOk|].
      apply pushChunk_good; assumption.
  - split.
    + intros seg Hin Hlong. unfold sentenceAtoms in Hin.
      apply in_map_iff in Hin as [s [<- Hs]].
      rewrite chunk_unfold. apply packSegments_long_segment; assumption.
    + intros H. unfold chunk. rewrite (sentenceSegments_blank txt H). reflexivity.
  - rewrite chunkWords_unfold.
    pose proof (splitFrom_reWhitespace_noWs txt 0 None [] eq_refl) as Hnw.
    fold (split reWhitespace txt) in Hnw.
    destruct (packWords_good maxLen (split reWhitespace txt)
                (split reWhitespace txt) [] []) as [Hc Hcur].
    + intros x Hx. apply in_map_iff in Hx as [w [<- Hw]].
      rewrite Forall_forall in Hnw.
      rewrite (noWhiteSpace_trim w (Hnw w Hw)). exact Hw.
    + constructor.
    + left. simpl. lia.
    + eapply Forall_impl; [apply good_chunkOk|].
      apply pushChunk_good; assumption.
  - split.
    + intros word Hin Hlong.
      pose proof (splitFrom_reWhitespace_noWs txt 0 None [] eq_refl) as Hnw.
      fold (split reWhitespace txt) in Hnw. rewrite Forall_forall in Hnw.
      rewrite chunkWords_unfold.
      apply packWords_long_word; [apply Hnw; exact Hin | exact Hlong | exact Hin].
    + intros H. rewrite chunkWords_unfold.
      destruct (packWords_blank maxLen (split reWhitespace txt)
                  (splitFrom_blank reWhitespace txt 0 None [] eq_refl H) [] [] eq_refl)
        as [Hf Hs].
      rewrite Hf. unfold pushChunk. rewrite (trim_blank _ Hs). reflexivity.
Qed.

(** C2 on a text of three sentences: with a maximum of 5 the first
    sentence is longer than the maximum and is a chunk of its own; a text of
    two spaces gives no chunk. *)
Lemma chunk_postconditions_witness :
  In (js "Hello there.") (sentenceAtoms Sample.threeSentences)
  /\ 5 < length (js "Hello there.")
  /\ In (js "Hello there.") (chunk Sample.threeSentences 5)
  /\ blank (js "  ") = true
  /\ chunk (js "  ") 5 = [].
Proof.
  assert (Hin : In (js "Hello there.") (sentenceAtoms Sample.threeSentences))
    by (vm_compute; left; reflexivity).
  assert (Hlong : 5 < length (js "Hello there.")) by (vm_compute; lia).
  assert (Hblank : blank (js "  ") = true) by reflexivity.
  destruct (chunk_postconditions Sample.threeSentences 5) as ((_ & A & _) & _).
  destruct (chunk_postconditions (js "  ") 5) as ((_ & _ & B) & _).
  split; [exact Hin|]. split; [exact Hlong|].
  split; [exact (A _ Hin Hlong)|]. split; [exact Hblank | exact (B Hblank)].
Defined.

(* ================================================================== *)
(** * The handlers: evaluation *)
(* ================================================================== *)

Arguments chunk : simpl never.
Arguments js : simpl never.
Arguments trim : simpl never.
Arguments sendPromptToGemini : simpl never.
Arguments requestOf : simpl never.

Ltac handlers :=
  unfold invoke, sendMessage, Earlier.sendMessage, startListening, stopListening,
    getPronunciationTips, getBritishVocabulary, rephraseSentence, startRolePlay,
    clearConversation, speakMessage, stopSpeaking,
    fetchSettled, recognitionOnResult, recognitionOnEnd, recognitionOnError.

Ltac primitives :=
  unfold andThen, reading, emit, skip, setConversation, setMessage,
    setIsListening, setIsSpeaking, setIsLoading, setError,
    setAwaitingFeatureInput, engineSpeaking, append.

(** [sendPromptToGemini] sets the flag and sends the request of the log of
    its closure, if there is one. *)
Lemma sendPromptToGemini_eq (r s : State) (p : jsstring) :
  sendPromptToGemini r p s
  = (fst (setIsLoading true s), requestOf (conversation r) p).
Proof.
  unfold sendPromptToGemini, requestOf. primitives.
  destruct (turnsOf (conversation r)); reflexivity.
Qed.

Ltac evaluate :=
  handlers; primitives; simpl; rewrite ?sendPromptToGemini_eq; simpl.

(** No activity flag is set: the three equations. *)
Lemma activity_false (s : State) :
  activity s = false ->
  isLoading s = false /\ isListening s = false /\ isSpeaking s = false.
Proof.
  unfold activity. intros H.
  apply orb_false_iff in H as [H Hsp]. apply orb_false_iff in H as [Hlo Hli].
  repeat split; assumption.
Qed.

Lemma activity_busy (s : State) : activity s = true -> busy s = true.
Proof. unfold activity, busy. intros ->. reflexivity. Qed.

(** ** The log and its Turns *)

Lemma turnsOf_none (conv : list Entry) :
  turnsOf conv = None <-> In Textless conv.
Proof.
  induction conv as [|[t|] conv IH]; simpl.
  - split; [discriminate | contradiction].
  - destruct (turnsOf conv) as [ts|].
    + split; [discriminate|]. intros [H|H]; [discriminate|].
      apply IH in H. discriminate.
    + split; [|reflexivity]. intros _. right. apply IH. reflexivity.
  - split; [|reflexivity]. intros _. left. reflexivity.
Qed.

Lemma requestOf_some (conv : list Entry) (turns : list Turn) (p : jsstring) :
  turnsOf conv = Some turns -> requestOf conv p = [Fetch (chatHistory turns p)].
Proof. unfold requestOf. intros ->. reflexivity. Qed.

Lemma requestOf_none (conv : list Entry) (p : jsstring) :
  In Textless conv -> requestOf conv p = [].
Proof. unfold requestOf. intros H. apply turnsOf_none in H. rewrite H. reflexivity. Qed.

(** ** [sendMessage] and [startListening] with their closure *)

(** An accepted submission: the log and the cells are those of the moment,
    the feature mode and the history of the request those of the closure. *)
Lemma sendMessage_accepted_in (r s : State) (txt : jsstring) :
  isLoading r = false -> truthy (trim txt) = true ->
  sendMessage txt r s
  = ({| conversation := filter notListening (conversation s)
                        ++ {| role := User; text := trim txt |}
                           :: acknowledgement (awaitingFeatureInput r);
        message := [];
        isListening := isListening s;
        isSpeaking := (if synthRef s && synthSpeaking s then false
                       else isSpeaking s);
        isLoading := true;
        error := [];
        awaitingFeatureInput := match awaitingFeatureInput r with
                                | Some _ => None
                                | None => awaitingFeatureInput s
                                end;
        recognitionRef := recognitionRef s;
        synthRef := synthRef s;
        synthSpeaking := (if synthRef s && synthSpeaking s then false
                          else synthSpeaking s) |},
     (if synthRef s && synthSpeaking s then [SynthCancel] else [])
     ++ requestOf (conversation r)
                  (promptFor (awaitingFeatureInput r) (trim txt))).
Proof.
  intros Hlo Ht.
  destruct s as [conv msg li sp lo err aw rr sr ss].
  unfold sendMessage, stopSpeaking. cbv zeta.
  rewrite Ht, Hlo.
  destruct (awaitingFeatureInput r) as [[|]|]; primitives; simpl;
    rewrite ?sendPromptToGemini_eq; simpl;
    destruct sr, ss; simpl; rewrite ?sendPromptToGemini_eq; simpl;
    rewrite <- ?app_assoc; reflexivity.
Qed.

(** A rejected submission: only the placeholders leave the log, and the
    advisory is set when the text is blank and is the [message] of the
    closure. *)
Lemma sendMessage_rejected_in (r s : State) (txt : jsstring) :
  truthy (trim txt) = false \/ isLoading r = true ->
  sendMessage txt r s
  = ({| conversation := filter notListening (conversation s);
        message := message s;
        isListening := isListening s;
        isSpeaking := isSpeaking s;
        isLoading := isLoading s;
        error := (if JsString.eqb txt (message r) && negb (truthy (trim txt))
                  then Text.errEmptyMessage else error s);
        awaitingFeatureInput := awaitingFeatureInput s;
        recognitionRef := recognitionRef s;
        synthRef := synthRef s;
        synthSpeaking := synthSpeaking s |}, []).
Proof.
  intros H.
  assert (E : negb (truthy (trim txt)) || isLoading r = true).
  { destruct H as [-> | ->]; [reflexivity | apply orb_true_r]. }
  destruct s as [conv msg li sp lo err aw rr sr ss].
  unfold sendMessage. cbv zeta. rewrite E.
  destruct (JsString.eqb txt (message r) && negb (truthy (trim txt)));
    primitives; reflexivity.
Qed.

(** The same for [sendMessage] of the earlier revision, which does not stop
    the speech and sets the advisory on every rejection. *)
Lemma earlier_sendMessage_accepted_in (r s : State) (txt : jsstring) :
  isLoading r = false -> truthy (trim txt) = true ->
  Earlier.sendMessage txt r s
  = ({| conversation := filter notListening (conversation s)
                        ++ {| role := User; text := trim txt |}
                           :: acknowledgement (awaitingFeatureInput r);
        message := [];
        isListening := isListening s;
        isSpeaking := isSpeaking s;
        isLoading := true;
        error := [];
        awaitingFeatureInput := match awaitingFeatureInput r with
                                | Some _ => None
                                | None => awaitingFeatureInput s
                                end;
        recognitionRef := recognitionRef s;
        synthRef := synthRef s;
        synthSpeaking := synthSpeaking s |},
     requestOf (conversation r)
               (promptFor (awaitingFeatureInput r) (trim txt))).
Proof.
  intros Hlo Ht.
  destruct s as [conv msg li sp lo err aw rr sr ss].
  unfold Earlier.sendMessage. cbv zeta.
  rewrite Ht, Hlo.
  destruct (awaitingFeatureInput r) as [[|]|]; primitives; simpl;
    rewrite ?sendPromptToGemini_eq; simpl;
    rewrite <- ?app_assoc; reflexivity.
Qed.

Lemma earlier_sendMessage_rejected_in (r s : State) (txt : jsstring) :
  truthy (trim txt) = false \/ isLoading r = true ->
  Earlier.sendMessage txt r s
  = ({| conversation := filter notListening (conversation s);
        message := message s;
        isListening := isListening s;
        isSpeaking := isSpeaking s;
        isLoading := isLoading s;
        error := Text.errEmptyMessage;
        awaitingFeatureInput := awaitingFeatureInput s;
        recognitionRef := recognitionRef s;
        synthRef := synthRef s;
        synthSpeaking := synthSpeaking s |}, []).
Proof.
  intros H.
  assert (E : negb (truthy (trim txt)) || isLoading r = true).
  { destruct H as [-> | ->]; [reflexivity | apply orb_true_r]. }
  destruct s as [conv msg li sp lo err aw rr sr ss].
  unfold Earlier.sendMessage. cbv zeta. rewrite E.
  primitives; reflexivity.
Qed.

(** [startListening], created at a render [r], with a recognition object. *)
Lemma startListening_in (r s : State) (startOk : bool) :
  startListening startOk r s
  = (if recognitionRef s && negb (isListening r) then
       {| conversation := (if startOk
                           then conversation s ++ [Said placeholderTurn]
                           else filter notListening
                                  (conversation s ++ [Said placeholderTurn]));
          message := [];
          isListening := startOk;
          isSpeaking := (if synthRef s && synthSpeaking s then false
                         else isSpeaking s);
          isLoading := isLoading s;
          error := (if startOk then [] else Text.errRecognitionStart);
          awaitingFeatureInput := awaitingFeatureInput s;
          recognitionRef := recognitionRef s;
          synthRef := synthRef s;
          synthSpeaking := (if synthRef s && synthSpeaking s then false
                            else synthSpeaking s) |}
     else
       {| conversation := conversation s;
          message := message s;
          isListening := isListening s;
          isSpeaking := (if synthRef s && synthSpeaking s then false
                         else isSpeaking s);
          isLoading := isLoading s;
          error := Text.errRecognitionUnavailable;
          awaitingFeatureInput := awaitingFeatureInput s;
          recognitionRef := recognitionRef s;
          synthRef := synthRef s;
          synthSpeaking := (if synthRef s && synthSpeaking s then false
                            else synthSpeaking s) |},
     (if synthRef s && synthSpeaking s then [SynthCancel] else [])
     ++ (if recognitionRef s && negb (isListening r) && startOk
         then [RecognitionStart] else [])).
Proof.
  destruct s as [conv msg li sp lo err aw rr sr ss].
  unfold startListening, stopSpeaking, placeholderTurn. primitives. simpl.
  destruct sr, ss; simpl; destruct (rr && negb (isListening r)); simpl;
    destruct startOk; reflexivity.
Qed.

(* ================================================================== *)
(** * C1: the activity flags *)
(* ================================================================== *)

(** C1, as stated, fails: mutual exclusion of the flags is not an invariant
    of the reachable states.  After a click on "Start Speaking" and the
    delivery of a recognition result, the result is submitted while
    [isListening] is still set (only [onend] clears it), so [isListening] and
    [isLoading] hold together.  The result callback is that of the object
    that was started, created at the mount. *)
Lemma listening_and_loading_reachable :
  exists w,
    run [ClickStartSpeaking; RecognitionResult Sample.hello] initialWorld = Some w
    /\ reachable w
    /\ isListening (app w) = true
    /\ isLoading (app w) = true
    /\ atMostOneActive (app w) = false.
Proof.
  destruct (run [ClickStartSpeaking; RecognitionResult Sample.hello] initialWorld)
    as [w|] eqn:E; [|vm_compute in E; discriminate].
  exists w. split; [reflexivity|].
  split; [exists [ClickStartSpeaking; RecognitionResult Sample.hello]; exact E|].
  vm_compute in E. injection E as <-. repeat split.
Qed.

(** C1, amended.  What the handlers guarantee about the three flags:
    - the four feature triggers (pronunciation tips, vocabulary, rephrase,
      role-play) do nothing but clear the advisory while any flag is set;
    - from a state with no flag set, every UI handler leaves at most one
      flag set ([sendMessage] whatever render it was created at);
    - [startListening] always, and an accepted [sendMessage], cancel the
      speech when the engine reports speaking: they issue [synth.cancel()]
      and leave [isSpeaking] false; when the engine does not report
      speaking they issue no cancel and leave [isSpeaking] as it is;
    - [sendMessage] tests [isLoading] only and [startListening] tests
      [isListening] only. *)
Theorem activity_transitions (s r : State) (txt : jsstring) (startOk : bool) :
  (activity s = true ->
     invoke getPronunciationTips s = setError [] s
     /\ invoke getBritishVocabulary s = setError [] s
     /\ invoke rephraseSentence s = setError [] s
     /\ invoke startRolePlay s = setError [] s)
  /\ (activity s = false ->
        atMostOneActive (fst (sendMessage txt r s)) = true
        /\ atMostOneActive (fst (invoke (startListening startOk) s)) = true
        /\ atMostOneActive (fst (invoke getPronunciationTips s)) = true
        /\ atMostOneActive (fst (invoke getBritishVocabulary s)) = true
        /\ atMostOneActive (fst (invoke rephraseSentence s)) = true
        /\ atMostOneActive (fst (invoke startRolePlay s)) = true
        /\ atMostOneActive (fst (invoke clearConversation s)) = true
        /\ atMostOneActive (fst (stopSpeaking s)) = true)
  /\ (synthRef s && synthSpeaking s = true ->
        (isSpeaking (fst (invoke (startListening startOk) s)) = false
         /\ synthSpeaking (fst (invoke (startListening startOk) s)) = false
         /\ filter isCancel (snd (invoke (startListening startOk) s))
            = [SynthCancel])
        /\ (truthy (trim txt) = true -> isLoading r = false ->
            isSpeaking (fst (sendMessage txt r s)) = false
            /\ synthSpeaking (fst (sendMessage txt r s)) = false
            /\ filter isCancel (snd (sendMessage txt r s)) = [SynthCancel]))
  /\ (synthRef s && synthSpeaking s = false ->
        (isSpeaking (fst (invoke (startListening startOk) s)) = isSpeaking s
         /\ filter isCancel (snd (invoke (startListening startOk) s)) = [])
        /\ isSpeaking (fst (sendMessage txt r s)) = isSpeaking s
        /\ filter isCancel (snd (sendMessage txt r s)) = [])
  /\ (truthy (trim txt) = false \/ isLoading r = true ->
        isSpeaking (fst (sendMessage txt r s)) = isSpeaking s
        /\ filter isCancel (snd (sendMessage txt r s)) = [])
  /\ (isLoading r = true ->
        isLoading (fst (sendMessage txt r s)) = isLoading s
        /\ isListening (fst (sendMessage txt r s)) = isListening s
        /\ isSpeaking (fst (sendMessage txt r s)) = isSpeaking s
        /\ snd (sendMessage txt r s) = [])
  /\ (isLoading r = false -> truthy (trim txt) = true ->
        isLoading (fst (sendMessage txt r s)) = true
        /\ isListening (fst (sendMessage txt r s)) = isListening s)
  /\ (isListening s = true ->
        isListening (fst (invoke (startListening startOk) s)) = true
        /\ isLoading (fst (invoke (startListening startOk) s)) = isLoading s
        /\ filter isFetch (snd (invoke (startListening startOk) s)) = []
        /\ ~ In RecognitionStart (snd (invoke (startListening startOk) s)))
  /\ (isListening s = false -> recognitionRef s = true ->
        isListening (fst (invoke (startListening startOk) s)) = startOk
        /\ isLoading (fst (invoke (startListening startOk) s)) = isLoading s).
Proof.
  assert (Hsend : forall b : bool,
            (if b then filter isCancel [SynthCancel] else [])
            = filter isCancel (if b then [SynthCancel] else [])).
  { intros [|]; reflexivity. }
  assert (Hreq : forall conv p, filter isCancel (requestOf conv p) = []).
  { intros conv p. unfold requestOf. destruct (turnsOf conv); reflexivity. }
  split; [|split; [|split; [|split; [|split; [|split; [|split; [|split]]]]]]].
  - intros H. apply activity_busy in H.
    unfold invoke, getPronunciationTips, getBritishVocabulary, rephraseSentence,
      startRolePlay. rewrite H.
    primitives. simpl. repeat split.
  - intros H. apply activity_false in H as (Hlo & Hli & Hsp).
    split.
    { destruct (truthy (trim txt)) eqn:Ht; [destruct (isLoading r) eqn:Hr|].
      - rewrite (sendMessage_rejected_in r s txt (or_intror Hr)).
        unfold atMostOneActive. simpl. rewrite Hlo, Hli, Hsp. reflexivity.
      - rewrite (sendMessage_accepted_in r s txt Hr Ht).
        unfold atMostOneActive. simpl. rewrite Hli, Hsp.
        destruct (synthRef s && synthSpeaking s); reflexivity.
      - rewrite (sendMessage_rejected_in r s txt (or_introl Ht)).
        unfold atMostOneActive. simpl. rewrite Hlo, Hli, Hsp. reflexivity. }
    split.
    { unfold invoke. rewrite startListening_in.
      unfold atMostOneActive.
      destruct (recognitionRef s && negb (isListening s)); simpl;
        rewrite ?Hlo, ?Hli, ?Hsp;
        destruct (synthRef s && synthSpeaking s); simpl;
        rewrite ?andb_false_r; reflexivity. }
    destruct s as [conv msg li sp lo err aw rr sr ss]. simpl in *. subst.
    repeat split.
    + evaluate. unfold busy. simpl. destruct aw; simpl; [reflexivity|].
      destruct (lastUserMessage conv); simpl;
        rewrite ?sendPromptToGemini_eq; reflexivity.
    + evaluate. unfold busy. simpl. destruct aw; simpl; [reflexivity|].
      destruct sr; simpl; [|reflexivity].
      destruct ss; simpl;
        destruct (chunk Text.vocabQuestion maxUtteranceLength); reflexivity.
    + evaluate. unfold busy. simpl. destruct aw; simpl; [reflexivity|].
      destruct sr; simpl; [|reflexivity].
      destruct ss; simpl;
        destruct (chunk Text.rephraseQuestion maxUtteranceLength); reflexivity.
    + evaluate. unfold busy. simpl. destruct aw; simpl;
        rewrite ?sendPromptToGemini_eq; reflexivity.
    + evaluate. destruct (sr && ss); simpl; destruct rr; reflexivity.
    + evaluate. destruct (sr && ss); reflexivity.
  - intros H. split.
    + unfold invoke. rewrite startListening_in. rewrite H. simpl.
      destruct (recognitionRef s && negb (isListening s)); simpl.
      * repeat split. destruct startOk; reflexivity.
      * repeat split.
    + intros Ht Hr. rewrite (sendMessage_accepted_in r s txt Hr Ht).
      rewrite H. simpl. rewrite Hreq. repeat split.
  - intros H. split; [|split].
    + unfold invoke. rewrite startListening_in. rewrite H. simpl.
      destruct (recognitionRef s && negb (isListening s)); simpl.
      * repeat split. destruct startOk; reflexivity.
      * repeat split.
    + destruct (truthy (trim txt)) eqn:Ht; [destruct (isLoading r) eqn:Hr|].
      * rewrite (sendMessage_rejected_in r s txt (or_intror Hr)). reflexivity.
      * rewrite (sendMessage_accepted_in r s txt Hr Ht). simpl. rewrite H.
        reflexivity.
      * rewrite (sendMessage_rejected_in r s txt (or_introl Ht)). reflexivity.
    + destruct (truthy (trim txt)) eqn:Ht; [destruct (isLoading r) eqn:Hr|].
      * rewrite (sendMessage_rejected_in r s txt (or_intror Hr)). reflexivity.
      * rewrite (sendMessage_accepted_in r s txt Hr Ht). simpl. rewrite H.
        apply Hreq.
      * rewrite (sendMessage_rejected_in r s txt (or_introl Ht)). reflexivity.
  - intros H. rewrite (sendMessage_rejected_in r s txt H). split; reflexivity.
  - intros H. rewrite (sendMessage_rejected_in r s txt (or_intror H)).
    repeat split.
  - intros Hr Ht. rewrite (sendMessage_accepted_in r s txt Hr Ht).
    split; reflexivity.
  - intros H. unfold invoke. rewrite startListening_in. rewrite H.
    rewrite andb_false_r. simpl.
    destruct (synthRef s && synthSpeaking s); simpl; repeat split;
      try exact H; intros E; simpl in E; intuition discriminate.
  - intros H Href. unfold invoke. rewrite startListening_in. rewrite H, Href.
    simpl. split; reflexivity.
Qed.

(** The amended C1 at the mounted component, and at a state that is
    loading, with the handlers of the latest render. *)
Lemma activity_transitions_witness :
  activity initialState = false
  /\ atMostOneActive (fst (invoke (sendMessage Sample.hello) initialState)) = true
  /\ isLoading Sample.loadingState = true
  /\ snd (invoke (sendMessage Sample.hello) Sample.loadingState) = [].
Proof.
  split; [reflexivity|]. split.
  - destruct (activity_transitions initialState initialState Sample.hello true)
      as (_ & Hidle & _).
    apply Hidle. reflexivity.
  - split; [reflexivity|].
    destruct (activity_transitions Sample.loadingState Sample.loadingState
                Sample.hello true)
      as (_ & _ & _ & _ & _ & Hloading & _).
    apply Hloading. reflexivity.
Defined.

(* ================================================================== *)
(** * C4 and C7: [sendMessage] *)
(* ================================================================== *)

(** The two initiation handlers set the feature mode, and leave the
    component not loading. *)
Lemma initiate_feature (s : State) :
  busy s = false ->
  awaitingFeatureInput (fst (invoke getBritishVocabulary s)) = Some Vocab
  /\ isLoading (fst (invoke getBritishVocabulary s)) = false
  /\ awaitingFeatureInput (fst (invoke rephraseSentence s)) = Some Rephrase
  /\ isLoading (fst (invoke rephraseSentence s)) = false.
Proof.
  intros H. unfold invoke, getBritishVocabulary, rephraseSentence. rewrite H.
  unfold busy in H.
  destruct s as [conv msg li sp lo err aw rr sr ss]. simpl in *.
  destruct lo; [discriminate|].
  evaluate.
  repeat split;
    destruct sr; simpl; try reflexivity; destruct ss; reflexivity.
Qed.

(** C4, as stated, fails for some literal texts.  Right after the
    vocabulary feature is initiated, an empty submission is rejected: the
    feature mode stays [Vocab] and no request is built.  And a text with
    white space around it is embedded trimmed, so the prompt is not the
    template around the text as submitted. *)
Lemma feature_mode_survives_empty_text :
  awaitingFeatureInput Sample.afterVocabulary = Some Vocab
  /\ awaitingFeatureInput (fst (invoke (sendMessage []) Sample.afterVocabulary))
     = Some Vocab
  /\ snd (invoke (sendMessage []) Sample.afterVocabulary) = []
  /\ filter isFetch
       (snd (sendMessage Sample.paddedFood Sample.afterVocabulary
               (fst (setMessage Sample.paddedFood Sample.afterVocabulary))))
     = [Fetch (chatHistory
                 [greetingTurn; Sample.userTurn Text.vocabMarker;
                  Sample.modelTurn Text.vocabQuestion]
                 (Text.vocabPrompt Sample.food))]
  /\ Text.vocabPrompt Sample.food <> Text.vocabPrompt Sample.paddedFood.
Proof.
  repeat split; try (vm_compute; reflexivity).
  intros H. vm_compute in H. discriminate.
Qed.

(** C4, amended.  The initiation handlers set the feature mode.  The next
    accepted submission (the text is not blank, and [sendMessage] was created
    at a render [r] that was not loading and had the mode) resets the mode to
    none, whatever it is at the moment, and builds the vocabulary template,
    respectively the rephrase template, around the trimmed text; the request
    carries it after the Turns of the log of [r], and is not sent when that
    log holds an entry without a text.  A rejected submission leaves the mode
    as it is, builds no prompt and sends nothing.  The same holds for
    [sendMessage] of the earlier revision. *)
Theorem feature_mode_consumed (s0 r s : State) (txt : jsstring) :
  (busy s0 = false ->
     awaitingFeatureInput (fst (invoke getBritishVocabulary s0)) = Some Vocab
     /\ awaitingFeatureInput (fst (invoke rephraseSentence s0)) = Some Rephrase)
  /\ (isLoading r = false -> truthy (trim txt) = true ->
      awaitingFeatureInput r = Some Vocab ->
        (awaitingFeatureInput (fst (sendMessage txt r s)) = None
         /\ awaitingFeatureInput (fst (Earlier.sendMessage txt r s)) = None)
        /\ (forall turns, turnsOf (conversation r) = Some turns ->
              filter isFetch (snd (sendMessage txt r s))
              = [Fetch (chatHistory turns (Text.vocabPrompt (trim txt)))]
              /\ snd (Earlier.sendMessage txt r s)
                 = [Fetch (chatHistory turns (Text.vocabPrompt (trim txt)))])
        /\ (In Textless (conversation r) ->
              filter isFetch (snd (sendMessage txt r s)) = []
              /\ snd (Earlier.sendMessage txt r s) = []))
  /\ (isLoading r = false -> truthy (trim txt) = true ->
      awaitingFeatureInput r = Some Rephrase ->
        (awaitingFeatureInput (fst (sendMessage txt r s)) = None
         /\ awaitingFeatureInput (fst (Earlier.sendMessage txt r s)) = None)
        /\ (forall turns, turnsOf (conversation r) = Some turns ->
              filter isFetch (snd (sendMessage txt r s))
              = [Fetch (chatHistory turns (Text.rephrasePrompt (trim txt)))]
              /\ snd (Earlier.sendMessage txt r s)
                 = [Fetch (chatHistory turns (Text.rephrasePrompt (trim txt)))])
        /\ (In Textless (conversation r) ->
              filter isFetch (snd (sendMessage txt r s)) = []
              /\ snd (Earlier.sendMessage txt r s) = []))
  /\ (truthy (trim txt) = false \/ isLoading r = true ->
        (awaitingFeatureInput (fst (sendMessage txt r s))
         = awaitingFeatureInput s
         /\ snd (sendMessage txt r s) = [])
        /\ (awaitingFeatureInput (fst (Earlier.sendMessage txt r s))
            = awaitingFeatureInput s
            /\ snd (Earlier.sendMessage txt r s) = [])).
Proof.
  assert (Hcancel : forall (b : bool) l,
            filter isFetch ((if b then [SynthCancel] else []) ++ l)
            = filter isFetch l).
  { intros [|] l; reflexivity. }
  split; [|split; [|split]].
  - intros H. destruct (initiate_feature s0 H) as (A & _ & B & _).
    split; assumption.
  - intros Hlo Ht Haw.
    rewrite (sendMessage_accepted_in r s txt Hlo Ht).
    rewrite (earlier_sendMessage_accepted_in r s txt Hlo Ht).
    rewrite Haw. cbn [fst snd awaitingFeatureInput promptFor]. rewrite Hcancel.
    split; [split; reflexivity|]. split.
    + intros turns Hturns. rewrite (requestOf_some _ _ _ Hturns).
      split; reflexivity.
    + intros Hin. rewrite (requestOf_none _ _ Hin). split; reflexivity.
  - intros Hlo Ht Haw.
    rewrite (sendMessage_accepted_in r s txt Hlo Ht).
    rewrite (earlier_sendMessage_accepted_in r s txt Hlo Ht).
    rewrite Haw. cbn [fst snd awaitingFeatureInput promptFor]. rewrite Hcancel.
    split; [split; reflexivity|]. split.
    + intros turns Hturns. rewrite (requestOf_some _ _ _ Hturns).
      split; reflexivity.
    + intros Hin. rewrite (requestOf_none _ _ Hin). split; reflexivity.
  - intros H.
    rewrite (sendMessage_rejected_in r s txt H).
    rewrite (earlier_sendMessage_rejected_in r s txt H).
    repeat split.
Qed.

(** The amended C4 on the scenario of the specification: rephrase, then
    "I is going". *)
Lemma feature_mode_consumed_witness :
  isLoading Sample.afterRephrase = false
  /\ truthy (trim Sample.iIsGoing) = true
  /\ awaitingFeatureInput Sample.afterRephrase = Some Rephrase
  /\ awaitingFeatureInput
       (fst (sendMessage Sample.iIsGoing Sample.afterRephrase Sample.afterRephrase))
     = None
  /\ filter isFetch
       (snd (sendMessage Sample.iIsGoing Sample.afterRephrase Sample.afterRephrase))
     = [Fetch (chatHistory
                 [greetingTurn; Sample.userTurn Text.rephraseMarker;
                  Sample.modelTurn Text.rephraseQuestion]
                 (Text.rephrasePrompt (trim Sample.iIsGoing)))].
Proof.
  assert (Hlo : isLoading Sample.afterRephrase = false) by (vm_compute; reflexivity).
  assert (Ht : truthy (trim Sample.iIsGoing) = true) by (vm_compute; reflexivity).
  assert (Haw : awaitingFeatureInput Sample.afterRephrase = Some Rephrase)
    by (vm_compute; reflexivity).
  destruct (feature_mode_consumed initialState Sample.afterRephrase
              Sample.afterRephrase Sample.iIsGoing)
    as (_ & _ & Hre & _).
  destruct (Hre Hlo Ht Haw) as ((A & _) & B & _).
  destruct (B [greetingTurn; Sample.userTurn Text.rephraseMarker;
                  Sample.modelTurn Text.rephraseQuestion])
    as (B1 & _); [vm_compute; reflexivity|].
  repeat split; assumption.
Defined.

(** C7, as stated, fails.  A rejected submission changes the stored log when
    the log holds a Turn with the text of the listening placeholder: the
    filter runs before the text is validated.  A submission rejected because
    the component is loading sets no advisory in the current revision.  And
    neither does Enter on three spaces typed into the mounted component:
    [sendMessage] is the one created at the mount, where the input field was
    empty. *)
Lemma rejected_submission_alters_log :
  conversation Sample.withPlaceholder
  = [Said greetingTurn; Said (Sample.userTurn Text.listening)]
  /\ conversation (fst (invoke (sendMessage []) Sample.withPlaceholder))
     = [Said greetingTurn]
  /\ snd (invoke (sendMessage []) Sample.withPlaceholder) = []
  /\ isLoading Sample.loadingState = true
  /\ snd (invoke (sendMessage Sample.hello) Sample.loadingState) = []
  /\ error (fst (invoke (sendMessage Sample.hello) Sample.loadingState)) = []
  /\ truthy (trim Sample.spaces) = false
  /\ (exists w,
        run [Typing Sample.spaces; PressEnter] initialWorld = Some w
        /\ message (app w) = Sample.spaces
        /\ error (app w) = []).
Proof.
  repeat split; try (vm_compute; reflexivity).
  destruct (run [Typing Sample.spaces; PressEnter] initialWorld) as [w|] eqn:E;
    [|vm_compute in E; discriminate].
  exists w. split; [reflexivity|].
  vm_compute in E. injection E as <-. split; reflexivity.
Qed.

Lemma filter_all (A : Type) (f : A -> bool) (l : list A) :
  forallb f l = true -> filter f l = l.
Proof.
  induction l as [|x l IH]; simpl; [reflexivity|].
  intros H. apply andb_true_iff in H as [Hx Hl]. rewrite Hx, (IH Hl). reflexivity.
Qed.

(** C7, amended.  A submission whose text is blank, or made with a
    [sendMessage] created at a render [r] that was loading, dispatches no
    request and appends no Turn; the three flags, the feature mode and the
    input field keep their values; the stored log loses the Turns whose text
    is the listening placeholder and is otherwise unchanged (so it is
    unchanged when it holds none).  The current revision sets the advisory
    only when the text is blank and equal to the input field of [r], the
    render at which [sendMessage] was created; the earlier revision sets it
    on every rejection. *)
Theorem rejected_submission (r s : State) (txt : jsstring)
  (Hrejected : truthy (trim txt) = false \/ isLoading r = true) :
  (snd (sendMessage txt r s) = []
   /\ conversation (fst (sendMessage txt r s))
      = filter notListening (conversation s)
   /\ (forallb notListening (conversation s) = true ->
       conversation (fst (sendMessage txt r s)) = conversation s)
   /\ error (fst (sendMessage txt r s))
      = (if JsString.eqb txt (message r) && negb (truthy (trim txt))
         then Text.errEmptyMessage else error s)
   /\ message (fst (sendMessage txt r s)) = message s
   /\ awaitingFeatureInput (fst (sendMessage txt r s)) = awaitingFeatureInput s
   /\ isListening (fst (sendMessage txt r s)) = isListening s
   /\ isSpeaking (fst (sendMessage txt r s)) = isSpeaking s
   /\ isLoading (fst (sendMessage txt r s)) = isLoading s)
  /\
  (snd (Earlier.sendMessage txt r s) = []
   /\ conversation (fst (Earlier.sendMessage txt r s))
      = filter notListening (conversation s)
   /\ (forallb notListening (conversation s) = true ->
       conversation (fst (Earlier.sendMessage txt r s)) = conversation s)
   /\ error (fst (Earlier.sendMessage txt r s)) = Text.errEmptyMessage
   /\ message (fst (Earlier.sendMessage txt r s)) = message s
   /\ awaitingFeatureInput (fst (Earlier.sendMessage txt r s))
      = awaitingFeatureInput s
   /\ isListening (fst (Earlier.sendMessage txt r s)) = isListening s
   /\ isSpeaking (fst (Earlier.sendMessage txt r s)) = isSpeaking s
   /\ isLoading (fst (Earlier.sendMessage txt r s)) = isLoading s).
Proof.
  rewrite (sendMessage_rejected_in r s txt Hrejected).
  rewrite (earlier_sendMessage_rejected_in r s txt Hrejected).
  cbn [fst snd conversation error message awaitingFeatureInput isListening
       isSpeaking isLoading].
  split.
  - repeat split. apply filter_all.
  - repeat split. apply filter_all.
Qed.

(** The amended C7 on the scenario of the specification: the empty text on
    the mounted component. *)
Lemma rejected_submission_witness :
  truthy (trim []) = false
  /\ snd (sendMessage [] initialState initialState) = []
  /\ conversation (fst (sendMessage [] initialState initialState))
     = conversation initialState
  /\ error (fst (sendMessage [] initialState initialState))
     = Text.errEmptyMessage.
Proof.
  assert (H : truthy (trim []) = false \/ isLoading initialState = true)
    by (left; reflexivity).
  destruct (rejected_submission initialState initialState [] H)
    as ((A & _ & C & D & _) & _).
  split; [reflexivity|]. split; [exact A|]. split.
  - apply C. vm_compute. reflexivity.
  - rewrite D. vm_compute. reflexivity.
Defined.

(* ================================================================== *)
(** * C5 and C10: what is left out of the request *)
(* ================================================================== *)

Lemma keptForSubmission_spec (t : Turn) :
  keptForSubmission t = true
  <-> text t <> Text.listening
      /\ startsWith (text t) [sparkles] = false
      /\ text t <> Text.ackVocab
      /\ text t <> Text.ackRephrase.
Proof.
  unfold keptForSubmission.
  rewrite !andb_true_iff, !negb_true_iff, !eqb_neq. tauto.
Qed.

Lemma text_of_marker (t : jsstring) :
  markerText t ->
  t = Text.listening \/ startsWith t [sparkles] = true
  \/ t = Text.ackVocab \/ t = Text.ackRephrase.
Proof.
  unfold markerText.
  intros [H|[[q H]|[H|[H|[H|[H|H]]]]]]; subst; auto;
    right; left; reflexivity.
Qed.

(** C5.  For every conversation log, no Turn of the filtered conversation
    (the snapshot that the request carries between the persona instruction
    and the current prompt) is the listening placeholder, a feature
    initiation marker (pronunciation tips with any quoted text, vocabulary,
    rephrase, role-play) or a feature acknowledgement. *)
Theorem submission_excludes_markers (conv : list Turn) (promptContent : jsstring) :
  Forall (fun t => ~ markerText (text t)) (filteredConversation conv)
  /\ chatHistory conv promptContent
     = {| contentRole := User; contentText := Text.initialPrompt |}
       :: map toContent (filteredConversation conv)
       ++ [{| contentRole := User; contentText := promptContent |}].
Proof.
  split; [|reflexivity].
  apply Forall_forall. intros t Hin Hm.
  apply filter_In in Hin as [_ Hk].
  apply keptForSubmission_spec in Hk as (H1 & H2 & H3 & H4).
  destruct (text_of_marker _ Hm) as [E|[E|[E|E]]]; congruence.
Qed.

(** C10.  The exclusion is decided by the text alone: a Turn is in the
    filtered conversation exactly when it is in the log and its text is not
    'Listening...', does not begin with the sparkles character, and is
    neither acknowledgement string, whatever its role.  And [sendMessage],
    whatever render [c] it was created at, first removes from the stored log
    every Turn whose text is 'Listening...': the log after the call is the
    filtered log followed by what an accepted submission appends, and a
    rejected submission appends nothing.  Both revisions of [sendMessage] do
    so. *)
Theorem sentinel_text_coupling (conv : list Turn) (t : Turn) (c s : State)
        (txt : jsstring) :
  (In t (filteredConversation conv)
   <-> In t conv
       /\ text t <> Text.listening
       /\ startsWith (text t) [sparkles] = false
       /\ text t <> Text.ackVocab
       /\ text t <> Text.ackRephrase)
  /\ (forall r, keptForSubmission {| role := r; text := text t |}
                = keptForSubmission t)
  /\ (exists added,
        conversation (fst (sendMessage txt c s))
        = filter notListening (conversation s) ++ added
        /\ conversation (fst (Earlier.sendMessage txt c s))
           = filter notListening (conversation s) ++ added
        /\ (truthy (trim txt) = false -> added = []))
  /\ Forall (fun m => forall turn, m = Said turn -> text turn <> Text.listening)
            (filter notListening (conversation s)).
Proof.
  split; [|split; [|split]].
  - unfold filteredConversation. rewrite filter_In, keptForSubmission_spec.
    tauto.
  - intros r. reflexivity.
  - destruct (truthy (trim txt)) eqn:Ht; [destruct (isLoading c) eqn:Hlo|].
    + exists []. rewrite app_nil_r.
      rewrite (sendMessage_rejected_in c s txt (or_intror Hlo)).
      rewrite (earlier_sendMessage_rejected_in c s txt (or_intror Hlo)).
      repeat split.
    + rewrite (sendMessage_accepted_in c s txt Hlo Ht).
      rewrite (earlier_sendMessage_accepted_in c s txt Hlo Ht).
      eexists. split; [reflexivity|]. split; [reflexivity|]. discriminate.
    + exists []. rewrite app_nil_r.
      rewrite (sendMessage_rejected_in c s txt (or_introl Ht)).
      rewrite (earlier_sendMessage_rejected_in c s txt (or_introl Ht)).
      repeat split.
  - apply Forall_forall. intros m Hm turn ->. apply filter_In in Hm as [_ Hm].
    unfold notListening, textIs in Hm. apply negb_true_iff in Hm.
    apply eqb_neq. exact Hm.
Qed.

(** In the first revision the filter compares with the stem of the tips
    marker, which no marker equals, and does not name the acknowledgements:
    there these Turns stay in the request. *)
Lemma first_revision_keeps_tips_marker :
  First.keptForSubmission (Sample.userTurn (First.tipsMarker Sample.hello)) = true
  /\ First.keptForSubmission (Sample.modelTurn Text.ackVocab) = true
  /\ First.keptForSubmission (Sample.userTurn First.rolePlayMarker) = false
  /\ First.lastUserMessage [greetingTurn; Sample.userTurn First.rolePlayMarker]
     = Some (Sample.userTurn First.rolePlayMarker).
Proof. repeat split; vm_compute; reflexivity. Qed.

(* ================================================================== *)
(** * C6: settlement of the request *)
(* ================================================================== *)

(** [speakMessage] in one step: what it leaves and what it issues. *)
Lemma speakMessage_eq (txt : jsstring) (s : State) :
  speakMessage txt s
  = (if synthRef s then
       {| conversation := conversation s;
          message := message s;
          isListening := isListening s;
          isSpeaking := match chunk txt maxUtteranceLength with
                        | [] => false
                        | _ :: _ => if synthSpeaking s then false
                                    else isSpeaking s
                        end;
          isLoading := isLoading s;
          error := error s;
          awaitingFeatureInput := awaitingFeatureInput s;
          recognitionRef := recognitionRef s;
          synthRef := true;
          synthSpeaking := false |}
     else
       {| conversation := conversation s;
          message := message s;
          isListening := isListening s;
          isSpeaking := isSpeaking s;
          isLoading := isLoading s;
          error := Text.errNoSynthesis;
          awaitingFeatureInput := awaitingFeatureInput s;
          recognitionRef := recognitionRef s;
          synthRef := false;
          synthSpeaking := synthSpeaking s |},
     if synthRef s then
       (if synthSpeaking s then [SynthCancel] else [])
       ++ match chunk txt maxUtteranceLength with
          | [] => []
          | c :: rest => [SchedulePlayback (c :: rest)]
          end
     else []).
Proof.
  destruct s as [conv msg li sp lo err aw rr sr ss].
  unfold speakMessage, stopSpeaking. primitives. simpl.
  destruct sr; simpl; [|reflexivity].
  destruct ss; simpl; destruct (chunk txt maxUtteranceLength); reflexivity.
Qed.

(** The settlement with a text to append: the Turn, [speakMessage], the
    flag. *)
Lemma fetchSettled_text (result : ApiResult) (t : jsstring) (s : State) :
  aiResponseText result = Some t ->
  fetchSettled (Returned result) s
  = (fst (setIsLoading false
            (fst (speakMessage t
                    (fst (setConversation
                            (append {| role := Model; text := t |}) s))))),
     snd (speakMessage t s)).
Proof.
  intros H. unfold fetchSettled. rewrite H.
  unfold andThen at 1 2.
  destruct s as [conv msg li sp lo err aw rr sr ss].
  rewrite !speakMessage_eq. unfold setConversation, setIsLoading, append.
  simpl. rewrite speakMessage_eq. simpl. rewrite app_nil_r. reflexivity.
Qed.

(** The settlement with a first part that holds no string. *)
Lemma fetchSettled_textless (result : ApiResult) (s : State) :
  aiResponseText result = None ->
  fetchSettled (Returned result) s
  = ({| conversation :=
          conversation s
          ++ Textless
             :: (if synthRef s
                 then [Said {| role := Model; text := Text.connectionApology |}]
                 else []);
        message := message s;
        isListening := isListening s;
        isSpeaking := (if synthRef s && synthSpeaking s then false
                       else isSpeaking s);
        isLoading := false;
        error := (if synthRef s then Text.errNetwork else Text.errNoSynthesis);
        awaitingFeatureInput := awaitingFeatureInput s;
        recognitionRef := recognitionRef s;
        synthRef := synthRef s;
        synthSpeaking := (if synthRef s && synthSpeaking s then false
                          else synthSpeaking s) |},
     if synthRef s && synthSpeaking s then [SynthCancel] else []).
Proof.
  intros H. unfold fetchSettled. rewrite H.
  destruct s as [conv msg li sp lo err aw rr sr ss].
  unfold stopSpeaking. primitives. simpl.
  destruct sr; simpl; [|reflexivity].
  destruct ss; simpl; rewrite <- app_assoc; reflexivity.
Qed.

Lemma fetchSettled_threw (s : State) :
  fetchSettled Threw s
  = ({| conversation :=
          conversation s
          ++ [Said {| role := Model; text := Text.connectionApology |}];
        message := message s;
        isListening := isListening s;
        isSpeaking := isSpeaking s;
        isLoading := false;
        error := Text.errNetwork;
        awaitingFeatureInput := awaitingFeatureInput s;
        recognitionRef := recognitionRef s;
        synthRef := synthRef s;
        synthSpeaking := synthSpeaking s |}, []).
Proof. destruct s. reflexivity. Qed.

(** A text that is not blank has a word, and so a chunk. *)
Lemma wordsFrom_nil (s : jsstring) :
  forall word, wordsFrom word s = [] -> word = [] /\ blank s = true.
Proof.
  induction s as [|c s IH]; intros word H; simpl in *.
  - destruct word; [split; reflexivity | discriminate].
  - destruct (isWhiteSpace c).
    + destruct word; [|discriminate]. simpl in H.
      destruct (IH [] H) as [_ Hb]. split; [reflexivity | exact Hb].
    + destruct (IH _ H) as [Hw _]. destruct word; discriminate.
Qed.

Lemma chunk_words (txt : jsstring) (maxLen : nat) :
  wordsOfAll (chunk txt maxLen) = wordSequence txt.
Proof.
  rewrite chunk_unfold, packSegments_words. simpl.
  unfold sentenceSegments. rewrite wordsOfAll_filter_nonblank.
  apply split_words. exact reSentenceBreak_separates.
Qed.

Lemma chunkWords_words (txt : jsstring) (maxLen : nat) :
  wordsOfAll (chunkWords txt maxLen) = wordSequence txt.
Proof.
  rewrite chunkWords_unfold, packWords_words. simpl.
  apply split_words. exact reWhitespace_separates.
Qed.

Lemma chunk_nonempty (txt : jsstring) (maxLen : nat) :
  blank txt = false -> chunk txt maxLen <> [].
Proof.
  intros Hb E. pose proof (chunk_words txt maxLen) as H. rewrite E in H.
  symmetry in H. apply wordsFrom_nil in H as [_ H]. congruence.
Qed.

Lemma chunkWords_nonempty (txt : jsstring) (maxLen : nat) :
  blank txt = false -> chunkWords txt maxLen <> [].
Proof.
  intros Hb E. pose proof (chunkWords_words txt maxLen) as H. rewrite E in H.
  symmetry in H. apply wordsFrom_nil in H as [_ H]. congruence.
Qed.

(** C6, as stated, fails: a response body without candidates and without an
    error payload is answered with the fallback apology, and the apology is
    handed to speech output like any reply.  And a body whose first part
    holds no text leaves an entry without text in the log. *)
Lemma fallback_apology_is_spoken :
  aiResponseText Sample.emptyBody = Some Text.fallbackApology
  /\ snd (fetchSettled (Returned Sample.emptyBody) Sample.loadingState)
     = [SchedulePlayback [Text.fallbackApology]]
  /\ firstCandidateText Sample.textlessBody = None
  /\ conversation (fst (fetchSettled (Returned Sample.textlessBody)
                          Sample.loadingState))
     = [Said greetingTurn; Textless; Said (Sample.modelTurn Text.connectionApology)].
Proof. repeat split; vm_compute; reflexivity. Qed.

(** C6, amended.  Whatever the outcome of the request, [isLoading] is false
    afterwards and the log has grown at its end, by one entry or two.
    - The request throws: one model Turn with the connection apology, the
      network advisory, and no command to speech output.
    - A body is returned and the guard on the first part fails: one model
      Turn whose text is "Error: " followed by the message of the error
      payload (or by the unknown-error text), or else the fixed fallback
      apology.  These texts are not blank.
    - A body is returned whose first part holds a string: one model Turn
      with that string as it is, blank or not.
    In the last two cases the text is passed to [speakMessage]: with a
    synthesis object the commands are a cancel if the engine speaks, and the
    chunks of the text if there are any (there are when the text is not
    blank); without one, only the no-synthesis advisory is set.
    - A body is returned whose first part holds no string: an entry without
      text is appended; with a synthesis object [speakMessage] throws after
      [stopSpeaking], so the connection apology and the network advisory
      follow; without one the no-synthesis advisory is set.  Nothing is
      played. *)
Theorem api_settlement (s : State) (outcome : FetchOutcome) :
  isLoading (fst (fetchSettled outcome s)) = false
  /\ (exists added,
        conversation (fst (fetchSettled outcome s)) = conversation s ++ added
        /\ 1 <= length added <= 2)
  /\ (outcome = Threw ->
        conversation (fst (fetchSettled outcome s))
        = conversation s
          ++ [Said {| role := Model; text := Text.connectionApology |}]
        /\ snd (fetchSettled outcome s) = []
        /\ error (fst (fetchSettled outcome s)) = Text.errNetwork)
  /\ (forall result reply, outcome = Returned result ->
        firstCandidateText result = Some reply
        \/ (firstPart result = None /\ apiError result = None
            /\ reply = Text.fallbackApology)
        \/ (firstPart result = None
            /\ exists e, apiError result = Some e
                         /\ reply = Text.apiErrorText (apiErrorMessage e)) ->
        conversation (fst (fetchSettled outcome s))
        = conversation s ++ [Said {| role := Model; text := reply |}]
        /\ snd (fetchSettled outcome s) = snd (speakMessage reply s)
        /\ (synthRef s = true ->
              snd (fetchSettled outcome s)
              = (if synthSpeaking s then [SynthCancel] else [])
                ++ match chunk reply maxUtteranceLength with
                   | [] => []
                   | c :: rest => [SchedulePlayback (c :: rest)]
                   end)
        /\ (synthRef s = false ->
              snd (fetchSettled outcome s) = []
              /\ error (fst (fetchSettled outcome s)) = Text.errNoSynthesis)
        /\ (blank reply = false -> chunk reply maxUtteranceLength <> [])
        /\ (firstPart result = None -> blank reply = false))
  /\ (forall result p, outcome = Returned result ->
        firstPart result = Some p -> partText p = None ->
        conversation (fst (fetchSettled outcome s))
        = conversation s
          ++ Textless
             :: (if synthRef s
                 then [Said {| role := Model; text := Text.connectionApology |}]
                 else [])
        /\ filter isPlayback (snd (fetchSettled outcome s)) = []
        /\ error (fst (fetchSettled outcome s))
           = (if synthRef s then Text.errNetwork else Text.errNoSynthesis)).
Proof.
  assert (Htext : forall result reply,
            firstCandidateText result = Some reply
            \/ (firstPart result = None /\ apiError result = None
                /\ reply = Text.fallbackApology)
            \/ (firstPart result = None
                /\ exists e, apiError result = Some e
                             /\ reply = Text.apiErrorText (apiErrorMessage e)) ->
            aiResponseText result = Some reply).
  { intros result reply. unfold firstCandidateText, aiResponseText.
    intros [H|[(H & He & ->)|(H & e & He & ->)]].
    - destruct (firstPart result); [exact H | discriminate].
    - rewrite H, He. reflexivity.
    - rewrite H, He. reflexivity. }
  split; [|split; [|split; [|split]]].
  - destruct outcome as [|result].
    + rewrite fetchSettled_threw. reflexivity.
    + destruct (aiResponseText result) as [t|] eqn:E.
      * rewrite (fetchSettled_text result t s E). reflexivity.
      * rewrite (fetchSettled_textless result s E). reflexivity.
  - destruct outcome as [|result].
    + rewrite fetchSettled_threw. eexists. split; [reflexivity|]. simpl. lia.
    + destruct (aiResponseText result) as [t|] eqn:E.
      * rewrite (fetchSettled_text result t s E).
        exists [Said {| role := Model; text := t |}].
        split; [|simpl; lia].
        rewrite speakMessage_eq. unfold setConversation, setIsLoading, append.
        destruct (synthRef s); reflexivity.
      * rewrite (fetchSettled_textless result s E).
        eexists. split; [reflexivity|]. destruct (synthRef s); simpl; lia.
  - intros ->. rewrite fetchSettled_threw. repeat split.
  - intros result reply -> H.
    rewrite (fetchSettled_text result reply s (Htext result reply H)).
    cbn [fst snd]. rewrite !speakMessage_eq.
    unfold setConversation, setIsLoading, append. cbn [fst snd synthRef].
    split; [destruct (synthRef s); reflexivity|].
    split; [reflexivity|].
    split; [intros ->; reflexivity|].
    split; [intros ->; split; reflexivity|].
    split; [apply chunk_nonempty|].
    intros Hnone. unfold firstCandidateText in H. rewrite Hnone in H.
    destruct H as [H|[(_ & _ & ->)|(_ & e & _ & ->)]];
      [discriminate | reflexivity | reflexivity].
  - intros result p -> Hp Hnone.
    assert (E : aiResponseText result = None).
    { unfold aiResponseText. rewrite Hp. exact Hnone. }
    rewrite (fetchSettled_textless result s E). cbn [fst snd conversation error].
    repeat split. destruct (synthRef s && synthSpeaking s); reflexivity.
Qed.

(** The amended C6 on a body with neither candidates nor error, received
    while loading. *)
Lemma api_settlement_witness :
  isLoading (fst (fetchSettled (Returned Sample.emptyBody) Sample.loadingState))
  = false
  /\ conversation (fst (fetchSettled (Returned Sample.emptyBody) Sample.loadingState))
     = [Said greetingTurn; Said (Sample.modelTurn Text.fallbackApology)]
  /\ snd (fetchSettled (Returned Sample.emptyBody) Sample.loadingState)
     = [SchedulePlayback [Text.fallbackApology]].
Proof.
  destruct (api_settlement Sample.loadingState (Returned Sample.emptyBody))
    as (A & _ & _ & C & _).
  destruct (C Sample.emptyBody Text.fallbackApology eq_refl) as (B & _ & D & _).
  { right. left. repeat split. }
  split; [exact A|]. split; [exact B|].
  rewrite (D eq_refl). vm_compute. reflexivity.
Defined.

(* ================================================================== *)
(** * C8: a synthesis error ends the playback *)
(* ================================================================== *)

Lemma skipn_nth_error (A : Type) (l : list A) :
  forall i c, nth_error l i = Some c -> skipn i l = c :: skipn (S i) l.
Proof.
  induction l as [|x l IH]; intros [|i] c H; simpl in *; try discriminate.
  - injection H as ->. reflexivity.
  - apply IH. exact H.
Qed.

Lemma nth_error_in_range (A : Type) (l : list A) (i : nat) :
  i < length l -> exists c, nth_error l i = Some c.
Proof.
  intros H. destruct (nth_error l i) as [c|] eqn:E; [exists c; reflexivity|].
  apply nth_error_None in E. lia.
Qed.

Ltac playback :=
  unfold utteranceOnStart, utteranceOnEnd, utteranceOnError,
    Earlier.utteranceOnStart, Earlier.utteranceOnError, advance;
  primitives; simpl.

(** The playback up to the first failing utterance: the chunks before it
    and the failing chunk are submitted, nothing after it. *)
Lemma play_until_error (chs : list jsstring) (started : bool) (e : jsstring)
      (later : list UtteranceOutcome) :
  forall k i s,
    i + k < length chs ->
    snd (play (repeat Spoken k ++ Failed started e :: later)
              {| chunks := chs; currentChunkIndex := i |} s)
    = map SynthSpeak (firstn (S k) (skipn i chs))
    /\ isSpeaking (fst (play (repeat Spoken k ++ Failed started e :: later)
                             {| chunks := chs; currentChunkIndex := i |} s)) = false
    /\ error (fst (play (repeat Spoken k ++ Failed started e :: later)
                        {| chunks := chs; currentChunkIndex := i |} s))
       = Text.errSynthesis e.
Proof.
  induction k as [|k IH]; intros i s Hi.
  - destruct (nth_error_in_range _ chs i) as [c Hc]; [lia|].
    rewrite (skipn_nth_error _ chs i c Hc). simpl. rewrite Hc.
    destruct started; playback; repeat split.
  - destruct (nth_error_in_range _ chs i) as [c Hc]; [lia|].
    rewrite (skipn_nth_error _ chs i c Hc).
    simpl repeat. simpl app. simpl play. rewrite Hc.
    playback.
    assert (Hnext : (S i <? length chs) = true) by (apply Nat.ltb_lt; lia).
    rewrite Hnext.
    match goal with
    | |- context [play ?o ?p ?s'] =>
        destruct (IH (S i) s' ltac:(lia)) as (A & B & C);
        destruct (play o p s') as [s2 c2]
    end.
    simpl in *. rewrite A. repeat split; assumption.
Qed.

Lemma earlier_play_until_error (chs : list jsstring) (started : bool) (e : jsstring)
      (later : list UtteranceOutcome) :
  forall k i s,
    i + k < length chs ->
    snd (Earlier.play (repeat Spoken k ++ Failed started e :: later)
                      {| chunks := chs; currentChunkIndex := i |} s)
    = map SynthSpeak (firstn (S k) (skipn i chs))
    /\ isSpeaking (fst (Earlier.play (repeat Spoken k ++ Failed started e :: later)
                          {| chunks := chs; currentChunkIndex := i |} s)) = false
    /\ error (fst (Earlier.play (repeat Spoken k ++ Failed started e :: later)
                     {| chunks := chs; currentChunkIndex := i |} s))
       = Earlier.errSynthesis e.
Proof.
  induction k as [|k IH]; intros i s Hi.
  - destruct (nth_error_in_range _ chs i) as [c Hc]; [lia|].
    rewrite (skipn_nth_error _ chs i c Hc). simpl. rewrite Hc.
    destruct started; playback; repeat split.
  - destruct (nth_error_in_range _ chs i) as [c Hc]; [lia|].
    rewrite (skipn_nth_error _ chs i c Hc).
    simpl repeat. simpl app. simpl Earlier.play. rewrite Hc.
    playback.
    assert (Hnext : (S i <? length chs) = true) by (apply Nat.ltb_lt; lia).
    rewrite Hnext.
    match goal with
    | |- context [Earlier.play ?o ?p ?s'] =>
        destruct (IH (S i) s' ltac:(lia)) as (A & B & C);
        destruct (Earlier.play o p s') as [s2 c2]
    end.
    simpl in *. rewrite A. repeat split; assumption.
Qed.

(** C8.  When the utterance of chunk number [k] (counted from 0) fails,
    after the chunks before it were spoken, the engine has been given the
    chunks 0 to [k] and no other: whatever would have followed is not
    submitted and the failed chunk is not submitted again.  [isSpeaking] is
    false and the advisory names the error.  The error handler itself issues
    no command.  This holds for both revisions of the playback. *)
Theorem synthesis_error_aborts (chs : list jsstring) (k : nat) (started : bool)
        (e : jsstring) (later : list UtteranceOutcome) (s : State)
        (Hk : k < length chs) :
  let outcomes := repeat Spoken k ++ Failed started e :: later in
  let p := {| chunks := chs; currentChunkIndex := 0 |} in
  (snd (play outcomes p s) = map SynthSpeak (firstn (S k) chs)
   /\ isSpeaking (fst (play outcomes p s)) = false
   /\ error (fst (play outcomes p s)) = Text.errSynthesis e
   /\ snd (utteranceOnError e s) = []
   /\ isSpeaking (fst (utteranceOnError e s)) = false)
  /\
  (snd (Earlier.play outcomes p s) = map SynthSpeak (firstn (S k) chs)
   /\ isSpeaking (fst (Earlier.play outcomes p s)) = false
   /\ error (fst (Earlier.play outcomes p s)) = Earlier.errSynthesis e
   /\ snd (Earlier.utteranceOnError e s) = []
   /\ isSpeaking (fst (Earlier.utteranceOnError e s)) = false).
Proof.
  intros outcomes p.
  destruct (play_until_error chs started e later k 0 s) as (A & B & C); [lia|].
  destruct (earlier_play_until_error chs started e later k 0 s) as (A' & B' & C');
    [lia|].
  split; repeat split; assumption.
Qed.

(** C8 on three chunks of which the second fails: the third is never
    submitted. *)
Lemma synthesis_error_aborts_witness :
  1 < length (chunks Sample.threeChunks)
  /\ snd (play [Spoken; Failed true (js "interrupted"); Spoken]
               Sample.threeChunks initialState)
     = [SynthSpeak (js "one"); SynthSpeak (js "two")]
  /\ isSpeaking (fst (play [Spoken; Failed true (js "interrupted"); Spoken]
                           Sample.threeChunks initialState)) = false.
Proof.
  assert (H : 1 < length (chunks Sample.threeChunks)) by (simpl; lia).
  destruct (synthesis_error_aborts (chunks Sample.threeChunks) 1 true
              (js "interrupted") [Spoken] initialState H)
    as ((A & B & _) & _).
  split; [exact H|]. split; [exact A | exact B].
Defined.

(* ================================================================== *)
(** * C9: pronunciation tips *)
(* ================================================================== *)

Lemma find_app (A : Type) (f : A -> bool) (l1 l2 : list A) :
  find f (l1 ++ l2)
  = match find f l1 with Some x => Some x | None => find f l2 end.
Proof.
  induction l1 as [|x l1 IH]; simpl; [reflexivity|].
  destruct (f x); [reflexivity | exact IH].
Qed.

Lemma find_rev_none (A : Type) (f : A -> bool) (l : list A) :
  find f (rev l) = None <-> existsb f l = false.
Proof.
  induction l as [|x l IH]; simpl; [tauto|].
  rewrite find_app. simpl. rewrite orb_false_iff.
  destruct (find f (rev l)) as [y|].
  - split; [discriminate|]. intros [_ H]. apply IH in H. discriminate.
  - destruct (f x); split; try discriminate.
    + intros [H _]. discriminate.
    + intros _. split; [reflexivity | apply IH; reflexivity].
    + intros _. reflexivity.
Qed.

(** [find] on the reversed copy gives the last element that qualifies. *)
Lemma find_rev_last (A : Type) (f : A -> bool) (l : list A) (x : A) :
  find f (rev l) = Some x ->
  exists before after,
    l = before ++ x :: after /\ f x = true /\ existsb f after = false.
Proof.
  induction l as [|a l IH]; simpl; [discriminate|].
  rewrite find_app. simpl.
  destruct (find f (rev l)) as [y|] eqn:E.
  - intros [= ->]. destruct (IH eq_refl) as (before & after & Hl & Hx & Ha).
    exists (a :: before), after. rewrite Hl. repeat split; assumption.
  - destruct (f a) eqn:Fa; [|discriminate].
    intros [= ->]. exists [], l. repeat split; [exact Fa|].
    apply find_rev_none. exact E.
Qed.

(** The test of the handler against the markers: it takes the user Turns
    that are no marker and do not begin with the sparkles character. *)
Lemma actualUserMessage_spec (t : Turn) :
  actualUserMessage (Said t) = true
  <-> nonMarkerUserTurn t /\ startsWith (text t) [sparkles] = false.
Proof.
  unfold actualUserMessage, nonMarkerUserTurn, markerTurn.
  rewrite !andb_true_iff, !negb_true_iff, eqb_neq.
  destruct t as [[|] txt]; simpl.
  - split.
    + intros [[_ Hl] Hs]. split; [|exact Hs]. split; [reflexivity|].
      intros [[_ [H|[[q H]|[H|[H|H]]]]]|[H _]];
        try discriminate H; subst txt;
        try (apply Hl; reflexivity); discriminate Hs.
    + intros [[_ Hm] Hs]. repeat split; [|exact Hs].
      intros ->. apply Hm. left. split; [reflexivity|]. left. reflexivity.
  - split.
    + intros [[H _] _]. discriminate H.
    + intros [[H _] _]. discriminate H.
Qed.

Lemma lastUserMessage_none (conv : list Entry) :
  lastUserMessage conv = None <-> existsb actualUserMessage conv = false.
Proof.
  unfold lastUserMessage. rewrite <- find_rev_none.
  destruct (find actualUserMessage (rev conv)) as [[t|]|] eqn:E.
  - split; discriminate.
  - apply find_some in E as [_ E]. discriminate E.
  - tauto.
Qed.

Lemma lastUserMessage_last (conv : list Entry) (last : Turn) :
  lastUserMessage conv = Some last ->
  exists before after,
    conv = before ++ Said last :: after
    /\ actualUserMessage (Said last) = true
    /\ existsb actualUserMessage after = false.
Proof.
  unfold lastUserMessage.
  destruct (find actualUserMessage (rev conv)) as [[t|]|] eqn:E;
    try discriminate.
  intros [= ->]. apply find_rev_last. exact E.
Qed.

(** What [getPronunciationTips] does when it finds a Turn to quote. *)
Lemma getPronunciationTips_quotes (s : State) (last : Turn) :
  busy s = false -> lastUserMessage (conversation s) = Some last ->
  invoke getPronunciationTips s
  = ({| conversation :=
          conversation s
          ++ [Said {| role := User; text := Text.tipsMarker (text last) |}];
        message := message s;
        isListening := isListening s;
        isSpeaking := isSpeaking s;
        isLoading := true;
        error := [];
        awaitingFeatureInput := awaitingFeatureInput s;
        recognitionRef := recognitionRef s;
        synthRef := synthRef s;
        synthSpeaking := synthSpeaking s |},
     requestOf (conversation s) (Text.tipsPrompt (text last))).
Proof.
  intros Hidle Hlast. unfold invoke, getPronunciationTips.
  rewrite Hidle, Hlast.
  destruct s as [conv msg li sp lo err aw rr sr ss].
  primitives. rewrite sendPromptToGemini_eq. reflexivity.
Qed.

Lemma getPronunciationTips_refuses (s : State) :
  busy s = false -> lastUserMessage (conversation s) = None ->
  invoke getPronunciationTips s
  = ({| conversation := conversation s;
        message := message s;
        isListening := isListening s;
        isSpeaking := isSpeaking s;
        isLoading := isLoading s;
        error := Text.errNoUserMessage;
        awaitingFeatureInput := awaitingFeatureInput s;
        recognitionRef := recognitionRef s;
        synthRef := synthRef s;
        synthSpeaking := synthSpeaking s |}, []).
Proof.
  intros Hidle Hlast. unfold invoke, getPronunciationTips.
  rewrite Hidle, Hlast.
  destruct s as [conv msg li sp lo err aw rr sr ss]. reflexivity.
Qed.

(** C9, as stated, fails: a text that the user typed with the sparkles
    character in front is a user Turn and no marker, and yet the handler
    finds nothing to quote.  The text is sent, the request fails, and the
    button of the pronunciation tips (enabled: the log holds a user Turn)
    gives the advisory only. *)
Lemma sparkled_user_turn_is_skipped :
  nonMarkerUserTurn (Sample.userTurn Sample.sparkledHi)
  /\ exists w,
       run [Typing Sample.sparkledHi; ClickSend; FetchSettles Threw] initialWorld
       = Some w
       /\ In (Said (Sample.userTurn Sample.sparkledHi)) (conversation (app w))
       /\ busy (app w) = false
       /\ enabled ClickPronunciationTips w = true
       /\ snd (invoke getPronunciationTips (app w)) = []
       /\ conversation (fst (invoke getPronunciationTips (app w)))
          = conversation (app w)
       /\ error (fst (invoke getPronunciationTips (app w)))
          = Text.errNoUserMessage.
Proof.
  split.
  - split; [reflexivity|].
    intros [[_ [H|[[q H]|[H|[H|H]]]]]|[H _]]; discriminate H.
  - destruct (run [Typing Sample.sparkledHi; ClickSend; FetchSettles Threw]
                initialWorld) as [w|] eqn:E; [|vm_compute in E; discriminate].
    exists w. split; [reflexivity|].
    vm_compute in E. injection E as <-.
    split; [right; left; reflexivity|].
    repeat split.
Qed.

(** C9, amended.  With no activity flag set and no feature awaited:
    - when every user Turn of the log is a marker or begins with the
      sparkles character (so when the log holds no non-marker user Turn, as
      the log of the seeded greeting), the handler sets the advisory, appends
      nothing and sends nothing;
    - otherwise, with [last] the last user Turn of the log that is no marker
      and does not begin with the sparkles character, it appends the marker
      Turn that quotes the text of [last], sets [isLoading] and sends the
      tips template around that text after the Turns of the log, without
      touching the feature mode; nothing is sent when the log holds an entry
      without a text. *)
Theorem pronunciation_tips (s : State) (Hidle : busy s = false) :
  ((forall t, In (Said t) (conversation s) -> nonMarkerUserTurn t ->
              startsWith (text t) [sparkles] = true) ->
     snd (invoke getPronunciationTips s) = []
     /\ conversation (fst (invoke getPronunciationTips s)) = conversation s
     /\ error (fst (invoke getPronunciationTips s)) = Text.errNoUserMessage)
  /\ ((exists t, In (Said t) (conversation s) /\ nonMarkerUserTurn t
                 /\ startsWith (text t) [sparkles] = false) ->
      exists before last after,
        conversation s = before ++ Said last :: after
        /\ nonMarkerUserTurn last
        /\ startsWith (text last) [sparkles] = false
        /\ (forall t, In (Said t) after -> nonMarkerUserTurn t ->
                      startsWith (text t) [sparkles] = true)
        /\ conversation (fst (invoke getPronunciationTips s))
           = conversation s
             ++ [Said {| role := User; text := Text.tipsMarker (text last) |}]
        /\ markerTurn {| role := User; text := Text.tipsMarker (text last) |}
        /\ (forall turns, turnsOf (conversation s) = Some turns ->
              snd (invoke getPronunciationTips s)
              = [Fetch (chatHistory turns (Text.tipsPrompt (text last)))])
        /\ (In Textless (conversation s) ->
              snd (invoke getPronunciationTips s) = [])
        /\ isLoading (fst (invoke getPronunciationTips s)) = true
        /\ awaitingFeatureInput (fst (invoke getPronunciationTips s))
           = awaitingFeatureInput s)
  /\ (forall t, In (Said t) [Said greetingTurn] -> ~ nonMarkerUserTurn t).
Proof.
  split; [|split].
  - intros Hnone.
    assert (E : lastUserMessage (conversation s) = None).
    { destruct (lastUserMessage (conversation s)) as [last|] eqn:E;
        [|reflexivity].
      destruct (lastUserMessage_last _ _ E) as (before & after & Hc & Hl & _).
      apply actualUserMessage_spec in Hl as [Hn Hs].
      rewrite Hnone in Hs; [discriminate| |exact Hn].
      rewrite Hc. apply in_or_app. right. left. reflexivity. }
    rewrite (getPronunciationTips_refuses s Hidle E). repeat split.
  - intros (t & Hin & Hn & Hs).
    destruct (lastUserMessage (conversation s)) as [last|] eqn:E.
    + destruct (lastUserMessage_last _ _ E) as (before & after & Hc & Hl & Ha).
      apply actualUserMessage_spec in Hl as [Hln Hls].
      exists before, last, after.
      rewrite (getPronunciationTips_quotes s last Hidle E).
      cbn [fst snd conversation isLoading awaitingFeatureInput].
      split; [exact Hc|]. split; [exact Hln|]. split; [exact Hls|].
      split.
      { intros t' Hin' Hn'.
        destruct (startsWith (text t') [sparkles]) eqn:Hs'; [reflexivity|].
        assert (Hact : actualUserMessage (Said t') = true)
          by (apply actualUserMessage_spec; split; assumption).
        assert (Hex : existsb actualUserMessage after = true).
        { apply existsb_exists. exists (Said t'). split; assumption. }
        congruence. }
      split; [reflexivity|].
      split; [left; split; [reflexivity|]; right; left; eexists; reflexivity|].
      split; [intros turns Hturns; apply requestOf_some; exact Hturns|].
      split; [intros Hin'; apply requestOf_none; exact Hin'|].
      split; reflexivity.
    + apply lastUserMessage_none in E.
      assert (Hex : existsb actualUserMessage (conversation s) = true).
      { apply existsb_exists. exists (Said t). split; [exact Hin|].
        apply actualUserMessage_spec. split; assumption. }
      congruence.
  - intros t [H|[]] [Hr _]. injection H as <-. discriminate Hr.
Qed.

(** The amended C9 on a log with one exchange ("Good morning" and its
    reply) followed by the marker of a role-play, its reply and a listening
    placeholder: "Good morning" is quoted.  And on the log of the seeded
    greeting. *)
Lemma pronunciation_tips_witness :
  busy Sample.afterMarkers = false
  /\ snd (invoke getPronunciationTips initialState) = []
  /\ conversation (fst (invoke getPronunciationTips initialState))
     = [Said greetingTurn]
  /\ conversation (fst (invoke getPronunciationTips Sample.afterMarkers))
     = conversation Sample.afterMarkers
       ++ [Said (Sample.userTurn (Text.tipsMarker Sample.goodMorning))]
  /\ snd (invoke getPronunciationTips Sample.afterMarkers)
     = [Fetch (chatHistory
                 [greetingTurn; Sample.userTurn Sample.goodMorning;
                  Sample.modelTurn Sample.hello;
                  Sample.userTurn Text.rolePlayMarker;
                  Sample.modelTurn Sample.hello;
                  Sample.userTurn Text.listening]
                 (Text.tipsPrompt Sample.goodMorning))].
Proof.
  assert (H0 : busy initialState = false) by reflexivity.
  assert (H1 : busy Sample.afterMarkers = false) by reflexivity.
  assert (Hgood : nonMarkerUserTurn (Sample.userTurn Sample.goodMorning)).
  { split; [reflexivity|].
    intros [[_ [H|[[q H]|[H|[H|H]]]]]|[H _]]; discriminate H. }
  destruct (pronunciation_tips initialState H0) as (A & _ & _).
  destruct A as (A1 & A2 & _).
  { intros t [H|[]] [Hr _]. injection H as <-. discriminate Hr. }
  destruct (pronunciation_tips Sample.afterMarkers H1) as (_ & B & _).
  destruct B as (before & last & after & Hc & Hl & Hs & Ha & C & _ & F & _).
  { exists (Sample.userTurn Sample.goodMorning).
    split; [right; left; reflexivity|]. split; [exact Hgood | reflexivity]. }
  assert (E : last = Sample.userTurn Sample.goodMorning).
  { destruct Hl as [Hr Hm].
    assert (Hconv : conversation Sample.afterMarkers
                    = [Said greetingTurn; Said (Sample.userTurn Sample.goodMorning);
                       Said (Sample.modelTurn Sample.hello);
                       Said (Sample.userTurn Text.rolePlayMarker);
                       Said (Sample.modelTurn Sample.hello);
                       Said (Sample.userTurn Text.listening)]) by reflexivity.
    rewrite Hconv in Hc. clear - Hc Hr Hm Hs.
    destruct before as [|b0 [|b1 [|b2 [|b3 [|b4 [|b5 before]]]]]];
      simpl in Hc; inversion Hc; subst;
      try reflexivity; try discriminate Hr;
      try (vm_compute in Hs; discriminate Hs).
    - exfalso. apply Hm. left. split; [reflexivity|]. left. reflexivity.
    - destruct before; discriminate. }
  subst last.
  split; [exact H1|]. split; [exact A1|]. split; [exact A2|].
  split; [exact C|]. apply F. reflexivity.
Defined.

(** C10 on a log with the placeholder and one genuine user Turn: the
    genuine Turn is kept, the placeholder is not. *)
Lemma sentinel_text_coupling_witness :
  In (Sample.userTurn Sample.goodMorning)
     (filteredConversation
        [greetingTurn; Sample.userTurn Text.listening;
         Sample.userTurn Sample.goodMorning])
  /\ ~ In (Sample.userTurn Text.listening)
          (filteredConversation
             [greetingTurn; Sample.userTurn Text.listening;
              Sample.userTurn Sample.goodMorning]).
Proof.
  split.
  - destruct (sentinel_text_coupling
                [greetingTurn; Sample.userTurn Text.listening;
                 Sample.userTurn Sample.goodMorning]
                (Sample.userTurn Sample.goodMorning) initialState initialState [])
      as ((_ & A) & _).
    apply A. split; [right; right; left; reflexivity|].
    repeat split; try reflexivity; intros E; vm_compute in E; discriminate.
  - destruct (sentinel_text_coupling
                [greetingTurn; Sample.userTurn Text.listening;
                 Sample.userTurn Sample.goodMorning]
                (Sample.userTurn Text.listening) initialState initialState [])
      as ((A & _) & _).
    intros H. apply A in H as (_ & H & _). apply H. reflexivity.
Defined.

(* ================================================================== *)
(** * Further properties of the code *)
(* ================================================================== *)

(** ** The choice of the voice *)

Lemma selectVoiceFrom_spec (voices : list Voices.Voice) :
  forall acc,
    Voices.selectVoiceFrom acc voices
    = match find (fun v => Voices.isBritish v && Voices.isGoogleUK v) voices with
      | Some v => Some v
      | None =>
          match find Voices.isBritish (rev voices) with
          | Some v => Some v
          | None => acc
          end
      end.
Proof.
  induction voices as [|v voices IH]; intros acc; simpl; [reflexivity|].
  rewrite find_app. simpl.
  destruct (Voices.isBritish v) eqn:B; simpl.
  - destruct (Voices.isGoogleUK v); [reflexivity|].
    rewrite IH.
    destruct (find (fun v0 => Voices.isBritish v0 && Voices.isGoogleUK v0) voices);
      [reflexivity|].
    destruct (find Voices.isBritish (rev voices)); reflexivity.
  - rewrite IH.
    destruct (find (fun v0 => Voices.isBritish v0 && Voices.isGoogleUK v0) voices);
      [reflexivity|].
    destruct (find Voices.isBritish (rev voices)); reflexivity.
Qed.

(** X1.  The voice loop of the current [speakMessage] picks the first voice
    that has the locale en-GB and the preferred name; when no voice has both,
    it picks the last voice of locale en-GB; it picks none exactly when no
    voice has the locale.  A voice it picks is in the list and has the
    locale en-GB. *)
Theorem voice_choice (voices : list Voices.Voice) :
  Voices.selectVoice voices
  = match find (fun v => Voices.isBritish v && Voices.isGoogleUK v) voices with
    | Some v => Some v
    | None => find Voices.isBritish (rev voices)
    end
  /\ (Voices.selectVoice voices = None <-> existsb Voices.isBritish voices = false)
  /\ (forall v, Voices.selectVoice voices = Some v ->
        In v voices /\ Voices.voiceLang v = Voices.enGB).
Proof.
  assert (E : Voices.selectVoice voices
              = match find (fun v => Voices.isBritish v && Voices.isGoogleUK v) voices with
                | Some v => Some v
                | None => find Voices.isBritish (rev voices)
                end).
  { unfold Voices.selectVoice. rewrite selectVoiceFrom_spec.
    destruct (find (fun v => Voices.isBritish v && Voices.isGoogleUK v) voices);
      [reflexivity|].
    destruct (find Voices.isBritish (rev voices)); reflexivity. }
  split; [exact E|]. split.
  - rewrite E.
    destruct (find (fun v => Voices.isBritish v && Voices.isGoogleUK v) voices)
      as [v|] eqn:F.
    + split; [discriminate|]. intros H. apply find_some in F as [Hin Hv].
      apply andb_true_iff in Hv as [Hv _].
      assert (existsb Voices.isBritish voices = true)
        by (apply existsb_exists; exists v; split; assumption).
      congruence.
    + apply find_rev_none.
  - intros v H. rewrite E in H.
    destruct (find (fun v => Voices.isBritish v && Voices.isGoogleUK v) voices)
      as [v0|] eqn:F.
    + injection H as <-. apply find_some in F as [Hin Hv].
      apply andb_true_iff in Hv as [Hv _].
      split; [exact Hin | apply eqb_eq; exact Hv].
    + apply find_some in H as [Hin Hv].
      split; [apply in_rev; exact Hin | apply eqb_eq; exact Hv].
Qed.

(** X1 on two British voices of which the second has the preferred name. *)
Lemma voice_choice_witness :
  Voices.selectVoice [Fixture.plainVoice; Fixture.googleVoice]
  = Some Fixture.googleVoice
  /\ In Fixture.googleVoice [Fixture.plainVoice; Fixture.googleVoice]
  /\ Voices.voiceLang Fixture.googleVoice = Voices.enGB.
Proof.
  assert (H : Voices.selectVoice [Fixture.plainVoice; Fixture.googleVoice]
              = Some Fixture.googleVoice) by reflexivity.
  destruct (voice_choice [Fixture.plainVoice; Fixture.googleVoice]) as (_ & _ & A).
  destruct (A Fixture.googleVoice H) as [B C].
  split; [exact H|]. split; [exact B | exact C].
Defined.

(** ** The chunks against the sentences *)

Lemma join_cons (sep x : jsstring) (l : list jsstring) :
  l <> [] -> join sep (x :: l) = x ++ sep ++ join sep l.
Proof. destruct l; [contradiction | reflexivity]. Qed.

(** Two neighbours joined by the separator read like their join. *)
Lemma join_merge (sep a b : jsstring) (before after : list jsstring) :
  join sep (before ++ (a ++ sep ++ b) :: after)
  = join sep (before ++ a :: b :: after).
Proof.
  induction before as [|x before IH].
  - change (join sep ((a ++ sep ++ b) :: after) = join sep (a :: b :: after)).
    destruct after as [|y after].
    + reflexivity.
    + rewrite (join_cons sep (a ++ sep ++ b)) by discriminate.
      rewrite (join_cons sep a) by discriminate.
      rewrite (join_cons sep b) by discriminate.
      rewrite <- !app_assoc. reflexivity.
  - change (join sep (x :: (before ++ (a ++ sep ++ b) :: after))
            = join sep (x :: (before ++ a :: b :: after))).
    rewrite (join_cons sep x (before ++ (a ++ sep ++ b) :: after))
      by (destruct before; discriminate).
    rewrite (join_cons sep x (before ++ a :: b :: after))
      by (destruct before; discriminate).
    rewrite IH. reflexivity.
Qed.

Lemma pushChunk_running (chunks : list jsstring) (cur : jsstring) :
  cur = [] \/ (headNonWs cur = true /\ lastNonWs cur = true) ->
  pushChunk chunks cur = chunks ++ runningChunk cur.
Proof.
  intros [->|[Hh Hl]].
  - unfold pushChunk, runningChunk. simpl. rewrite app_nil_r. reflexivity.
  - unfold pushChunk, runningChunk. rewrite (trim_fixed cur Hh Hl). 
    destruct cur; [discriminate | reflexivity].
Qed.

Lemma packSegments_join (maxLen : nat) (segs : list jsstring) :
  forall chunks cur,
    cur = [] \/ (headNonWs cur = true /\ lastNonWs cur = true) ->
    join [space] (pushChunk (fst (packSegments maxLen segs chunks cur))
                            (snd (packSegments maxLen segs chunks cur)))
    = join [space] (chunks ++ runningChunk cur ++ filter truthy (map trim segs)).
Proof.
  induction segs as [|s segs IH]; intros chunks cur Hcur.
  - simpl. rewrite app_nil_r. rewrite pushChunk_running by exact Hcur. reflexivity.
  - simpl packSegments. simpl map. simpl filter.
    destruct (trim s) as [|c seg] eqn:Es.
    + simpl. apply IH. exact Hcur.
    + assert (Hne : trim s <> []) by (rewrite Es; discriminate).
      destruct (trim_ends s Hne) as [Hh Hl]. rewrite Es in Hh, Hl.
      change (length (c :: seg) =? 0) with false. cbv iota.
      change (truthy (c :: seg)) with true. cbv iota.
      destruct (length (trim (cur ++ space :: c :: seg)) <=? maxLen).
      * rewrite IH.
        -- destruct cur as [|d cur].
           ++ reflexivity.
           ++ apply (join_merge [space] (d :: cur) (c :: seg) chunks).
        -- right. destruct Hcur as [->|[Hch Hcl]].
           ++ simpl. split; assumption.
           ++ destruct cur as [|d cur]; [discriminate|].
              split.
              ** apply headNonWs_app. exact Hch.
              ** apply lastNonWs_app. apply (lastNonWs_app [space]). exact Hl.
      * rewrite IH by (right; split; assumption).
        rewrite pushChunk_running by exact Hcur.
        rewrite <- app_assoc. reflexivity.
Qed.

Lemma sentenceAtoms_truthy (l : list jsstring) :
  filter truthy (map trim (filter (fun s => 0 <? length (trim s)) l))
  = map trim (filter (fun s => 0 <? length (trim s)) l).
Proof.
  induction l as [|x l IH]; [reflexivity|]. simpl.
  destruct (trim x) as [|c t] eqn:E; simpl; [exact IH|].
  rewrite E. simpl. rewrite IH. reflexivity.
Qed.

Lemma packSegments_count (maxLen : nat) (segs : list jsstring) :
  forall chunks cur,
    length (pushChunk (fst (packSegments maxLen segs chunks cur))
                      (snd (packSegments maxLen segs chunks cur)))
    <= length chunks + (if truthy (trim cur) then 1 else 0) + length segs.
Proof.
  induction segs as [|s segs IH]; intros chunks cur; simpl.
  - unfold pushChunk. destruct (truthy (trim cur)).
    + rewrite length_app. simpl. lia.
    + lia.
  - destruct (length (trim s) =? 0).
    + specialize (IH chunks cur). lia.
    + destruct (length (trim (cur ++ space :: trim s)) <=? maxLen).
      * specialize (IH chunks
                       (cur ++ (if truthy cur then [space] else []) ++ trim s)).
        destruct (truthy (trim (cur ++ (if truthy cur then [space] else [])
                                    ++ trim s)));
          destruct (truthy (trim cur)); lia.
      * specialize (IH (pushChunk chunks cur) (trim s)).
        assert (length (pushChunk chunks cur)
                = length chunks + (if truthy (trim cur) then 1 else 0)).
        { unfold pushChunk. destruct (truthy (trim cur)).
          - rewrite length_app. reflexivity.
          - lia. }
        destruct (truthy (trim (trim s))); lia.
Qed.

(** X2.  Joined by single spaces, the chunks of a text read exactly like
    its trimmed sentences joined by single spaces: chunking changes no code
    unit of a sentence, whatever the maximal length, and two maximal lengths
    give chunk lists with the same joined text.  There are never more chunks
    than sentences. *)
Theorem chunks_keep_sentences (txt : jsstring) (maxLen otherLen : nat) :
  join [space] (chunk txt maxLen) = join [space] (sentenceAtoms txt)
  /\ join [space] (chunk txt maxLen) = join [space] (chunk txt otherLen)
  /\ length (chunk txt maxLen) <= length (sentenceAtoms txt).
Proof.
  assert (E : forall n,
             join [space] (chunk txt n) = join [space] (sentenceAtoms txt)).
  { intros n. rewrite chunk_unfold, packSegments_join by (left; reflexivity).
    simpl. unfold sentenceAtoms, sentenceSegments.
    rewrite sentenceAtoms_truthy. reflexivity. }
  split; [apply E|]. split; [rewrite !E; reflexivity|].
  rewrite chunk_unfold.
  pose proof (packSegments_count maxLen (sentenceSegments txt) [] []) as H.
  simpl in H. unfold sentenceAtoms. rewrite length_map. exact H.
Qed.

(** ** [speakMessage] *)

(** X3.  [speakMessage] of the current revision.  Without a synthesis
    object it only sets the advisory.  With one, it first cancels the speech
    in progress: [synth.cancel()] is issued exactly when the engine reports
    speaking, and the engine does not speak afterwards.  Then a text of
    white space only schedules nothing and sets [isSpeaking] to false; any
    other text schedules exactly one playback, of the chunks of the text,
    which are not empty.  These are all the commands, in this order.  The
    log and the flags [isLoading] and [isListening] are never touched. *)
Theorem speakMessage_schedules (s : State) (txt : jsstring) :
  (synthRef s = false -> speakMessage txt s = setError Text.errNoSynthesis s)
  /\ (synthRef s = true -> blank txt = true ->
        snd (speakMessage txt s)
        = (if synthSpeaking s then [SynthCancel] else [])
        /\ isSpeaking (fst (speakMessage txt s)) = false)
  /\ (synthRef s = true -> blank txt = false ->
        chunk txt maxUtteranceLength <> []
        /\ snd (speakMessage txt s)
           = (if synthSpeaking s then [SynthCancel] else [])
             ++ [SchedulePlayback (chunk txt maxUtteranceLength)]
        /\ isSpeaking (fst (speakMessage txt s))
           = (if synthSpeaking s then false else isSpeaking s))
  /\ (synthRef s = true -> synthSpeaking (fst (speakMessage txt s)) = false)
  /\ conversation (fst (speakMessage txt s)) = conversation s
  /\ isLoading (fst (speakMessage txt s)) = isLoading s
  /\ isListening (fst (speakMessage txt s)) = isListening s.
Proof.
  rewrite speakMessage_eq.
  split; [|split; [|split; [|split]]].
  - intros H. rewrite H. destruct s. simpl in H. subst. reflexivity.
  - intros -> Hb.
    assert (E : chunk txt maxUtteranceLength = []).
    { unfold chunk. rewrite (sentenceSegments_blank txt Hb). reflexivity. }
    rewrite E. cbn [fst snd isSpeaking]. rewrite app_nil_r.
    split; reflexivity.
  - intros -> Hb.
    pose proof (chunk_nonempty txt maxUtteranceLength Hb) as Hne.
    split; [exact Hne|].
    destruct (chunk txt maxUtteranceLength) as [|c cs]; [contradiction|].
    split; reflexivity.
  - intros ->. reflexivity.
  - destruct (synthRef s); repeat split.
Qed.

(** X3 on a three-sentence reply, with the engine silent and with the
    engine speaking, and on a reply of two spaces. *)
Lemma speakMessage_schedules_witness :
  synthRef initialState = true
  /\ blank Sample.threeSentences = false
  /\ snd (speakMessage Sample.threeSentences initialState)
     = [SchedulePlayback (chunk Sample.threeSentences maxUtteranceLength)]
  /\ snd (speakMessage Sample.threeSentences Sample.engineSpeaks)
     = [SynthCancel;
        SchedulePlayback (chunk Sample.threeSentences maxUtteranceLength)]
  /\ blank (js "  ") = true
  /\ snd (speakMessage (js "  ") initialState) = [].
Proof.
  destruct (speakMessage_schedules initialState Sample.threeSentences)
    as (_ & _ & A & _).
  destruct (A eq_refl eq_refl) as (_ & B & _).
  destruct (speakMessage_schedules Sample.engineSpeaks Sample.threeSentences)
    as (_ & _ & A' & _).
  destruct (A' eq_refl eq_refl) as (_ & B' & _).
  destruct (speakMessage_schedules initialState (js "  ")) as (_ & C & _).
  destruct (C eq_refl eq_refl) as (D & _).
  repeat split; assumption.
Defined.

(** X4.  [speakMessage] of the earlier revision: for a text of white space
    only nothing is submitted and [isSpeaking] keeps its value; for any other
    text the first chunk by words, and no other, is submitted at once. *)
Theorem earlier_speakMessage_submits (s : State) (txt : jsstring) :
  (blank txt = true ->
     filter isPlayback (snd (EarlierSpeech.speakMessage txt s)) = []
     /\ isSpeaking (fst (EarlierSpeech.speakMessage txt s)) = isSpeaking s)
  /\ (blank txt = false ->
      exists c cs,
        chunkWords txt Earlier.maxUtteranceLength = c :: cs
        /\ filter isPlayback (snd (EarlierSpeech.speakMessage txt s))
           = [SynthSpeak c]).
Proof.
  destruct s as [conv msg li sp lo err aw rr sr ss].
  unfold EarlierSpeech.speakMessage, speakNext. split.
  - intros Hb.
    assert (E : chunkWords txt Earlier.maxUtteranceLength = []).
    { rewrite chunkWords_unfold.
      destruct (packWords_blank Earlier.maxUtteranceLength (split reWhitespace txt)
                  (splitFrom_blank reWhitespace txt 0 None [] eq_refl Hb)
                  [] [] eq_refl) as [Hf Hs].
      rewrite Hf. unfold pushChunk. rewrite (trim_blank _ Hs). reflexivity. }
    primitives. simpl. rewrite E. destruct ss; split; reflexivity.
  - intros Hb.
    pose proof (chunkWords_nonempty txt Earlier.maxUtteranceLength Hb) as Hne.
    destruct (chunkWords txt Earlier.maxUtteranceLength) as [|c cs] eqn:E;
      [contradiction|].
    exists c, cs. split; [reflexivity|].
    primitives. simpl. destruct ss; reflexivity.
Qed.

(** X4 on a text of three sentences. *)
Lemma earlier_speakMessage_submits_witness :
  blank Sample.threeSentences = false
  /\ exists c cs,
       chunkWords Sample.threeSentences Earlier.maxUtteranceLength = c :: cs
       /\ filter isPlayback
            (snd (EarlierSpeech.speakMessage Sample.threeSentences initialState))
          = [SynthSpeak c].
Proof.
  split; [reflexivity|].
  destruct (earlier_speakMessage_submits initialState Sample.threeSentences)
    as (_ & A).
  exact (A eq_refl).
Defined.

(** ** Playback without errors *)

Lemma play_spoken (chs : list jsstring) :
  forall k i s,
    i + k < length chs ->
    snd (play (repeat Spoken k) {| chunks := chs; currentChunkIndex := i |} s)
    = map SynthSpeak (firstn (S k) (skipn i chs))
    /\ isSpeaking (fst (play (repeat Spoken k)
                             {| chunks := chs; currentChunkIndex := i |} s))
       = (match k with O => isSpeaking s | S _ => true end).
Proof.
  induction k as [|k IH]; intros i s Hi.
  - destruct (nth_error_in_range _ chs i) as [c Hc]; [lia|].
    rewrite (skipn_nth_error _ chs i c Hc). simpl. rewrite Hc.
    playback. split; reflexivity.
  - destruct (nth_error_in_range _ chs i) as [c Hc]; [lia|].
    rewrite (skipn_nth_error _ chs i c Hc).
    simpl repeat. simpl play. rewrite Hc.
    playback.
    assert (Hnext : (S i <? length chs) = true) by (apply Nat.ltb_lt; lia).
    rewrite Hnext.
    match goal with
    | |- context [play ?o ?p ?s'] =>
        destruct (IH (S i) s' ltac:(lia)) as (A & B);
        destruct (play o p s') as [s2 c2]
    end.
    simpl in *. rewrite A. split; [reflexivity|].
    rewrite B. destruct k; reflexivity.
Qed.

Lemma play_to_the_end (chs : list jsstring) (later : list UtteranceOutcome) :
  forall k i s,
    i + S k = length chs ->
    snd (play (repeat Spoken (S k) ++ later)
              {| chunks := chs; currentChunkIndex := i |} s)
    = map SynthSpeak (skipn i chs)
    /\ isSpeaking (fst (play (repeat Spoken (S k) ++ later)
                             {| chunks := chs; currentChunkIndex := i |} s))
       = false
    /\ error (fst (play (repeat Spoken (S k) ++ later)
                        {| chunks := chs; currentChunkIndex := i |} s)) = [].
Proof.
  induction k as [|k IH]; intros i s Hi.
  - destruct (nth_error_in_range _ chs i) as [c Hc]; [lia|].
    rewrite (skipn_nth_error _ chs i c Hc).
    rewrite (skipn_all2 chs) by lia.
    simpl repeat. simpl app. simpl play. rewrite Hc.
    playback.
    assert (Hnext : (S i <? length chs) = false) by (apply Nat.ltb_ge; lia).
    rewrite Hnext. repeat split.
  - destruct (nth_error_in_range _ chs i) as [c Hc]; [lia|].
    rewrite (skipn_nth_error _ chs i c Hc).
    change (repeat Spoken (S (S k)) ++ later)
      with (Spoken :: (repeat Spoken (S k) ++ later)).
    set (rest := repeat Spoken (S k) ++ later) in *. clearbody rest.
    simpl play. rewrite Hc.
    playback.
    assert (Hnext : (S i <? length chs) = true) by (apply Nat.ltb_lt; lia).
    rewrite Hnext.
    match goal with
    | |- context [play ?o ?p ?s'] =>
        destruct (IH (S i) s' ltac:(lia)) as (A & B & C);
        destruct (play o p s') as [s2 c2]
    end.
    simpl in *. rewrite A. repeat split; assumption.
Qed.

(** X5.  A playback in which no utterance fails.  While fewer utterances
    have ended than there are chunks, the chunks up to the one being spoken
    have been submitted, in order and once each, and [isSpeaking] stays true
    from the first start on (it is not cleared between chunks).  When the
    last utterance has ended, all chunks have been submitted in order,
    [isSpeaking] is false and the advisory is empty. *)
Theorem playback_runs_in_order (chs : list jsstring) (k : nat)
        (later : list UtteranceOutcome) (s : State) :
  (k < length chs ->
     snd (play (repeat Spoken k) {| chunks := chs; currentChunkIndex := 0 |} s)
     = map SynthSpeak (firstn (S k) chs)
     /\ (0 < k ->
         isSpeaking (fst (play (repeat Spoken k)
                               {| chunks := chs; currentChunkIndex := 0 |} s))
         = true))
  /\ (chs <> [] ->
      snd (play (repeat Spoken (length chs) ++ later)
                {| chunks := chs; currentChunkIndex := 0 |} s)
      = map SynthSpeak chs
      /\ isSpeaking (fst (play (repeat Spoken (length chs) ++ later)
                               {| chunks := chs; currentChunkIndex := 0 |} s))
         = false
      /\ error (fst (play (repeat Spoken (length chs) ++ later)
                          {| chunks := chs; currentChunkIndex := 0 |} s)) = []).
Proof.
  split.
  - intros Hk. destruct (play_spoken chs k 0 s) as [A B]; [lia|].
    split; [exact A|]. intros Hpos. rewrite B. destruct k; [lia | reflexivity].
  - intros Hne. destruct chs as [|c chs]; [contradiction|].
    apply (play_to_the_end (c :: chs) later (length chs) 0 s). reflexivity.
Qed.

(** X5 on three chunks: after one ended utterance two chunks are with the
    engine and the component is speaking; after three it is silent. *)
Lemma playback_runs_in_order_witness :
  snd (play [Spoken] Sample.threeChunks initialState)
  = [SynthSpeak (js "one"); SynthSpeak (js "two")]
  /\ isSpeaking (fst (play [Spoken] Sample.threeChunks initialState)) = true
  /\ snd (play [Spoken; Spoken; Spoken] Sample.threeChunks initialState)
     = [SynthSpeak (js "one"); SynthSpeak (js "two"); SynthSpeak (js "three")]
  /\ isSpeaking (fst (play [Spoken; Spoken; Spoken] Sample.threeChunks initialState))
     = false.
Proof.
  destruct (playback_runs_in_order (chunks Sample.threeChunks) 1 [] initialState)
    as (A & _).
  destruct (A ltac:(simpl; lia)) as (A1 & A2).
  destruct (playback_runs_in_order (chunks Sample.threeChunks) 1 [] initialState)
    as (_ & B).
  destruct (B ltac:(discriminate)) as (B1 & B2 & _).
  split; [exact A1|]. split; [exact (A2 ltac:(lia))|].
  split; [exact B1 | exact B2].
Defined.

(** ** [clearConversation] *)

(** X6.  [clearConversation], in any state (the handler tests no flag; its
    button is disabled while the component is loading, listening or
    speaking), leaves the log with the greeting alone, the advisory and the
    input field empty and no feature awaited.  It does not touch [isLoading]
    and cancels no request: the reply of a request in flight would be
    appended to the fresh log.  [isListening] is cleared when there is a
    recognition object, [isSpeaking] when the engine reports speaking.  A
    second call right after the first changes nothing and issues no
    command. *)
Theorem clear_resets (s : State) (outcome : FetchOutcome) :
  conversation (fst (invoke clearConversation s)) = [greetingTurn]
  /\ error (fst (invoke clearConversation s)) = []
  /\ message (fst (invoke clearConversation s)) = []
  /\ awaitingFeatureInput (fst (invoke clearConversation s)) = None
  /\ isLoading (fst (invoke clearConversation s)) = isLoading s
  /\ isListening (fst (invoke clearConversation s))
     = (if recognitionRef s then false else isListening s)
  /\ isSpeaking (fst (invoke clearConversation s))
     = (if synthRef s && synthSpeaking s then false else isSpeaking s)
  /\ invoke clearConversation (fst (invoke clearConversation s))
     = (fst (invoke clearConversation s), [])
  /\ conversation (fst (fetchSettled outcome (fst (invoke clearConversation s))))
     = Said greetingTurn :: replyEntries outcome (synthRef s).
Proof.
  destruct s as [conv msg li sp lo err aw rr sr ss].
  assert (Hc :
    fst (invoke clearConversation
           {| conversation := conv; message := msg; isListening := li;
              isSpeaking := sp; isLoading := lo; error := err;
              awaitingFeatureInput := aw; recognitionRef := rr;
              synthRef := sr; synthSpeaking := ss |})
    = {| conversation := [greetingTurn]; message := [];
         isListening := (if rr then false else li);
         isSpeaking := (if sr && ss then false else sp);
         isLoading := lo; error := []; awaitingFeatureInput := None;
         recognitionRef := rr; synthRef := sr;
         synthSpeaking := (if sr && ss then false else ss) |})
    by (destruct sr, ss, rr, li; reflexivity).
  rewrite Hc. simpl.
  repeat split.
  - destruct sr, ss, rr, li; reflexivity.
  - unfold replyEntries.
    destruct outcome as [|result]; [reflexivity|].
    destruct (aiResponseText result) as [t|] eqn:E.
    + rewrite (fetchSettled_text result t _ E). cbn [fst].
      rewrite speakMessage_eq. unfold setConversation, setIsLoading, append.
      simpl. destruct sr; reflexivity.
    + rewrite (fetchSettled_textless result _ E). reflexivity.
Qed.

(** ** A listening session *)

Lemma filter_notListening_placeholder (conv : list Entry) :
  filter notListening (conv ++ [Said placeholderTurn])
  = filter notListening conv.
Proof. rewrite filter_app. simpl. apply app_nil_r. Qed.

Lemma existsb_listening_none (conv : list Entry) :
  forallb notListening conv = true ->
  existsb (textIs Text.listening) conv = false.
Proof.
  induction conv as [|t conv IH]; [reflexivity|]. simpl. intros H.
  apply andb_true_iff in H as [Ht Hc]. unfold notListening in Ht.
  apply negb_true_iff in Ht. rewrite Ht. simpl. apply IH. exact Hc.
Qed.

Lemma filteredConversation_placeholder (conv : list Turn) :
  filteredConversation (conv ++ [placeholderTurn]) = filteredConversation conv.
Proof.
  unfold filteredConversation. rewrite filter_app. simpl. apply app_nil_r.
Qed.

(** The placeholder at the end of the log of the closure does not change
    the request. *)
Lemma turnsOf_app (a b : list Entry) :
  turnsOf (a ++ b)
  = match turnsOf a, turnsOf b with
    | Some ta, Some tb => Some (ta ++ tb)
    | _, _ => None
    end.
Proof.
  induction a as [|[t|] a IH]; simpl.
  - destruct (turnsOf b); reflexivity.
  - rewrite IH. destruct (turnsOf a), (turnsOf b); reflexivity.
  - reflexivity.
Qed.

Lemma requestOf_placeholder (conv : list Entry) (p : jsstring) :
  requestOf (conv ++ [Said placeholderTurn]) p = requestOf conv p.
Proof.
  unfold requestOf. rewrite turnsOf_app. simpl.
  destruct (turnsOf conv) as [turns|]; [|reflexivity].
  unfold chatHistory. rewrite filteredConversation_placeholder. reflexivity.
Qed.

(** [startListening] with a recognition object, created at a render at
    which [isListening] was false, when [start] returns. *)
Lemma startListening_opens (r s : State) :
  recognitionRef s = true -> isListening r = false ->
  startListening true r s
  = ({| conversation := conversation s ++ [Said placeholderTurn];
        message := [];
        isListening := true;
        isSpeaking := (if synthRef s && synthSpeaking s then false
                       else isSpeaking s);
        isLoading := isLoading s;
        error := [];
        awaitingFeatureInput := awaitingFeatureInput s;
        recognitionRef := true;
        synthRef := synthRef s;
        synthSpeaking := (if synthRef s && synthSpeaking s then false
                          else synthSpeaking s) |},
     (if synthRef s && synthSpeaking s then [SynthCancel] else [])
     ++ [RecognitionStart]).
Proof.
  intros Href Hidle. rewrite startListening_in, Href, Hidle. reflexivity.
Qed.

(** X7.  A listening session that brings no text.  With a recognition
    object and [isListening] false, [startListening] appends one placeholder
    Turn, empties the input field and the advisory, sets [isListening] and
    starts the session without any request.  The error callback, whatever
    render it was created at, then clears [isListening], sets its advisory
    and leaves the log as it was before the session, less the Turns with the
    text of the placeholder.  The end callback does the same (with the
    no-speech advisory) only when the render it was created at had a blank
    input field and a placeholder in its log; created at any other render,
    and so at every render whose log held no placeholder, it clears
    [isListening] and leaves the placeholder in the log.  When [start]
    throws, the placeholder is removed at once. *)
Theorem listening_without_result (s r : State) (e : jsstring)
        (Href : recognitionRef s = true) (Hidle : isListening s = false) :
  let started := fst (invoke (startListening true) s) in
  (conversation started = conversation s ++ [Said placeholderTurn]
   /\ isListening started = true
   /\ message started = []
   /\ error started = []
   /\ In RecognitionStart (snd (invoke (startListening true) s))
   /\ filter isFetch (snd (invoke (startListening true) s)) = [])
  /\ (conversation (fst (recognitionOnError e r started))
      = filter notListening (conversation s)
      /\ isListening (fst (recognitionOnError e r started)) = false
      /\ error (fst (recognitionOnError e r started)) = Text.errRecognition e
      /\ snd (recognitionOnError e r started) = [])
  /\ (sawNoSpeech r = true ->
      conversation (fst (recognitionOnEnd r started))
      = filter notListening (conversation s)
      /\ isListening (fst (recognitionOnEnd r started)) = false
      /\ error (fst (recognitionOnEnd r started)) = Text.errNoSpeech
      /\ snd (recognitionOnEnd r started) = [])
  /\ (sawNoSpeech r = false ->
      conversation (fst (recognitionOnEnd r started))
      = conversation s ++ [Said placeholderTurn]
      /\ isListening (fst (recognitionOnEnd r started)) = false
      /\ error (fst (recognitionOnEnd r started)) = []
      /\ snd (recognitionOnEnd r started) = [])
  /\ (forallb notListening (conversation r) = true -> sawNoSpeech r = false)
  /\ (conversation (fst (invoke (startListening false) s))
      = filter notListening (conversation s)
      /\ isListening (fst (invoke (startListening false) s)) = false
      /\ error (fst (invoke (startListening false) s)) = Text.errRecognitionStart
      /\ ~ In RecognitionStart (snd (invoke (startListening false) s))).
Proof.
  unfold invoke. rewrite (startListening_opens s s Href Hidle). cbv zeta.
  simpl fst. simpl snd.
  split; [|split; [|split; [|split; [|split]]]].
  - repeat split.
    + apply in_or_app. right. left. reflexivity.
    + destruct (synthRef s && synthSpeaking s); reflexivity.
  - unfold recognitionOnError. primitives. simpl.
    rewrite filter_notListening_placeholder. repeat split.
  - intros Hsaw. unfold recognitionOnEnd. fold (sawNoSpeech r). rewrite Hsaw.
    primitives. simpl. rewrite filter_notListening_placeholder. repeat split.
  - intros Hsaw. unfold recognitionOnEnd. fold (sawNoSpeech r). rewrite Hsaw.
    primitives. simpl. repeat split.
  - intros Hnone. unfold sawNoSpeech.
    rewrite (existsb_listening_none _ Hnone). apply andb_false_r.
  - destruct s as [conv msg li sp lo err aw rr sr ss]. simpl in Href, Hidle.
    subst rr li.
    unfold startListening, stopSpeaking. primitives. simpl.
    destruct sr, ss; simpl; fold placeholderTurn;
      rewrite filter_notListening_placeholder; repeat split;
      intros H; simpl in H;
      repeat (destruct H as [H|H]; try discriminate H); exact H.
Qed.

(** X7 on the mounted component: the session is opened; the error callback
    leaves the greeting alone; the end callback created at the mount, whose
    log held no placeholder, leaves the placeholder in the log. *)
Lemma listening_without_result_witness :
  recognitionRef initialState = true
  /\ isListening initialState = false
  /\ conversation
       (fst (recognitionOnError (js "no-speech") initialState
               (fst (invoke (startListening true) initialState))))
     = [Said greetingTurn]
  /\ sawNoSpeech initialState = false
  /\ conversation
       (fst (recognitionOnEnd initialState
               (fst (invoke (startListening true) initialState))))
     = [Said greetingTurn; Said placeholderTurn].
Proof.
  destruct (listening_without_result initialState initialState (js "no-speech")
              eq_refl eq_refl)
    as (_ & (B & _) & _ & C & _).
  destruct (C eq_refl) as (C1 & _).
  split; [reflexivity|]. split; [reflexivity|].
  split; [exact B|]. split; [reflexivity | exact C1].
Defined.

(** X8.  A listening session that brings a text.  After [startListening],
    the result callback with a text that is not blank, created at a render
    that was not loading, removes the placeholder, appends the user Turn with
    the trimmed text and the acknowledgement of the feature mode of its
    closure, empties the input field and sends one request.  The history of
    the request is taken from the Turns of the log of the closure (nothing is
    sent when that log holds an entry without a text); as the placeholder is
    never part of a history, the request is the same whether the closure is
    of the render before the session or of the one after its start.  The
    component stays listening until the end callback, which, whatever its
    closure, issues no command and leaves the request in flight.  Created at
    a render that was loading, the result callback sends nothing and leaves
    the text in the input field. *)
Theorem recognised_text_is_submitted (s r : State) (transcript : jsstring)
        (Href : recognitionRef s = true) (Hidle : isListening s = false)
        (Htext : truthy (trim transcript) = true) :
  let started := fst (invoke (startListening true) s) in
  let submitted := fst (recognitionOnResult transcript r started) in
  (isLoading r = false ->
     conversation submitted
     = filter notListening (conversation s)
       ++ {| role := User; text := trim transcript |}
          :: acknowledgement (awaitingFeatureInput r)
     /\ (forall turns, turnsOf (conversation r) = Some turns ->
           filter isFetch (snd (recognitionOnResult transcript r started))
           = [Fetch (chatHistory turns
                       (promptFor (awaitingFeatureInput r) (trim transcript)))])
     /\ (In Textless (conversation r) ->
           filter isFetch (snd (recognitionOnResult transcript r started)) = [])
     /\ message submitted = []
     /\ error submitted = []
     /\ isLoading submitted = true
     /\ isListening submitted = true
     /\ (forall r',
           snd (recognitionOnEnd r' submitted) = []
           /\ isListening (fst (recognitionOnEnd r' submitted)) = false
           /\ isLoading (fst (recognitionOnEnd r' submitted)) = true))
  /\ (forall promptContent now,
        snd (sendPromptToGemini started promptContent now)
        = snd (sendPromptToGemini s promptContent now)
        /\ forall turns,
             chatHistory (turns ++ [placeholderTurn]) promptContent
             = chatHistory turns promptContent)
  /\ (isLoading r = true ->
      snd (recognitionOnResult transcript r started) = []
      /\ message submitted = transcript
      /\ conversation submitted = filter notListening (conversation s)
      /\ isLoading submitted = isLoading s).
Proof.
  unfold invoke. rewrite (startListening_opens s s Href Hidle). cbv zeta.
  simpl fst.
  split; [|split].
  - intros Hlo. unfold recognitionOnResult, andThen, setMessage. simpl.
    rewrite (sendMessage_accepted_in r _ transcript Hlo Htext). simpl.
    rewrite filter_notListening_placeholder.
    assert (Hcancel : forall (b : bool) l,
              filter isFetch ((if b then [SynthCancel] else []) ++ l)
              = filter isFetch l) by (intros [|] l; reflexivity).
    rewrite Hcancel.
    split; [reflexivity|]. split.
    { intros turns Hturns. rewrite (requestOf_some _ _ _ Hturns). reflexivity. }
    split.
    { intros Hin. rewrite (requestOf_none _ _ Hin). reflexivity. }
    split; [reflexivity|]. split; [reflexivity|]. split; [reflexivity|].
    split; [reflexivity|].
    intros r'. unfold recognitionOnEnd.
    destruct (negb (truthy (trim (message r'))) && _);
      primitives; simpl; repeat split.
  - intros p now. split.
    + rewrite !sendPromptToGemini_eq. cbn [snd conversation].
      apply requestOf_placeholder.
    + intros turns. unfold chatHistory.
      rewrite filteredConversation_placeholder. reflexivity.
  - intros Hlo. unfold recognitionOnResult, andThen, setMessage. simpl.
    rewrite (sendMessage_rejected_in r _ transcript (or_intror Hlo)). simpl.
    rewrite filter_notListening_placeholder. repeat split.
Qed.

(** X8 on the mounted component and the text "hello", with the closure of
    the mount. *)
Lemma recognised_text_is_submitted_witness :
  conversation
    (fst (recognitionOnResult Sample.hello initialState
            (fst (invoke (startListening true) initialState))))
  = [Said greetingTurn; Said (Sample.userTurn Sample.hello)]
  /\ filter isFetch
       (snd (recognitionOnResult Sample.hello initialState
               (fst (invoke (startListening true) initialState))))
     = [Fetch (chatHistory [greetingTurn] Sample.hello)].
Proof.
  destruct (recognised_text_is_submitted initialState initialState Sample.hello
              eq_refl eq_refl eq_refl) as (A & _).
  destruct (A eq_refl) as (A1 & A2 & _).
  split; [exact A1 | exact (A2 [greetingTurn] eq_refl)].
Defined.

(** ** Invariants *)

Lemma run_invariant (I : World -> Prop) :
  (forall e w w', fire e w = Some w' -> I w -> I w') ->
  forall events w w', run events w = Some w' -> I w -> I w'.
Proof.
  intros Hstep. induction events as [|e events IH]; intros w w' H Hw; simpl in H.
  - injection H as <-. exact Hw.
  - destruct (fire e w) as [w1|] eqn:E; [|discriminate].
    apply (IH w1 w' H). apply (Hstep e w w1 E Hw).
Qed.


Lemma handlerOf_closure (e : Event) (w : World) (s : State) :
  exists startOk r, handlerOf e w s = handlerIn e startOk r s.
Proof.
  exists match session w with NoSession => true | _ => false end,
         match e with
         | PressEnter | ClickSend => memo w
         | RecognitionResult _ | RecognitionError _ | RecognitionEnd =>
             sessionRender w
         | _ => s
         end.
  destruct e; reflexivity.
Qed.

Lemma fst_andThen (a b : Action) (s : State) :
  fst ((a ;; b) s) = fst (b (fst (a s))).
Proof.
  unfold andThen. destruct (a s) as [s1 c1]. simpl.
  destruct (b s1) as [s2 c2]. reflexivity.
Qed.

Lemma snd_andThen (a b : Action) (s : State) :
  snd ((a ;; b) s) = snd (a s) ++ snd (b (fst (a s))).
Proof.
  unfold andThen. destruct (a s) as [s1 c1]. simpl.
  destruct (b s1) as [s2 c2]. reflexivity.
Qed.

(** The effect, when it runs again, touches no cell but the advisory, and
    the log when it is empty; it sends no request. *)
Lemma effectRerun_frame (s : State) :
  conversation (fst (effectRerun s))
  = match conversation s with
    | [] => [Said greetingTurn]
    | msg :: rest => msg :: rest
    end
  /\ isLoading (fst (effectRerun s)) = isLoading s
  /\ isListening (fst (effectRerun s)) = isListening s
  /\ filter isFetch (snd (effectRerun s)) = []
  /\ existsb isStart (snd (effectRerun s)) = false.
Proof.
  destruct s as [conv msg li sp lo err aw rr sr ss].
  unfold effectRerun, effectRun. primitives.
  destruct conv, rr, sr, ss; repeat split.
Qed.

Section LogProperty.

(** A property of the log that the appending of a Turn, the removal of the
    placeholders and the reset keep. *)
Variable P : list Entry -> Prop.
Hypothesis P_append : forall (t : Turn) conv, P conv -> P (append (Said t) conv).
Hypothesis P_filter : forall conv, P conv -> P (filter notListening conv).
Hypothesis P_reset : P [Said greetingTurn].

Lemma keeps_andThen (a b : Action) :
  keepsLog P a -> keepsLog P b -> keepsLog P (a ;; b).
Proof.
  intros Ha Hb s H. rewrite fst_andThen. apply Hb. apply Ha. exact H.
Qed.

Lemma keeps_reading (k : State -> Action) :
  (forall now, keepsLog P (k now)) -> keepsLog P (reading k).
Proof. intros H s. apply (H s s). Qed.

Lemma keeps_unchanged (a : Action) :
  (forall s, conversation (fst (a s)) = conversation s) -> keepsLog P a.
Proof. intros H s Hs. rewrite H. exact Hs. Qed.

Lemma keeps_setConversation (f : list Entry -> list Entry) :
  (forall conv, P conv -> P (f conv)) -> keepsLog P (setConversation f).
Proof. intros H s Hs. apply H. exact Hs. Qed.

Ltac keeps :=
  repeat match goal with
    | |- keepsLog _ (andThen _ _) => apply keeps_andThen
    | |- keepsLog _ (reading _) => apply keeps_reading; intros ?
    | |- keepsLog _ (setConversation _) =>
        apply keeps_setConversation; intros ? ?;
        first [ apply P_append; assumption
              | apply P_filter; assumption
              | apply P_reset ]
    | |- keepsLog _ (if ?b then _ else _) => destruct b
    | |- keepsLog _ (match ?x with _ => _ end) => destruct x
    | |- keepsLog _ stopSpeaking => unfold stopSpeaking
    | |- keepsLog _ (speakMessage _) => unfold speakMessage
    | |- keepsLog _ (sendPromptToGemini _ _) => unfold sendPromptToGemini
    | |- keepsLog _ (sendMessage _ _) => unfold sendMessage
    | |- keepsLog _ (stopListening _) => unfold stopListening
    | |- keepsLog _ _ => apply keeps_unchanged; intros ?; reflexivity
    end.

(** Every handler, whatever render it was created at, keeps the property,
    the settlement when it brings a text. *)
Lemma keeps_handlerIn (e : Event) (startOk : bool) (r : State) :
  settlesWithText e = true -> keepsLog P (handlerIn e startOk r).
Proof.
  intros Htext.
  destruct e; simpl;
    unfold startListening, getPronunciationTips, getBritishVocabulary,
      rephraseSentence, startRolePlay, clearConversation, recognitionOnResult,
      recognitionOnError, recognitionOnEnd;
    try solve [keeps].
  simpl in Htext. unfold fetchSettled.
  destruct outcome as [|result]; [solve [keeps]|].
  simpl in Htext.
  destruct (aiResponseText result); [solve [keeps] | discriminate].
Qed.

(** So does every callback of an utterance. *)
Lemma keeps_utterance (o : Occurrence) :
  match o with Handles _ _ _ => True | _ => keepsLog P (occur o) end.
Proof.
  destruct o as [e startOk r | | p | e]; simpl; [exact I| | |].
  - unfold utteranceOnStart. keeps.
  - unfold utteranceOnEnd, speakNext, advance. keeps.
  - unfold utteranceOnError. keeps.
Qed.

Lemma keeps_effectRerun : keepsLog P effectRerun.
Proof.
  intros s Hs. destruct (effectRerun_frame s) as (-> & _).
  destruct (conversation s); [apply P_reset | exact Hs].
Qed.

End LogProperty.

Lemma headed_append (t : Entry) (conv : list Entry) :
  headedByGreeting conv -> headedByGreeting (append t conv).
Proof. intros [rest ->]. exists (rest ++ [t]). reflexivity. Qed.

Lemma headed_filter (conv : list Entry) :
  headedByGreeting conv -> headedByGreeting (filter notListening conv).
Proof. intros [rest ->]. exists (filter notListening rest). reflexivity. Qed.

Lemma headed_reset : headedByGreeting [Said greetingTurn].
Proof. exists []. reflexivity. Qed.

(** Every handler, whatever render it was created at, and every callback of
    an utterance keeps the greeting at the head of the log. *)
Lemma keeps_occur (o : Occurrence) : keepsGreeting (occur o).
Proof.
  pose proof (keeps_utterance headedByGreeting o) as Hu.
  destruct o as [e startOk r | | p | e]; try exact Hu.
  destruct (settlesWithText e) eqn:Htext.
  - apply (keeps_handlerIn headedByGreeting
             (fun t => headed_append (Said t)) headed_filter headed_reset
             e startOk r Htext).
  - destruct e; try discriminate Htext.
    destruct outcome as [|result]; [discriminate Htext|].
    simpl in Htext.
    destruct (aiResponseText result) eqn:E; [discriminate Htext|].
    intros s [rest Hs].
    change (headedByGreeting
              (conversation (fst (fetchSettled (Returned result) s)))).
    rewrite (fetchSettled_textless result s E). cbn [fst conversation].
    rewrite Hs. eexists. reflexivity.
Qed.

Lemma keeps_occurAll (os : list Occurrence) : keepsGreeting (occurAll os).
Proof.
  induction os as [|o os IH]; simpl.
  - intros s H. exact H.
  - apply (keeps_andThen headedByGreeting); [apply keeps_occur | exact IH].
Qed.

(** The playback touches neither the log nor [isLoading] and sends no
    request. *)
Lemma play_frame (outcomes : list UtteranceOutcome) :
  forall p s,
    conversation (fst (play outcomes p s)) = conversation s
    /\ isLoading (fst (play outcomes p s)) = isLoading s
    /\ filter isFetch (snd (play outcomes p s)) = [].
Proof.
  induction outcomes as [|o outcomes IH]; intros p s; simpl.
  - destruct (nth_error (chunks p) (currentChunkIndex p)); primitives;
      repeat split.
  - destruct (nth_error (chunks p) (currentChunkIndex p)); [|repeat split].
    destruct o as [|started e].
    + playback.
      destruct (S (currentChunkIndex p) <? length (chunks p)); [|repeat split].
      match goal with
      | |- context [play outcomes ?q ?s'] =>
          destruct (IH q s') as (A & B & C);
          destruct (play outcomes q s') as [s2 c2]
      end.
      simpl in *. repeat split; assumption.
    + destruct started; playback; repeat split.
Qed.

(** X9.  The log begins with the greeting Turn, and so is never empty,
    after any sequence of handler runs and callbacks of utterances, in any
    order, enabled or not, and whatever render each handler was created at:
    handlers only append entries, remove Turns with the text 'Listening...',
    or reset the log to the greeting.  In particular this holds in every
    state reached from the mounted component by UI events, recognition
    callbacks and settlements of requests. *)
Theorem log_begins_with_greeting (os : list Occurrence) (s : State)
        (Hs : headedByGreeting (conversation s)) :
  headedByGreeting (conversation (fst (occurAll os s)))
  /\ conversation (fst (occurAll os s)) <> []
  /\ (forall w, reachable w -> headedByGreeting (conversation (app w))).
Proof.
  assert (H : headedByGreeting (conversation (fst (occurAll os s))))
    by (apply keeps_occurAll; exact Hs).
  split; [exact H|]. split.
  - destruct H as [rest ->]. discriminate.
  - intros w [events Hrun].
    refine (run_invariant (fun w => headedByGreeting (conversation (app w)))
              _ events initialWorld w Hrun _); [|exists []; reflexivity].
    intros e w0 w1 Hfire Hw0. unfold fire in Hfire.
    destruct (enabled e w0); [|discriminate].
    assert (Hk : headedByGreeting
                   (conversation
                      (fst ((handlerOf e w0 ;;
                             if writesLog e w0 then effectRerun else skip)
                              (app w0))))).
    { rewrite fst_andThen.
      assert (Hh : headedByGreeting
                     (conversation (fst (handlerOf e w0 (app w0))))).
      { destruct (handlerOf_closure e w0 (app w0)) as (b & r & ->).
        apply (keeps_occur (Handles e b r)). exact Hw0. }
      destruct (writesLog e w0); [|exact Hh].
      apply (keeps_effectRerun headedByGreeting headed_reset). exact Hh. }
    destruct ((handlerOf e w0 ;; if writesLog e w0 then effectRerun else skip)
                (app w0)) as [s' cmds].
    injection Hfire as <-. exact Hk.
Qed.

(** X9 on a listening session with a recognised "hello", the reply and its
    first utterance, all with the handlers of the mount. *)
Lemma log_begins_with_greeting_witness :
  headedByGreeting (conversation initialState)
  /\ headedByGreeting
       (conversation (fst (occurAll Occurrences.sessionThenSpeech initialState))).
Proof.
  assert (H0 : headedByGreeting (conversation initialState))
    by (exists []; reflexivity).
  destruct (log_begins_with_greeting Occurrences.sessionThenSpeech initialState H0)
    as (A & _).
  split; [exact H0 | exact A].
Defined.




Lemma filter_isFetch_cancel (b : bool) (l : list Command) :
  filter isFetch ((if b then [SynthCancel] else []) ++ l) = filter isFetch l.
Proof. destruct b; reflexivity. Qed.


(** The two callbacks that close a session send nothing and leave
    [isLoading], whatever render they were created at. *)
Lemma recognition_closes (r s : State) (e : jsstring) :
  (snd (recognitionOnError e r s) = []
   /\ isLoading (fst (recognitionOnError e r s)) = isLoading s)
  /\ (snd (recognitionOnEnd r s) = []
      /\ isLoading (fst (recognitionOnEnd r s)) = isLoading s).
Proof.
  destruct s as [conv msg li sp lo err aw rr sr ss].
  unfold recognitionOnError, recognitionOnEnd.
  destruct (negb (truthy (trim (message r))) && _); repeat split.
Qed.




Section Commands.

Variable Q : Command -> bool.





End Commands.




Lemma existsb_app_false (A : Type) (f : A -> bool) (l1 l2 : list A) :
  existsb f l2 = false -> existsb f (l1 ++ l2) = existsb f l1.
Proof. intros H. rewrite existsb_app, H. apply orb_false_r. Qed.

(** One event, in terms of its handler. *)
Lemma fire_frame (e : Event) (w w' : World) :
  fire e w = Some w' ->
  enabled e w = true
  /\ conversation (app w')
     = match conversation (fst (handlerOf e w (app w))) with
       | [] => if writesLog e w then [Said greetingTurn] else []
       | msg :: rest => msg :: rest
       end
  /\ isLoading (app w') = isLoading (fst (handlerOf e w (app w)))
  /\ isListening (app w') = isListening (fst (handlerOf e w (app w)))
  /\ (writesLog e w = true /\ memo w' = app w'
      \/ writesLog e w = false /\ memo w' = memo w)
  /\ session w' = sessionAfter e (snd (handlerOf e w (app w))) w
  /\ pendingFetches w'
     = length (filter isFetch (snd (handlerOf e w (app w))))
       + match e with
         | FetchSettles _ => pred (pendingFetches w)
         | _ => pendingFetches w
         end.
Proof.
  unfold fire. intros H. destruct (enabled e w); [|discriminate].
  split; [reflexivity|].
  pose proof (fst_andThen (handlerOf e w)
                (if writesLog e w then effectRerun else skip) (app w)) as Hf.
  pose proof (snd_andThen (handlerOf e w)
                (if writesLog e w then effectRerun else skip) (app w)) as Hs.
  destruct ((handlerOf e w ;; if writesLog e w then effectRerun else skip)
              (app w)) as [s' cmds].
  injection H as <-. cbn [app memo session pendingFetches]. simpl in Hf, Hs.
  subst s' cmds.
  assert (Hframe :
    conversation (fst ((if writesLog e w then effectRerun else skip)
                         (fst (handlerOf e w (app w)))))
    = match conversation (fst (handlerOf e w (app w))) with
      | [] => if writesLog e w then [Said greetingTurn] else []
      | msg :: rest => msg :: rest
      end
    /\ isLoading (fst ((if writesLog e w then effectRerun else skip)
                         (fst (handlerOf e w (app w)))))
       = isLoading (fst (handlerOf e w (app w)))
    /\ isListening (fst ((if writesLog e w then effectRerun else skip)
                           (fst (handlerOf e w (app w)))))
       = isListening (fst (handlerOf e w (app w)))
    /\ filter isFetch (snd ((if writesLog e w then effectRerun else skip)
                              (fst (handlerOf e w (app w))))) = []
    /\ existsb isStart (snd ((if writesLog e w then effectRerun else skip)
                               (fst (handlerOf e w (app w))))) = false).
  { destruct (writesLog e w); [apply effectRerun_frame|].
    unfold skip. cbn [fst snd].
    destruct (conversation (fst (handlerOf e w (app w)))); repeat split. }
  destruct Hframe as (A & B & C & D & E).
  split; [exact A|]. split; [exact B|]. split; [exact C|].
  split; [destruct (writesLog e w); [left | right]; split; reflexivity|].
  split.
  - unfold sessionAfter. rewrite (existsb_app_false _ _ _ _ E). reflexivity.
  - rewrite filter_app, D, app_nil_r. reflexivity.
Qed.










(** In a blocked world no control is enabled and no callback is due but the
    end of a closing session, which leaves the world blocked. *)
Lemma blocked_fire (e : Event) (w w' : World) :
  blocked w -> fire e w = Some w' ->
  e = RecognitionEnd /\ blocked w' /\ session w' = NoSession.
Proof.
  intros (Hlo & Hp & Hm & Hs) Hfire.
  destruct (fire_frame e w w' Hfire)
    as (En & _ & Hlo' & _ & Hmemo & Hsess' & Hpend).
  assert (Hact : activity (app w) = true)
    by (unfold activity; rewrite Hlo; reflexivity).
  assert (Hbusy : busy (app w) = true)
    by (unfold busy; rewrite Hlo; reflexivity).
  destruct e; simpl in En;
    rewrite ?Hact, ?Hbusy, ?Hp, ?Hlo, ?orb_true_r in En;
    try discriminate En;
    try (destruct (session w); [discriminate En | contradiction
                                | discriminate En]).
  split; [reflexivity|].
  simpl handlerOf in *.
  destruct (recognition_closes (sessionRender w) (app w) [])
    as (_ & Hc & Hl).
  rewrite Hc in Hpend. rewrite Hl in Hlo'.
  split; [|exact Hsess'].
  split; [rewrite Hlo'; exact Hlo|].
  split; [rewrite Hpend, Hp; reflexivity|].
  split.
  - destruct Hmemo as [[_ ->]|[_ ->]]; [rewrite Hlo'; exact Hlo | exact Hm].
  - rewrite Hsess'. exact I.
Qed.

(** X18.  A response body whose first part holds no text blocks the
    component at the next submission.  When the component is loading with
    no request pending ([sendMessage] created at a loading render, no
    session capturing), every control is disabled and no settlement is due;
    the only event that can still happen is the end of a closing recognition
    session, once, and the component stays loading with no request pending.
    Such a state is reached from the mounted component: a text is sent, the
    response body holds a first part without a text, and a text is sent
    again; the second submission sets [isLoading] and sends nothing. *)
Theorem textless_reply_blocks (w w' : World) (events : list Event)
        (Hblocked : blocked w) (Hrun : run events w = Some w') :
  (events = [] \/ events = [RecognitionEnd])
  /\ isLoading (app w') = true
  /\ pendingFetches w' = 0
  /\ (forall e, e <> RecognitionEnd -> enabled e w' = false)
  /\ (exists w0, run Occurrences.afterTextlessReply initialWorld = Some w0
                 /\ blocked w0
                 /\ In Textless (conversation (app w0))).
Proof.
  assert (Hdisabled : forall w1 e, blocked w1 -> e <> RecognitionEnd ->
                                   enabled e w1 = false).
  { intros w1 e Hb He. destruct (enabled e w1) eqn:En; [|reflexivity].
    exfalso. apply He.
    assert (Hf : exists w2, fire e w1 = Some w2).
    { unfold fire. rewrite En.
      destruct ((handlerOf e w1 ;; if writesLog e w1 then effectRerun else skip)
                  (app w1)). eexists. reflexivity. }
    destruct Hf as [w2 Hf]. apply (blocked_fire e w1 w2 Hb Hf). }
  assert (Hend : blocked w' /\ (events = [] \/ events = [RecognitionEnd])).
  { destruct events as [|e events]; simpl in Hrun.
    - injection Hrun as <-. split; [exact Hblocked | left; reflexivity].
    - destruct (fire e w) as [w1|] eqn:E; [|discriminate].
      destruct (blocked_fire e w w1 Hblocked E) as (-> & Hb1 & Hs1).
      destruct events as [|e2 events]; simpl in Hrun.
      + injection Hrun as <-. split; [exact Hb1 | right; reflexivity].
      + destruct (fire e2 w1) as [w2|] eqn:E2; [|discriminate].
        destruct (blocked_fire e2 w1 w2 Hb1 E2) as (-> & _).
        unfold fire in E2. simpl in E2. rewrite Hs1 in E2. discriminate E2. }
  destruct Hend as [Hb' Hev].
  split; [exact Hev|].
  split; [apply Hb'|]. split; [apply Hb'|].
  split; [intros e He; apply Hdisabled; assumption|].
  destruct (run Occurrences.afterTextlessReply initialWorld) as [w0|] eqn:E;
    [|vm_compute in E; discriminate].
  exists w0. split; [reflexivity|].
  vm_compute in E. injection E as <-.
  split; [repeat split|]. right. right. left. reflexivity.
Qed.

(** X18 on the world reached by the two submissions: nothing can happen
    there. *)
Lemma textless_reply_blocks_witness :
  exists w0,
    run Occurrences.afterTextlessReply initialWorld = Some w0
    /\ isLoading (app w0) = true
    /\ pendingFetches w0 = 0
    /\ enabled ClickClear w0 = false
    /\ enabled (FetchSettles Threw) w0 = false.
Proof.
  destruct (run Occurrences.afterTextlessReply initialWorld) as [w0|] eqn:E;
    [|vm_compute in E; discriminate].
  assert (Hb : blocked w0).
  { vm_compute in E. injection E as <-. repeat split. }
  destruct (textless_reply_blocks w0 w0 [] Hb eq_refl)
    as (_ & A & B & C & _).
  exists w0. split; [reflexivity|]. split; [exact A|]. split; [exact B|].
  split; apply C; discriminate.
Defined.

(** ** Submissions *)

(** X11.  An accepted [sendMessage] (not loading, text not blank) outside
    the feature modes: the log loses the placeholders and gains one user Turn
    with the trimmed text; the input field and the advisory are emptied; one
    request is sent, made of the persona instruction, the kept Turns of the
    log as it was before the call, and the trimmed text as last entry, so
    that the text is sent once (the log holding Turns only: an entry without
    a text makes the building of the request throw).  The call depends on the
    text only through its trimmed form.  The earlier revision does the same
    and issues no other command. *)
Theorem chat_submission (s : State) (txt : jsstring)
        (Hloading : isLoading s = false) (Htext : truthy (trim txt) = true)
        (Hmode : awaitingFeatureInput s = None) :
  conversation (fst (invoke (sendMessage txt) s))
  = filter notListening (conversation s)
    ++ [Said {| role := User; text := trim txt |}]
  /\ message (fst (invoke (sendMessage txt) s)) = []
  /\ error (fst (invoke (sendMessage txt) s)) = []
  /\ isLoading (fst (invoke (sendMessage txt) s)) = true
  /\ (forall turns, turnsOf (conversation s) = Some turns ->
        filter isFetch (snd (invoke (sendMessage txt) s))
        = [Fetch ({| contentRole := User; contentText := Text.initialPrompt |}
                  :: map toContent (filteredConversation turns)
                  ++ [{| contentRole := User; contentText := trim txt |}])])
  /\ (In Textless (conversation s) ->
        filter isFetch (snd (invoke (sendMessage txt) s)) = []
        /\ snd (invoke (Earlier.sendMessage txt) s) = [])
  /\ invoke (sendMessage (trim txt)) s = invoke (sendMessage txt) s
  /\ fst (invoke (Earlier.sendMessage txt) s)
     = fst (setIsLoading true
              (fst (setMessage []
                 (fst (setConversation
                         (fun prev => filter notListening prev
                                      ++ [Said {| role := User; text := trim txt |}])
                         (fst (setError [] s)))))))
  /\ (forall turns, turnsOf (conversation s) = Some turns ->
        snd (invoke (Earlier.sendMessage txt) s)
        = [Fetch (chatHistory turns (trim txt))]).
Proof.
  assert (Htt : truthy (trim (trim txt)) = true)
    by (rewrite trim_idempotent; exact Htext).
  unfold invoke.
  rewrite (sendMessage_accepted_in s s (trim txt) Hloading Htt).
  rewrite (sendMessage_accepted_in s s txt Hloading Htext).
  rewrite (earlier_sendMessage_accepted_in s s txt Hloading Htext).
  rewrite Hmode, trim_idempotent.
  cbn [fst snd conversation message error isLoading acknowledgement promptFor].
  rewrite filter_isFetch_cancel.
  split; [reflexivity|]. split; [reflexivity|]. split; [reflexivity|].
  split; [reflexivity|].
  split; [intros turns Hturns; rewrite (requestOf_some _ _ _ Hturns);
          reflexivity|].
  split; [intros Hin; rewrite (requestOf_none _ _ Hin); split; reflexivity|].
  split; [reflexivity|].
  split; [destruct s; simpl in *; subst; reflexivity|].
  intros turns Hturns. apply requestOf_some. exact Hturns.
Qed.

(** X11 on the scenario "Good morning" on the mounted component. *)
Lemma chat_submission_witness :
  conversation (fst (invoke (sendMessage Sample.goodMorning) initialState))
  = [Said greetingTurn; Said (Sample.userTurn Sample.goodMorning)]
  /\ isLoading (fst (invoke (sendMessage Sample.goodMorning) initialState)) = true.
Proof.
  destruct (chat_submission initialState Sample.goodMorning
              eq_refl eq_refl eq_refl) as (A & _ & _ & B & _).
  split; [exact A | exact B].
Defined.

(** X12.  [sendMessage] of the first revision.  A blank text, or a call
    while loading, changes nothing at all and issues no command (no advisory
    either).  An accepted call stores and sends the text as it was given, not
    trimmed: the user Turn holds it, and the prompt is the text or the
    feature template around it. *)
Theorem first_revision_submission (s : State) (txt : jsstring) :
  (truthy (trim txt) = false \/ isLoading s = true ->
     invoke (FirstSend.sendMessage txt) s = (s, []))
  /\ (truthy (trim txt) = true -> isLoading s = false ->
      conversation (fst (invoke (FirstSend.sendMessage txt) s))
      = filter notListening (conversation s)
        ++ {| role := User; text := txt |}
           :: acknowledgement (awaitingFeatureInput s)
      /\ snd (invoke (FirstSend.sendMessage txt) s)
         = [Fetch (FirstSend.chatHistory (conversation s)
                     (promptFor (awaitingFeatureInput s) txt))]
      /\ awaitingFeatureInput (fst (invoke (FirstSend.sendMessage txt) s)) = None
      /\ isLoading (fst (invoke (FirstSend.sendMessage txt) s)) = true).
Proof.
  destruct s as [conv msg li sp lo err aw rr sr ss]. simpl.
  unfold invoke, FirstSend.sendMessage, FirstSend.sendPromptToGemini.
  split.
  - intros H.
    assert (E : negb (truthy (trim txt)) || lo = true).
    { destruct H as [-> | ->]; [reflexivity | apply orb_true_r]. }
    simpl. rewrite E. reflexivity.
  - intros Ht ->. simpl. rewrite Ht. simpl.
    primitives. simpl.
    destruct aw as [[|]|]; simpl; rewrite <- ?app_assoc; repeat split.
Qed.

(** X12 on a padded text: the first revision keeps the padding. *)
Lemma first_revision_submission_witness :
  invoke (FirstSend.sendMessage []) initialState = (initialState, [])
  /\ conversation (fst (invoke (FirstSend.sendMessage Sample.paddedFood) initialState))
     = [Said greetingTurn; Said (Sample.userTurn Sample.paddedFood)].
Proof.
  destruct (first_revision_submission initialState []) as (A & _).
  destruct (first_revision_submission initialState Sample.paddedFood) as (_ & B).
  destruct (B eq_refl eq_refl) as (B1 & _).
  split; [apply A; left; reflexivity | exact B1].
Defined.

(** X17.  Speech in the first revision.  The callbacks of the recognition
    object are created once, by an effect with an empty dependency list, so
    they read the cells of the render at which it ran: an empty log, not
    loading, not listening, no feature awaited.  With such a closure the
    result callback sends every recognised text that is not blank as a chat
    message without any history: the request holds the persona instruction
    and the text as it was recognised.  It does so also while a request is in
    flight and while a feature awaits its input: the feature mode stays set
    and no acknowledgement is appended.  Its call of [stopListening] does
    nothing, so [isListening] is left to the end callback.  The placeholder
    that [startListening] appended is removed by the result callback only:
    after the end or the error callback it is still in the log. *)
Theorem first_revision_speech (r s : State) (transcript e : jsstring)
        (Hlog : conversation r = []) (Hloading : isLoading r = false)
        (Hmode : awaitingFeatureInput r = None)
        (Hlistening : isListening r = false)
        (Htext : truthy (trim transcript) = true) :
  (snd (FirstSend.recognitionOnResult transcript r s)
   = [Fetch [{| contentRole := User; contentText := Text.initialPrompt |};
             {| contentRole := User; contentText := transcript |}]]
   /\ conversation (fst (FirstSend.recognitionOnResult transcript r s))
      = filter notListening (conversation s)
        ++ [{| role := User; text := transcript |}]
   /\ awaitingFeatureInput (fst (FirstSend.recognitionOnResult transcript r s))
      = awaitingFeatureInput s
   /\ isListening (fst (FirstSend.recognitionOnResult transcript r s))
      = isListening s
   /\ isLoading (fst (FirstSend.recognitionOnResult transcript r s)) = true
   /\ message (fst (FirstSend.recognitionOnResult transcript r s)) = [])
  /\ (recognitionRef s = true -> isListening s = false ->
      let started := fst (invoke (FirstSend.startListening true) s) in
      conversation started = conversation s ++ [placeholderTurn]
      /\ message started = message s
      /\ isListening started = true
      /\ conversation (fst (FirstSend.recognitionOnEnd started))
         = conversation s ++ [placeholderTurn]
      /\ isListening (fst (FirstSend.recognitionOnEnd started)) = false
      /\ conversation (fst (FirstSend.recognitionOnError e started))
         = conversation s ++ [placeholderTurn]
      /\ error (fst (FirstSend.recognitionOnError e started))
         = Text.errRecognition e
      /\ conversation (fst (FirstSend.recognitionOnResult transcript r started))
         = filter notListening (conversation s)
           ++ [{| role := User; text := transcript |}]).
Proof.
  assert (Hres : forall s0,
    FirstSend.recognitionOnResult transcript r s0
    = ({| conversation := filter notListening (conversation s0)
                          ++ [{| role := User; text := transcript |}];
          message := [];
          isListening := isListening s0;
          isSpeaking := isSpeaking s0;
          isLoading := true;
          error := [];
          awaitingFeatureInput := awaitingFeatureInput s0;
          recognitionRef := recognitionRef s0;
          synthRef := synthRef s0;
          synthSpeaking := synthSpeaking s0 |},
       [Fetch [{| contentRole := User; contentText := Text.initialPrompt |};
               {| contentRole := User; contentText := transcript |}]])).
  { intros [conv msg li sp lo err aw rr sr ss].
    unfold FirstSend.recognitionOnResult, FirstSend.sendMessage,
      FirstSend.sendPromptToGemini, FirstSend.chatHistory, stopListening.
    rewrite Hlog, Hloading, Hmode, Hlistening, Htext.
    primitives. simpl. rewrite andb_false_r. reflexivity. }
  split.
  - rewrite Hres. simpl. repeat split.
  - intros Href Hidle. cbv zeta. rewrite Hres.
    destruct s as [conv msg li sp lo err aw rr sr ss]. simpl in Href, Hidle.
    subst rr li.
    unfold invoke, FirstSend.startListening, FirstSend.recognitionOnEnd,
      FirstSend.recognitionOnError.
    primitives. simpl. fold placeholderTurn.
    rewrite filter_notListening_placeholder. repeat split.
Qed.

(** X17 on a recognised "hello" while the vocabulary feature awaits its
    topic: the text goes out alone and the feature is still awaited. *)
Lemma first_revision_speech_witness :
  snd (FirstSend.recognitionOnResult Sample.hello FirstSend.firstRender
         Sample.afterVocabulary)
  = [Fetch [{| contentRole := User; contentText := Text.initialPrompt |};
            {| contentRole := User; contentText := Sample.hello |}]]
  /\ awaitingFeatureInput
       (fst (FirstSend.recognitionOnResult Sample.hello FirstSend.firstRender
               Sample.afterVocabulary))
     = Some Vocab.
Proof.
  destruct (first_revision_speech FirstSend.firstRender Sample.afterVocabulary
              Sample.hello [] eq_refl eq_refl eq_refl eq_refl eq_refl)
    as ((A & _ & B & _) & _).
  split; [exact A | exact B].
Defined.

(** ** The feature triggers *)

Lemma filteredConversation_dropped (conv : list Turn) (t : Turn) :
  keptForSubmission t = false ->
  filteredConversation (conv ++ [t]) = filteredConversation conv.
Proof.
  intros H. unfold filteredConversation. rewrite filter_app. simpl. rewrite H.
  apply app_nil_r.
Qed.

Lemma andThen_silent (a b : Action) (s : State) :
  snd (a s) = [] -> (a ;; b) s = b (fst (a s)).
Proof.
  unfold andThen. destruct (a s) as [s1 c1]. simpl. intros ->.
  destruct (b s1). reflexivity.
Qed.

(** What the two initiation handlers do when nothing keeps them. *)
Lemma initiation_eq (marker question : jsstring) (mode : Feature) (s : State) :
  (setConversation (append {| role := User; text := marker |}) ;;
   setConversation (append {| role := Model; text := question |}) ;;
   speakMessage question ;;
   setAwaitingFeatureInput (Some mode)) (fst (setError [] s))
  = ({| conversation := conversation s
                        ++ [Said {| role := User; text := marker |};
                            Said {| role := Model; text := question |}];
        message := message s;
        isListening := isListening s;
        isSpeaking := (if synthRef s
                       then match chunk question maxUtteranceLength with
                            | [] => false
                            | _ :: _ => if synthSpeaking s then false
                                        else isSpeaking s
                            end
                       else isSpeaking s);
        isLoading := isLoading s;
        error := (if synthRef s then [] else Text.errNoSynthesis);
        awaitingFeatureInput := Some mode;
        recognitionRef := recognitionRef s;
        synthRef := synthRef s;
        synthSpeaking := (if synthRef s then false else synthSpeaking s) |},
     if synthRef s then
       (if synthSpeaking s then [SynthCancel] else [])
       ++ match chunk question maxUtteranceLength with
          | [] => []
          | c :: rest => [SchedulePlayback (c :: rest)]
          end
     else []).
Proof.
  destruct s as [conv msg li sp lo err aw rr sr ss].
  unfold andThen, setConversation, setAwaitingFeatureInput, setError, append.
  cbn [fst snd conversation]. rewrite speakMessage_eq.
  cbn [fst snd conversation message isListening isSpeaking isLoading error
       awaitingFeatureInput recognitionRef synthRef synthSpeaking app].
  rewrite <- !app_assoc. cbn [app].
  destruct sr; [|reflexivity]. rewrite app_nil_r. reflexivity.
Qed.

(** X13.  The vocabulary and rephrase triggers never send a request, in any
    state, and only clear the advisory while a flag is set or a feature is
    awaited.  With no activity flag set and no feature awaited they append
    the marker Turn and then the question Turn, hand the question to
    [speakMessage] and set the feature mode, each its own, and leave
    [isLoading].  With a synthesis object the commands are a cancel, when the
    engine reports speaking, and the playback of the chunks of the question;
    without one there is no command, and the advisory about missing
    synthesis is the only trace of the speech.  The marker is left out of
    later requests and the question is sent with them. *)
Theorem feature_initiation (s : State) :
  (filter isFetch (snd (invoke getBritishVocabulary s)) = []
   /\ filter isFetch (snd (invoke rephraseSentence s)) = [])
  /\ (busy s = true ->
      invoke getBritishVocabulary s = setError [] s
      /\ invoke rephraseSentence s = setError [] s)
  /\ (busy s = false ->
      (conversation (fst (invoke getBritishVocabulary s))
       = conversation s ++ [Said {| role := User; text := Text.vocabMarker |};
                            Said {| role := Model; text := Text.vocabQuestion |}]
       /\ conversation (fst (invoke rephraseSentence s))
          = conversation s
            ++ [Said {| role := User; text := Text.rephraseMarker |};
                Said {| role := Model; text := Text.rephraseQuestion |}])
      /\ (awaitingFeatureInput (fst (invoke getBritishVocabulary s))
          = Some Vocab
          /\ awaitingFeatureInput (fst (invoke rephraseSentence s))
             = Some Rephrase)
      /\ (isLoading (fst (invoke getBritishVocabulary s)) = false
          /\ isLoading (fst (invoke rephraseSentence s)) = false)
      /\ (synthRef s = true ->
          snd (invoke getBritishVocabulary s)
          = (if synthSpeaking s then [SynthCancel] else [])
            ++ [SchedulePlayback (chunk Text.vocabQuestion maxUtteranceLength)]
          /\ snd (invoke rephraseSentence s)
             = (if synthSpeaking s then [SynthCancel] else [])
               ++ [SchedulePlayback
                     (chunk Text.rephraseQuestion maxUtteranceLength)]
          /\ chunk Text.vocabQuestion maxUtteranceLength <> []
          /\ chunk Text.rephraseQuestion maxUtteranceLength <> []
          /\ error (fst (invoke getBritishVocabulary s)) = []
          /\ error (fst (invoke rephraseSentence s)) = [])
      /\ (synthRef s = false ->
          snd (invoke getBritishVocabulary s) = []
          /\ snd (invoke rephraseSentence s) = []
          /\ error (fst (invoke getBritishVocabulary s)) = Text.errNoSynthesis
          /\ error (fst (invoke rephraseSentence s)) = Text.errNoSynthesis))
  /\ (forall conv,
        filteredConversation
          (conv ++ [{| role := User; text := Text.vocabMarker |};
                    {| role := Model; text := Text.vocabQuestion |}])
        = filteredConversation conv
          ++ [{| role := Model; text := Text.vocabQuestion |}]
        /\ filteredConversation
             (conv ++ [{| role := User; text := Text.rephraseMarker |};
                       {| role := Model; text := Text.rephraseQuestion |}])
           = filteredConversation conv
             ++ [{| role := Model; text := Text.rephraseQuestion |}]).
Proof.
  assert (Cv : exists c cs, chunk Text.vocabQuestion maxUtteranceLength = c :: cs).
  { destruct (chunk Text.vocabQuestion maxUtteranceLength) as [|c cs] eqn:E;
      [vm_compute in E; discriminate | exists c, cs; reflexivity]. }
  assert (Cr : exists c cs, chunk Text.rephraseQuestion maxUtteranceLength = c :: cs).
  { destruct (chunk Text.rephraseQuestion maxUtteranceLength) as [|c cs] eqn:E;
      [vm_compute in E; discriminate | exists c, cs; reflexivity]. }
  destruct Cv as (cv & cvs & Cv). destruct Cr as (cr & crs & Cr).
  assert (Hv : busy s = false ->
               invoke getBritishVocabulary s
               = (setConversation (append {| role := User; text := Text.vocabMarker |}) ;;
                  setConversation (append {| role := Model; text := Text.vocabQuestion |}) ;;
                  speakMessage Text.vocabQuestion ;;
                  setAwaitingFeatureInput (Some Vocab)) (fst (setError [] s))).
  { intros Hb. unfold invoke, getBritishVocabulary. rewrite Hb.
    apply andThen_silent. reflexivity. }
  assert (Hr : busy s = false ->
               invoke rephraseSentence s
               = (setConversation (append {| role := User; text := Text.rephraseMarker |}) ;;
                  setConversation (append {| role := Model; text := Text.rephraseQuestion |}) ;;
                  speakMessage Text.rephraseQuestion ;;
                  setAwaitingFeatureInput (Some Rephrase)) (fst (setError [] s))).
  { intros Hb. unfold invoke, rephraseSentence. rewrite Hb.
    apply andThen_silent. reflexivity. }
  assert (Hbusy : busy s = true ->
                  invoke getBritishVocabulary s = setError [] s
                  /\ invoke rephraseSentence s = setError [] s).
  { intros Hb. unfold invoke, getBritishVocabulary, rephraseSentence.
    rewrite Hb. destruct s. split; reflexivity. }
  split; [|split; [exact Hbusy|split]].
  - destruct (busy s) eqn:Hb.
    + destruct (Hbusy eq_refl) as [-> ->]. split; reflexivity.
    + rewrite (Hv eq_refl), (Hr eq_refl), !initiation_eq, Cv, Cr. cbn [snd].
      destruct (synthRef s), (synthSpeaking s); split; reflexivity.
  - intros Hb.
    assert (Hlo : isLoading s = false).
    { unfold busy in Hb. destruct (isLoading s); [discriminate Hb|reflexivity]. }
    rewrite (Hv Hb), (Hr Hb), !initiation_eq, Cv, Cr.
    cbn [fst snd conversation awaitingFeatureInput isLoading error].
    split; [split; reflexivity|]. split; [split; reflexivity|].
    split; [split; exact Hlo|]. split.
    + intros ->. repeat split; discriminate.
    + intros ->. repeat split.
  - intros conv0. unfold filteredConversation. rewrite !filter_app.
    split; reflexivity.
Qed.

(** X13 on the mounted component, and on a component without a synthesis
    object. *)
Lemma feature_initiation_witness :
  busy initialState = false
  /\ conversation (fst (invoke getBritishVocabulary initialState))
     = [Said greetingTurn; Said (Sample.userTurn Text.vocabMarker);
        Said (Sample.modelTurn Text.vocabQuestion)]
  /\ filter isFetch (snd (invoke getBritishVocabulary initialState)) = []
  /\ awaitingFeatureInput (fst (invoke rephraseSentence initialState))
     = Some Rephrase
  /\ busy Sample.noSynthesis = false
  /\ awaitingFeatureInput (fst (invoke rephraseSentence Sample.noSynthesis))
     = Some Rephrase.
Proof.
  destruct (feature_initiation initialState) as ((A & _) & _ & B & _).
  destruct (B eq_refl) as ((B1 & _) & (_ & B2) & _).
  destruct (feature_initiation Sample.noSynthesis) as (_ & _ & C & _).
  destruct (C eq_refl) as (_ & (_ & C2) & _).
  split; [reflexivity|]. split; [exact B1|]. split; [exact A|].
  split; [exact B2|]. split; [reflexivity | exact C2].
Defined.

(** X14.  [startRolePlay] with no activity flag set and no feature awaited:
    the marker Turn is appended, one request is sent and [isLoading] is set;
    the request carries the fixed role-play instruction as its prompt and the
    kept Turns of the log as history (the log holding Turns only); the
    feature mode is not touched.  The marker is never part of a request, this
    one or a later one. *)
Theorem role_play_starts (s : State) (Hidle : busy s = false) :
  conversation (fst (invoke startRolePlay s))
  = conversation s ++ [Said {| role := User; text := Text.rolePlayMarker |}]
  /\ (forall turns, turnsOf (conversation s) = Some turns ->
        snd (invoke startRolePlay s)
        = [Fetch (chatHistory turns Text.rolePlayPrompt)])
  /\ (In Textless (conversation s) -> snd (invoke startRolePlay s) = [])
  /\ isLoading (fst (invoke startRolePlay s)) = true
  /\ awaitingFeatureInput (fst (invoke startRolePlay s)) = awaitingFeatureInput s
  /\ error (fst (invoke startRolePlay s)) = []
  /\ (forall promptContent now,
        snd (sendPromptToGemini (fst (invoke startRolePlay s)) promptContent now)
        = snd (sendPromptToGemini s promptContent now)
        /\ forall turns,
             chatHistory (turns ++ [{| role := User; text := Text.rolePlayMarker |}])
                         promptContent
             = chatHistory turns promptContent).
Proof.
  assert (E : invoke startRolePlay s
              = ({| conversation :=
                      conversation s
                      ++ [Said {| role := User; text := Text.rolePlayMarker |}];
                    message := message s;
                    isListening := isListening s;
                    isSpeaking := isSpeaking s;
                    isLoading := true;
                    error := [];
                    awaitingFeatureInput := awaitingFeatureInput s;
                    recognitionRef := recognitionRef s;
                    synthRef := synthRef s;
                    synthSpeaking := synthSpeaking s |},
                 requestOf (conversation s) Text.rolePlayPrompt)).
  { unfold invoke, startRolePlay. rewrite Hidle.
    destruct s as [conv msg li sp lo err aw rr sr ss].
    primitives. rewrite sendPromptToGemini_eq. reflexivity. }
  rewrite E. cbn [fst snd conversation isLoading awaitingFeatureInput error].
  split; [reflexivity|].
  split; [intros turns Hturns; apply requestOf_some; exact Hturns|].
  split; [intros Hin; apply requestOf_none; exact Hin|].
  split; [reflexivity|]. split; [reflexivity|]. split; [reflexivity|].
  intros p now. split.
  - rewrite !sendPromptToGemini_eq. cbn [snd conversation].
    unfold requestOf. rewrite turnsOf_app. simpl.
    destruct (turnsOf (conversation s)) as [turns|]; [|reflexivity].
    unfold chatHistory.
    rewrite (filteredConversation_dropped turns
               {| role := User; text := Text.rolePlayMarker |} eq_refl).
    reflexivity.
  - intros turns. unfold chatHistory.
    rewrite (filteredConversation_dropped turns
               {| role := User; text := Text.rolePlayMarker |} eq_refl).
    reflexivity.
Qed.

(** X14 on the mounted component. *)
Lemma role_play_starts_witness :
  busy initialState = false
  /\ snd (invoke startRolePlay initialState)
     = [Fetch (chatHistory [greetingTurn] Text.rolePlayPrompt)].
Proof.
  destruct (role_play_starts initialState eq_refl) as (_ & A & _).
  split; [reflexivity | exact (A [greetingTurn] eq_refl)].
Defined.

(** ** The controls against the handlers *)

(** X15.  The [disabled] attributes against the guards of the handlers.
    An enabled "Send" button always leads to an accepted submission, when
    [sendMessage] was created at a render with the current [isLoading]:
    [isLoading] is set and one request is sent (the log of that render
    holding Turns only).  The Enter key is not guarded on
    the text: with a blank input field it leads to a rejected submission, and
    the advisory about the empty message is set only when the field holds
    exactly the [message] of the render at which [sendMessage] was created,
    which a change of [message] does not renew.  Whenever the tips handler
    would find a user Turn, the tips button is enabled; the converse fails,
    since the button counts the sparkles-marked user Turns that the handler
    skips: then the click only sets the advisory. *)
Theorem controls_and_guards (w : World) (r : State) (startOk : bool) :
  (enabled ClickSend w = true -> isLoading r = isLoading (app w) ->
     (forall turns, turnsOf (conversation r) = Some turns ->
        filter isFetch (snd (handlerIn ClickSend startOk r (app w)))
        = [Fetch (chatHistory turns
                    (promptFor (awaitingFeatureInput r)
                               (trim (message (app w)))))])
     /\ (In Textless (conversation r) ->
          filter isFetch (snd (handlerIn ClickSend startOk r (app w))) = [])
     /\ isLoading (fst (handlerIn ClickSend startOk r (app w))) = true
     /\ conversation (fst (handlerIn ClickSend startOk r (app w)))
        = filter notListening (conversation (app w))
          ++ Said {| role := User; text := trim (message (app w)) |}
             :: acknowledgement (awaitingFeatureInput r))
  /\ (enabled PressEnter w = true -> truthy (trim (message (app w))) = false ->
      snd (handlerIn PressEnter startOk r (app w)) = []
      /\ error (fst (handlerIn PressEnter startOk r (app w)))
         = (if JsString.eqb (message (app w)) (message r)
            then Text.errEmptyMessage else error (app w)))
  /\ (busy (app w) = false ->
      existsb actualUserMessage (conversation (app w)) = true ->
      enabled ClickPronunciationTips w = true)
  /\ (enabled ClickPronunciationTips w = true ->
      existsb actualUserMessage (conversation (app w)) = false ->
      snd (handlerOf ClickPronunciationTips w (app w)) = []
      /\ error (fst (handlerOf ClickPronunciationTips w (app w)))
         = Text.errNoUserMessage).
Proof.
  destruct w as [s m ses pending]. simpl app.
  split; [|split; [|split]].
  - intros H Hr. unfold enabled in H. simpl app in H.
    apply negb_true_iff in H. apply orb_false_iff in H as [Ht Ha].
    apply negb_false_iff in Ht.
    apply activity_false in Ha as (Hlo & _).
    rewrite Hlo in Hr.
    simpl handlerIn. unfold reading.
    rewrite (sendMessage_accepted_in r s (message s) Hr Ht).
    cbn [fst snd isLoading conversation]. rewrite filter_isFetch_cancel.
    split; [|split; [|split; reflexivity]].
    + intros turns Hturns. rewrite (requestOf_some _ _ _ Hturns). reflexivity.
    + intros Hin. rewrite (requestOf_none _ _ Hin). reflexivity.
  - intros _ Ht. simpl handlerIn. unfold reading.
    rewrite (sendMessage_rejected_in r s (message s) (or_introl Ht)). simpl.
    rewrite Ht, andb_true_r. split; reflexivity.
  - intros Hb Hex. unfold enabled. simpl app. rewrite Hb. simpl.
    apply negb_true_iff. apply Nat.eqb_neq.
    apply existsb_exists in Hex as [x [Hin Hx]].
    assert (Hf : In x (filter countsForTips (conversation s))).
    { apply filter_In. split; [exact Hin|].
      destruct x as [turn|]; [|discriminate Hx].
      unfold actualUserMessage in Hx. unfold countsForTips, notListening, textIs.
      apply andb_true_iff in Hx as [Hx _]. exact Hx. }
    destruct (filter countsForTips (conversation s));
      [contradiction | discriminate].
  - intros H Hex. unfold enabled in H. simpl app in H.
    apply negb_true_iff in H. apply orb_false_iff in H as [Hb _].
    apply lastUserMessage_none in Hex.
    change (handlerOf ClickPronunciationTips
              {| app := s; memo := m; session := ses;
                 pendingFetches := pending |} s)
      with (invoke getPronunciationTips s).
    rewrite (getPronunciationTips_refuses s Hb Hex). split; reflexivity.
Qed.

(** X15 on a field of three spaces typed after the mount, with the
    [sendMessage] of the mount: Enter sends nothing and sets no advisory; and
    on a log whose only user Turn is the role-play marker: the tips button is
    enabled and the click only sets the advisory. *)
Lemma controls_and_guards_witness :
  enabled PressEnter Occurrences.blankTyped = true
  /\ truthy (trim (message (app Occurrences.blankTyped))) = false
  /\ snd (handlerIn PressEnter true initialState (app Occurrences.blankTyped)) = []
  /\ error (fst (handlerIn PressEnter true initialState
                           (app Occurrences.blankTyped))) = []
  /\ enabled ClickPronunciationTips Fixture.afterRolePlayMarker = true
  /\ error (fst (handlerOf ClickPronunciationTips Fixture.afterRolePlayMarker
                           (app Fixture.afterRolePlayMarker)))
     = Text.errNoUserMessage.
Proof.
  assert (He : enabled ClickPronunciationTips Fixture.afterRolePlayMarker = true)
    by reflexivity.
  destruct (controls_and_guards Occurrences.blankTyped initialState true)
    as (_ & B & _).
  destruct (B eq_refl eq_refl) as (B1 & B2).
  destruct (controls_and_guards Fixture.afterRolePlayMarker initialState true)
    as (_ & _ & _ & A).
  destruct (A He eq_refl) as (_ & A2).
  split; [reflexivity|]. split; [reflexivity|]. split; [exact B1|].
  split; [exact B2|]. split; [exact He | exact A2].
Defined.

(** ** A whole exchange *)

Lemma play_keeps_listening (outcomes : list UtteranceOutcome) :
  forall p s, isListening (fst (play outcomes p s)) = isListening s.
Proof.
  induction outcomes as [|o outcomes IH]; intros p s; simpl.
  - destruct (nth_error (chunks p) (currentChunkIndex p)); reflexivity.
  - destruct (nth_error (chunks p) (currentChunkIndex p)); [|reflexivity].
    destruct o as [|started e].
    + playback.
      destruct (S (currentChunkIndex p) <? length (chunks p)); [|reflexivity].
      match goal with
      | |- context [play outcomes ?q ?s'] =>
          pose proof (IH q s') as A;
          destruct (play outcomes q s') as [s2 c2]
      end.
      simpl in *. exact A.
    + destruct started; playback; reflexivity.
Qed.

(** X16.  One whole exchange.  From a state with no activity flag set, no
    feature awaited and a synthesis object, take an accepted [sendMessage],
    the settlement of its request with a usable candidate text, and the
    playback of the chunks of that text without error.  At the end no
    activity flag is set and the advisory is empty; the log has lost the
    placeholders and gained exactly the user Turn with the trimmed text and
    the model Turn with the candidate text, in this order; between the
    settlement and the playback [isLoading] is already false. *)
Theorem exchange_returns_to_idle (s : State) (txt reply : jsstring)
        (result : ApiResult)
        (Hidle : activity s = false)
        (Hmode : awaitingFeatureInput s = None)
        (Hsynth : synthRef s = true)
        (Htext : truthy (trim txt) = true)
        (Hreply : firstCandidateText result = Some reply) :
  let sent := fst (invoke (sendMessage txt) s) in
  let settled := fst (fetchSettled (Returned result) sent) in
  let spoken :=
    fst (play (repeat Spoken (length (chunk reply maxUtteranceLength)))
              {| chunks := chunk reply maxUtteranceLength;
                 currentChunkIndex := 0 |} settled) in
  isLoading sent = true
  /\ isLoading settled = false
  /\ conversation spoken
     = filter notListening (conversation s)
       ++ [Said {| role := User; text := trim txt |};
           Said {| role := Model; text := reply |}]
  /\ activity spoken = false
  /\ error spoken = [].
Proof.
  apply activity_false in Hidle as (Hlo & Hli & Hsp).
  destruct s as [conv msg li sp lo err aw rr sr ss].
  simpl in Hlo, Hli, Hsp, Hmode, Hsynth.
  subst lo li sp aw sr.
  assert (Ha : aiResponseText result = Some reply).
  { unfold aiResponseText. unfold firstCandidateText in Hreply.
    destruct (firstPart result); [exact Hreply | discriminate Hreply]. }
  assert (Hsent :
    fst (invoke (sendMessage txt)
           {| conversation := conv; message := msg; isListening := false;
              isSpeaking := false; isLoading := false; error := err;
              awaitingFeatureInput := None; recognitionRef := rr;
              synthRef := true; synthSpeaking := ss |})
    = {| conversation := filter notListening conv
                         ++ [Said {| role := User; text := trim txt |}];
         message := []; isListening := false; isSpeaking := false;
         isLoading := true; error := []; awaitingFeatureInput := None;
         recognitionRef := rr; synthRef := true; synthSpeaking := false |}).
  { unfold invoke.
    match goal with
    | |- fst (sendMessage txt ?s0 ?s0) = _ =>
        rewrite (sendMessage_accepted_in s0 s0 txt eq_refl Htext)
    end.
    simpl. destruct ss; reflexivity. }
  cbv zeta. rewrite Hsent.
  assert (Hsettled :
    fst (fetchSettled (Returned result)
           {| conversation := filter notListening conv
                              ++ [Said {| role := User; text := trim txt |}];
              message := []; isListening := false; isSpeaking := false;
              isLoading := true; error := []; awaitingFeatureInput := None;
              recognitionRef := rr; synthRef := true; synthSpeaking := false |})
    = {| conversation := filter notListening conv
                         ++ [Said {| role := User; text := trim txt |};
                             Said {| role := Model; text := reply |}];
         message := []; isListening := false; isSpeaking := false;
         isLoading := false; error := []; awaitingFeatureInput := None;
         recognitionRef := rr; synthRef := true; synthSpeaking := false |}).
  { rewrite (fetchSettled_text result reply _ Ha). cbn [fst].
    rewrite speakMessage_eq. unfold setConversation, setIsLoading, append.
    cbn [fst snd conversation message isListening isSpeaking isLoading error
         awaitingFeatureInput recognitionRef synthRef synthSpeaking].
    rewrite <- app_assoc.
    destruct (chunk reply maxUtteranceLength); reflexivity. }
  rewrite Hsettled.
  split; [reflexivity|]. split; [reflexivity|].
  set (settled := {| conversation := filter notListening conv
                       ++ [Said {| role := User; text := trim txt |};
                           Said {| role := Model; text := reply |}];
                     message := []; isListening := false; isSpeaking := false;
                     isLoading := false; error := []; awaitingFeatureInput := None;
                     recognitionRef := rr; synthRef := true;
                     synthSpeaking := false |}).
  set (chs := chunk reply maxUtteranceLength).
  destruct (play_frame (repeat Spoken (length chs))
              {| chunks := chs; currentChunkIndex := 0 |} settled)
    as (Fc & Fl & _).
  pose proof (play_keeps_listening (repeat Spoken (length chs))
                {| chunks := chs; currentChunkIndex := 0 |} settled) as Fli.
  split; [rewrite Fc; reflexivity|].
  unfold activity. rewrite Fl, Fli. simpl.
  destruct chs as [|c chs'] eqn:Ec.
  - simpl. split; reflexivity.
  - destruct (play_to_the_end (c :: chs') [] (length chs') 0 settled eq_refl)
      as (_ & B & C).
    rewrite app_nil_r in B, C. split; assumption.
Qed.

(** X16 on "Good morning" answered by a text of three sentences. *)
Lemma exchange_returns_to_idle_witness :
  activity
    (fst (play (repeat Spoken
                  (length (chunk Sample.threeSentences maxUtteranceLength)))
               {| chunks := chunk Sample.threeSentences maxUtteranceLength;
                  currentChunkIndex := 0 |}
               (fst (fetchSettled (Returned Fixture.threeSentenceReply)
                       (fst (invoke (sendMessage Sample.goodMorning)
                                    initialState))))))
  = false.
Proof.
  destruct (exchange_returns_to_idle initialState Sample.goodMorning
              Sample.threeSentences Fixture.threeSentenceReply
              eq_refl eq_refl eq_refl eq_refl eq_refl) as (_ & _ & _ & A & _).
  exact A.
Defined.
